(** * Chat controller: tool-call orchestration and response interpretation

    A shallow embedding of [js/chat-controller.js] and the properties of it
    that its specification states.

    - JavaScript strings are sequences of UTF-16 code units; numbers are
      exact decimals (IEEE rounding and infinities are not modelled).
    - The values the model and the tools exchange are JSON values, with
      [JSON.parse] and [JSON.stringify] written out.
    - The private variables of the module are the fields of one [State]
      record.  A function of the controller is a computation [M A]: it takes
      the state and returns the new state with a value, an exception, or
      the mark that it did not return.
    - The collaborators the controller calls into (UIController,
      ToolsService, ApiService, SettingsController, the clock) are an [Env]
      of answers, indexed by the number of requests made so far; the calls
      made on the user interface are recorded in the state.  Console output
      is left out.
    - An operation runs to its end before the next one starts, as in the
      cooperative scheduling of the source.
    - The recursions the source does not bound (tool call after tool call,
      summary after summary) are cut at a depth [fuel]. *)

From Stdlib Require Import List Ascii String ZArith NArith Bool Lia Arith.
Import ListNotations.

Set Implicit Arguments.

(** [length] is the length of a list throughout. *)
Abbreviation length := Datatypes.length (only parsing).

(* ================================================================== *)
(** * JavaScript strings *)
(* ================================================================== *)

Module JsString.

(** A string is a list of UTF-16 code units. *)
Definition codeunit := N.
Definition jsstring := list codeunit.

(** ASCII literals. *)
Definition str (s : string) : jsstring :=
  map N_of_ascii (list_ascii_of_string s).
Arguments str s%_string.

Definition ch (c : ascii) : codeunit := N_of_ascii c.

Fixpoint eqb (a b : jsstring) : bool :=
  match a, b with
  | [], [] => true
  | x :: a', y :: b' => N.eqb x y && eqb a' b'
  | _, _ => false
  end.

(** [s.length] *)
Definition len (s : jsstring) : Z := Z.of_nat (length s).

(** [s.startsWith(p)] *)
Fixpoint startsWith (p s : jsstring) : bool :=
  match p, s with
  | [], _ => true
  | x :: p', y :: s' => N.eqb x y && startsWith p' s'
  | _ :: _, [] => false
  end.

(** Text that follows the leftmost occurrence of [p] in [s]. *)
Fixpoint afterFirst (p s : jsstring) : option jsstring :=
  if startsWith p s then Some (skipn (length p) s)
  else match s with
       | [] => None
       | _ :: t => afterFirst p t
       end.

(** Text that precedes the leftmost occurrence of [p] in [s]; all of [s]
    when [p] does not occur. *)
Fixpoint beforeFirst (p s : jsstring) : jsstring :=
  if startsWith p s then []
  else match s with
       | [] => []
       | x :: t => x :: beforeFirst p t
       end.

(** [s.includes(p)] *)
Definition includes (p s : jsstring) : bool :=
  match afterFirst p s with Some _ => true | None => false end.

(** WhiteSpace and LineTerminator code units, as [String.prototype.trim]
    and the regular expression class [\s] see them. *)
Definition isWhiteSpace (c : codeunit) : bool :=
  ((9 <=? c) && (c <=? 13) || (c =? 32) || (c =? 160) || (c =? 5760)
   || (8192 <=? c) && (c <=? 8202) || (c =? 8232) || (c =? 8233)
   || (c =? 8239) || (c =? 8287) || (c =? 12288) || (c =? 65279))%N.

Fixpoint trimStart (s : jsstring) : jsstring :=
  match s with
  | c :: t => if isWhiteSpace c then trimStart t else s
  | [] => []
  end.

Definition trimEnd (s : jsstring) : jsstring := rev (trimStart (rev s)).

(** [s.trim()] *)
Definition trim (s : jsstring) : jsstring := trimEnd (trimStart s).

(** [s.slice(from, to)] for integral bounds; a negative bound counts from
    the end of the string. *)
Definition sliceIndex (i : Z) (s : jsstring) : Z :=
  if (i <? 0)%Z then Z.max (len s + i) 0 else Z.min i (len s).

Definition slice (from to : Z) (s : jsstring) : jsstring :=
  let a := sliceIndex from s in
  let b := sliceIndex to s in
  firstn (Z.to_nat (b - a)) (skipn (Z.to_nat a) s).

(** [s.split(sep)] for a one-unit separator. *)
Fixpoint split (sep : codeunit) (s : jsstring) : list jsstring :=
  match s with
  | [] => [[]]
  | c :: t =>
      if N.eqb c sep then [] :: split sep t
      else match split sep t with
           | piece :: rest => (c :: piece) :: rest
           | [] => [[c]]
           end
  end.

(** [pieces.join(sep)] *)
Fixpoint join (sep : jsstring) (pieces : list jsstring) : jsstring :=
  match pieces with
  | [] => []
  | [p] => p
  | p :: rest => p ++ sep ++ join sep rest
  end.

(** [s.toLowerCase()] on the ASCII letters. *)
Definition toLowerCase (s : jsstring) : jsstring :=
  map (fun c => if ((65 <=? c) && (c <=? 90))%N then (c + 32)%N else c) s.

Definition isDigit (c : codeunit) : bool := ((48 <=? c) && (c <=? 57))%N.

Fixpoint takeWhile (f : codeunit -> bool) (s : jsstring) : jsstring :=
  match s with
  | c :: t => if f c then c :: takeWhile f t else []
  | [] => []
  end.

Fixpoint dropWhile (f : codeunit -> bool) (s : jsstring) : jsstring :=
  match s with
  | c :: t => if f c then dropWhile f t else s
  | [] => []
  end.

(** Decimal digits of a natural number, most significant first. *)
Fixpoint digitsFuel (fuel : nat) (n : N) (acc : jsstring) : jsstring :=
  match fuel with
  | O => acc
  | S f =>
      let acc' := (48 + N.modulo n 10)%N :: acc in
      if (n <? 10)%N then acc' else digitsFuel f (N.div n 10) acc'
  end.

Definition digits (n : N) : jsstring :=
  digitsFuel (S (N.to_nat (N.log2 n))) n [].

(** Value of a run of decimal digits. *)
Definition digitsValue (s : jsstring) : Z :=
  fold_left (fun acc c => (acc * 10 + (Z.of_N c - 48))%Z) s 0%Z.

End JsString.
Import JsString.

(* ================================================================== *)
(** * JavaScript numbers *)
(* ================================================================== *)

Module JsNumber.

(** The number [mant * 10 ^ expo].  Values are kept in normal form: the
    mantissa of a non-zero number is not a multiple of ten, and zero is
    [0 * 10 ^ 0]. *)
Record number := mkNum { mant : Z; expo : Z }.

Fixpoint stripZeros (fuel : nat) (m e : Z) : number :=
  match fuel with
  | O => mkNum m e
  | S f =>
      if (m =? 0)%Z then mkNum 0 0
      else if (Z.rem m 10 =? 0)%Z then stripZeros f (Z.quot m 10) (e + 1)
      else mkNum m e
  end.

Definition normalize (m e : Z) : number :=
  stripZeros (S (Z.to_nat (Z.log2 (Z.abs m)))) m e.

Definition ofZ (z : Z) : number := normalize z 0.

Definition eqb (a b : number) : bool :=
  ((mant a =? mant b) && (expo a =? expo b))%Z.

(** Mantissas of [a] and [b] over their common (smaller) exponent. *)
Definition aligned (a b : number) : Z * Z :=
  let e := Z.min (expo a) (expo b) in
  (mant a * 10 ^ (expo a - e), mant b * 10 ^ (expo b - e))%Z.

Definition add (a b : number) : number :=
  let '(x, y) := aligned a b in
  normalize (x + y) (Z.min (expo a) (expo b)).

Definition sub (a b : number) : number :=
  let '(x, y) := aligned a b in
  normalize (x - y) (Z.min (expo a) (expo b)).

Definition ltb (a b : number) : bool :=
  let '(x, y) := aligned a b in (x <? y)%Z.

Definition leb (a b : number) : bool :=
  let '(x, y) := aligned a b in (x <=? y)%Z.

Definition isZero (a : number) : bool := (mant a =? 0)%Z.

(** ToIntegerOrInfinity: truncation towards zero. *)
Definition toInteger (a : number) : Z :=
  if (0 <=? expo a)%Z then (mant a * 10 ^ expo a)%Z
  else Z.quot (mant a) (10 ^ (- expo a)).

Definition zeros (n : Z) : jsstring := repeat 48%N (Z.to_nat n).

(** Number::toString, radix 10: the digits [ds] of the mantissa, [k] of
    them, with the decimal point after the [n]-th. *)
Definition toString (a : number) : jsstring :=
  if (mant a =? 0)%Z then str "0"
  else
    let ds := digits (Z.to_N (Z.abs (mant a))) in
    let k := len ds in
    let n := (k + expo a)%Z in
    let sign := if (mant a <? 0)%Z then str "-" else [] in
    let body :=
      if ((k <=? n) && (n <=? 21))%Z then ds ++ zeros (n - k)
      else if ((0 <? n) && (n <=? 21))%Z then
        firstn (Z.to_nat n) ds ++ str "." ++ skipn (Z.to_nat n) ds
      else if ((-6 <? n) && (n <=? 0))%Z then
        str "0." ++ zeros (- n) ++ ds
      else
        let x := (n - 1)%Z in
        let es := (if (x <? 0)%Z then str "-" else str "+")
                  ++ digits (Z.to_N (Z.abs x)) in
        match ds with
        | [d] => [d] ++ str "e" ++ es
        | d :: more => [d] ++ str "." ++ more ++ str "e" ++ es
        | [] => []
        end
    in sign ++ body.

End JsNumber.
Import (notations) JsNumber.
Abbreviation number := JsNumber.number.

(* ================================================================== *)
(** * JSON values, [JSON.parse] and [JSON.stringify] *)
(* ================================================================== *)

(** A value or the exception thrown instead; the payload is [err.message]. *)
Inductive Completion (A : Type) : Type :=
| Normal (a : A)
| Throw (message : jsstring).
Arguments Normal {A} a.
Arguments Throw {A} message.

Module Json.

#[warnings="-register-all"]
Inductive JSON : Type :=
| JNull
| JBool (b : bool)
| JNumber (n : number)
| JString (s : jsstring)
| JArray (items : list JSON)
| JObject (members : list (jsstring * JSON)).

(** ToBoolean *)
Definition truthy (v : JSON) : bool :=
  match v with
  | JNull => false
  | JBool b => b
  | JNumber n => negb (JsNumber.isZero n)
  | JString s => match s with [] => false | _ => true end
  | JArray _ | JObject _ => true
  end.

(** ToBoolean of a possibly [undefined] value. *)
Definition truthyOpt (v : option JSON) : bool :=
  match v with Some x => truthy x | None => false end.

Fixpoint lookup (k : jsstring) (ms : list (jsstring * JSON)) : option JSON :=
  match ms with
  | [] => None
  | (k', v) :: rest => if JsString.eqb k k' then Some v else lookup k rest
  end.

(** [v.k] for a value that is neither [null] nor [undefined]; [None] is
    [undefined].  Own properties only, and [length] of strings and arrays. *)
Definition getProp (k : jsstring) (v : JSON) : option JSON :=
  match v with
  | JObject ms => lookup k ms
  | JString s =>
      if JsString.eqb k (str "length") then Some (JNumber (JsNumber.ofZ (len s)))
      else None
  | JArray l =>
      if JsString.eqb k (str "length")
      then Some (JNumber (JsNumber.ofZ (Z.of_nat (length l))))
      else None
  | _ => None
  end.

(** An array index: the canonical decimal text of an integer below
    [2^32 - 1].  Such keys come first in an object, in ascending order. *)
Definition arrayIndex (k : jsstring) : option Z :=
  match k with
  | [] => None
  | c :: _ =>
      if forallb isDigit k
         && (negb (c =? 48)%N || (length k =? 1)%nat)
         && (digitsValue k <? 4294967295)%Z
      then Some (digitsValue k) else None
  end.

(** Position of a new key among the existing members. *)
Fixpoint insertMember (k : jsstring) (v : JSON) (ms : list (jsstring * JSON))
  : list (jsstring * JSON) :=
  match ms with
  | [] => [(k, v)]
  | (k', v') :: rest =>
      match arrayIndex k, arrayIndex k' with
      | Some i, Some j =>
          if (i <? j)%Z then (k, v) :: ms else (k', v') :: insertMember k v rest
      | Some _, None => (k, v) :: ms
      | None, _ => (k', v') :: insertMember k v rest
      end
  end.

Fixpoint replaceMember (k : jsstring) (v : JSON) (ms : list (jsstring * JSON))
  : list (jsstring * JSON) :=
  match ms with
  | [] => []
  | (k', v') :: rest =>
      if JsString.eqb k k' then (k', v) :: rest
      else (k', v') :: replaceMember k v rest
  end.

(** CreateDataProperty: a repeated key keeps its place and takes the new
    value. *)
Definition setMember (k : jsstring) (v : JSON) (ms : list (jsstring * JSON))
  : list (jsstring * JSON) :=
  match lookup k ms with
  | Some _ => replaceMember k v ms
  | None => insertMember k v ms
  end.

(** ** Parsing *)

Inductive parsed (A : Type) : Type :=
| Parsed (a : A) (rest : jsstring)
| SyntaxError
| OutOfFuel.
Arguments Parsed {A} a rest.
Arguments SyntaxError {A}.
Arguments OutOfFuel {A}.

(** JSON white space: tab, line feed, carriage return, space. *)
Definition isJsonWs (c : codeunit) : bool :=
  ((c =? 9) || (c =? 10) || (c =? 13) || (c =? 32))%N.

Definition skipWs (s : jsstring) : jsstring := dropWhile isJsonWs s.

Definition hexValue (c : codeunit) : option N :=
  if isDigit c then Some (c - 48)%N
  else if ((97 <=? c) && (c <=? 102))%N then Some (c - 87)%N
  else if ((65 <=? c) && (c <=? 70))%N then Some (c - 55)%N
  else None.

Definition hex4 (a b c d : codeunit) : option codeunit :=
  match hexValue a, hexValue b, hexValue c, hexValue d with
  | Some x, Some y, Some z, Some w => Some (((x * 16 + y) * 16 + z) * 16 + w)%N
  | _, _, _, _ => None
  end.

Definition escapeValue (e : codeunit) : option codeunit :=
  if (e =? 34)%N then Some 34%N          (* quote *)
  else if (e =? 92)%N then Some 92%N     (* backslash *)
  else if (e =? 47)%N then Some 47%N     (* solidus *)
  else if (e =? 98)%N then Some 8%N      (* backspace *)
  else if (e =? 102)%N then Some 12%N    (* form feed *)
  else if (e =? 110)%N then Some 10%N    (* line feed *)
  else if (e =? 114)%N then Some 13%N    (* carriage return *)
  else if (e =? 116)%N then Some 9%N     (* tab *)
  else None.

(** The characters of a string literal after its opening quote; [acc] holds
    the decoded units so far, last first. *)
Fixpoint parseChars (s acc : jsstring) : parsed jsstring :=
  match s with
  | [] => SyntaxError
  | c :: t =>
      if (c =? 34)%N then Parsed (rev acc) t
      else if (c =? 92)%N then
        match t with
        | [] => SyntaxError
        | e :: t' =>
            if (e =? 117)%N then
              match t' with
              | h1 :: h2 :: h3 :: h4 :: t'' =>
                  match hex4 h1 h2 h3 h4 with
                  | Some u => parseChars t'' (u :: acc)
                  | None => SyntaxError
                  end
              | _ => SyntaxError
              end
            else
              match escapeValue e with
              | Some u => parseChars t' (u :: acc)
              | None => SyntaxError
              end
        end
      else if (c <? 32)%N then SyntaxError
      else parseChars t (c :: acc)
  end.

(** A number: an optional minus sign; a zero, or a non-zero digit and more
    digits; an optional point and digits; an optional exponent of [e] or [E],
    a sign and digits.  The value is kept as the decimal that is written;
    [JSON.parse] rounds it to the nearest double, which changes numbers of
    more than fifteen significant digits or beyond the range of doubles. *)
Definition parseNumber (s : jsstring) : parsed number :=
  let '(neg, s1) :=
    match s with
    | c :: t => if (c =? 45)%N then (true, t) else (false, s)
    | [] => (false, s)
    end in
  let '(ip, s2) :=
    match s1 with
    | c :: t =>
        if (c =? 48)%N then ([c], t)
        else (takeWhile isDigit s1, dropWhile isDigit s1)
    | [] => ([], s1)
    end in
  match ip with
  | [] => SyntaxError
  | _ :: _ =>
      let frac :=
        match s2 with
        | c :: t =>
            if (c =? 46)%N then
              match takeWhile isDigit t with
              | [] => None
              | fp => Some (fp, dropWhile isDigit t)
              end
            else Some ([], s2)
        | [] => Some ([], s2)
        end in
      match frac with
      | None => SyntaxError
      | Some (fp, s3) =>
          let expn :=
            match s3 with
            | c :: t =>
                if ((c =? 101) || (c =? 69))%N then
                  let '(eneg, t1) :=
                    match t with
                    | sg :: t' =>
                        if (sg =? 45)%N then (true, t')
                        else if (sg =? 43)%N then (false, t')
                        else (false, t)
                    | [] => (false, t)
                    end in
                  match takeWhile isDigit t1 with
                  | [] => None
                  | ep =>
                      Some ((if eneg then - digitsValue ep else digitsValue ep)%Z,
                            dropWhile isDigit t1)
                  end
                else Some (0%Z, s3)
            | [] => Some (0%Z, s3)
            end in
          match expn with
          | None => SyntaxError
          | Some (e, s4) =>
              let m := digitsValue (ip ++ fp) in
              Parsed (JsNumber.normalize (if neg then - m else m)%Z
                                         (e - Z.of_nat (length fp))%Z) s4
          end
      end
  end.

Definition parseLiteral (lit : jsstring) (v : JSON) (s : jsstring) : parsed JSON :=
  if startsWith lit s then Parsed v (skipn (length lit) s) else SyntaxError.

Fixpoint parseValue (fuel : nat) (s : jsstring) {struct fuel} : parsed JSON :=
  match fuel with
  | O => OutOfFuel
  | S f =>
      match skipWs s with
      | [] => SyntaxError
      | c :: t =>
          if (c =? 123)%N then            (* { *)
            match skipWs t with
            | c' :: t' =>
                if (c' =? 125)%N then Parsed (JObject []) t'
                else parseMembers f (c' :: t') []
            | [] => SyntaxError
            end
          else if (c =? 91)%N then        (* [ *)
            match skipWs t with
            | c' :: t' =>
                if (c' =? 93)%N then Parsed (JArray []) t'
                else parseElements f (c' :: t') []
            | [] => SyntaxError
            end
          else if (c =? 34)%N then        (* string *)
            match parseChars t [] with
            | Parsed k r => Parsed (JString k) r
            | SyntaxError => SyntaxError
            | OutOfFuel => OutOfFuel
            end
          else if (c =? 116)%N then parseLiteral (str "true") (JBool true) (c :: t)
          else if (c =? 102)%N then parseLiteral (str "false") (JBool false) (c :: t)
          else if (c =? 110)%N then parseLiteral (str "null") JNull (c :: t)
          else
            match parseNumber (c :: t) with
            | Parsed n r => Parsed (JNumber n) r
            | SyntaxError => SyntaxError
            | OutOfFuel => OutOfFuel
            end
      end
  end

(** Members of an object from the first key on; [acc] holds those read. *)
with parseMembers (fuel : nat) (s : jsstring) (acc : list (jsstring * JSON))
       {struct fuel} : parsed JSON :=
  match fuel with
  | O => OutOfFuel
  | S f =>
      match skipWs s with
      | c :: t =>
          if (c =? 34)%N then
            match parseChars t [] with
            | Parsed k r =>
                match skipWs r with
                | c1 :: r1 =>
                    if (c1 =? 58)%N then          (* : *)
                      match parseValue f r1 with
                      | Parsed v r2 =>
                          match skipWs r2 with
                          | c2 :: r3 =>
                              if (c2 =? 44)%N then
                                parseMembers f r3 (setMember k v acc)
                              else if (c2 =? 125)%N then
                                Parsed (JObject (setMember k v acc)) r3
                              else SyntaxError
                          | [] => SyntaxError
                          end
                      | SyntaxError => SyntaxError
                      | OutOfFuel => OutOfFuel
                      end
                    else SyntaxError
                | [] => SyntaxError
                end
            | SyntaxError => SyntaxError
            | OutOfFuel => OutOfFuel
            end
          else SyntaxError
      | [] => SyntaxError
      end
  end

(** Elements of an array from the first one on; [acc] holds those read,
    last first. *)
with parseElements (fuel : nat) (s : jsstring) (acc : list JSON)
       {struct fuel} : parsed JSON :=
  match fuel with
  | O => OutOfFuel
  | S f =>
      match parseValue f s with
      | Parsed v r =>
          match skipWs r with
          | c :: r1 =>
              if (c =? 44)%N then parseElements f r1 (v :: acc)
              else if (c =? 93)%N then Parsed (JArray (rev (v :: acc))) r1
              else SyntaxError
          | [] => SyntaxError
          end
      | SyntaxError => SyntaxError
      | OutOfFuel => OutOfFuel
      end
  end.

(** [JSON.parse(text)]: one value, white space around it, nothing else.
    The parser descends at most twice per code unit read, so the fuel given
    here is never used up (see [parse_fuel_enough]). *)
Definition parseFuel (text : jsstring) : nat := 2 + 2 * length text.

Definition parse (text : jsstring) : Completion JSON :=
  match parseValue (parseFuel text) text with
  | Parsed v rest =>
      match skipWs rest with
      | [] => Normal v
      | _ :: _ => Throw (str "Unexpected non-whitespace character after JSON")
      end
  | SyntaxError => Throw (str "Unexpected token in JSON")
  | OutOfFuel => Throw (str "Unexpected end of JSON input")
  end.

(** ** Serialising *)

Definition hexDigit (n : N) : codeunit :=
  if (n <? 10)%N then (48 + n)%N else (87 + n)%N.

Definition unicodeEscape (c : codeunit) : jsstring :=
  str "\u" ++ [hexDigit (c / 4096 mod 16); hexDigit (c / 256 mod 16);
               hexDigit (c / 16 mod 16); hexDigit (c mod 16)]%N.

Definition isLeadSurrogate (c : codeunit) : bool :=
  ((55296 <=? c) && (c <=? 56319))%N.
Definition isTrailSurrogate (c : codeunit) : bool :=
  ((56320 <=? c) && (c <=? 57343))%N.

Fixpoint quoteChars (s : jsstring) : jsstring :=
  match s with
  | [] => []
  | c :: t =>
      if (c =? 8)%N then str "\b" ++ quoteChars t
      else if (c =? 9)%N then str "\t" ++ quoteChars t
      else if (c =? 10)%N then str "\n" ++ quoteChars t
      else if (c =? 12)%N then str "\f" ++ quoteChars t
      else if (c =? 13)%N then str "\r" ++ quoteChars t
      else if (c =? 34)%N then [92; 34]%N ++ quoteChars t
      else if (c =? 92)%N then [92; 92]%N ++ quoteChars t
      else if (c <? 32)%N then unicodeEscape c ++ quoteChars t
      else if isLeadSurrogate c then
        match t with
        | d :: t' =>
            if isTrailSurrogate d then c :: d :: quoteChars t'
            else unicodeEscape c ++ quoteChars t
        | [] => unicodeEscape c
        end
      else if isTrailSurrogate c then unicodeEscape c ++ quoteChars t
      else c :: quoteChars t
  end.

(** QuoteJSONString *)
Definition quote (s : jsstring) : jsstring := [34%N] ++ quoteChars s ++ [34%N].

(** SerializeJSONProperty with the gap [gap] at the indentation [indent]. *)
Fixpoint serialize (gap indent : jsstring) (v : JSON) {struct v} : jsstring :=
  let inner := indent ++ gap in
  let wrap (open close : jsstring) (parts : list jsstring) : jsstring :=
    match parts, gap with
    | [], _ => open ++ close
    | _ :: _, [] => open ++ join (str ",") parts ++ close
    | _ :: _, _ :: _ =>
        open ++ [10%N] ++ inner ++ join (str "," ++ [10%N] ++ inner) parts
             ++ [10%N] ++ indent ++ close
    end in
  match v with
  | JNull => str "null"
  | JBool true => str "true"
  | JBool false => str "false"
  | JNumber n => JsNumber.toString n
  | JString s => quote s
  | JArray items => wrap (str "[") (str "]") (map (serialize gap inner) items)
  | JObject members =>
      wrap (str "{") (str "}")
           (map (fun kv =>
                   let '(k, x) := kv in
                   quote k ++ (match gap with [] => str ":" | _ => str ": " end)
                         ++ serialize gap inner x)
                members)
  end.

(** [JSON.stringify(v)] *)
Definition stringify (v : JSON) : jsstring := serialize [] [] v.

(** [JSON.stringify(v, null, 2)] *)
Definition stringifyPretty (v : JSON) : jsstring := serialize (str "  ") [] v.

(** ToString of a value, as a template literal applies it. *)
Fixpoint toDisplayString (v : JSON) : jsstring :=
  match v with
  | JNull => str "null"
  | JBool true => str "true"
  | JBool false => str "false"
  | JNumber n => JsNumber.toString n
  | JString s => s
  | JArray items =>
      join (str ",")
           (map (fun x => match x with JNull => [] | _ => toDisplayString x end)
                items)
  | JObject _ => str "[object Object]"
  end.

End Json.
Import Json.

(* ================================================================== *)
(** * Text matching used by the controller *)
(* ================================================================== *)

Module Text.

(** Literal text in which a quotation mark is written as a backquote. *)
Definition txt (s : string) : jsstring :=
  map (fun c => if (c =? 96)%N then 34%N else c) (str s).
Arguments txt s%_string.

(** The longest prefix of [s] that ends with the unit [c]. *)
Fixpoint throughLast (c : codeunit) (s : jsstring) : option jsstring :=
  match s with
  | [] => None
  | x :: t =>
      match throughLast c t with
      | Some r => Some (x :: r)
      | None => if (x =? c)%N then Some [x] else None
      end
  end.

(** [text.match(/\{[\s\S]*\}/)]: from the first opening brace to the last
    closing brace after it. *)
Definition matchBraces (text : jsstring) : option jsstring :=
  match dropWhile (fun c => negb (c =? 123)%N) text with
  | [] => None
  | open :: rest =>
      match throughLast 125%N rest with
      | Some r => Some (open :: r)
      | None => None
      end
  end.

Definition Thinking : jsstring := str "Thinking:".
Definition Answer : jsstring := str "Answer:".

(** Group 1 of [/Thinking:(.*?)(?=Answer:|$)/s]: what follows the first
    [Thinking:] up to the next [Answer:], or up to the end. *)
Definition matchThinking (text : jsstring) : option jsstring :=
  match afterFirst Thinking text with
  | Some r => Some (beforeFirst Answer r)
  | None => None
  end.

(** Group 1 of [/Answer:(.*?)$/s]: what follows the first [Answer:]. *)
Definition matchAnswer (text : jsstring) : option jsstring :=
  afterFirst Answer text.

(** [text.replace(/^Thinking:/, '')] *)
Definition dropThinkingPrefix (text : jsstring) : jsstring :=
  if startsWith Thinking text then skipn (length Thinking) text else text.

(** [text.replace(/^.*?Thinking:/s, replacement)] *)
Definition replaceThroughThinking (replacement text : jsstring) : jsstring :=
  match afterFirst Thinking text with
  | Some r => replacement ++ r
  | None => text
  end.

(** [text.match(/([\d, ]+)/)]: the first run of digits, commas and spaces. *)
Definition isListUnit (c : codeunit) : bool :=
  isDigit c || (c =? 44)%N || (c =? 32)%N.

Definition matchNumberList (text : jsstring) : option jsstring :=
  match dropWhile (fun c => negb (isListUnit c)) text with
  | [] => None
  | r => Some (takeWhile isListUnit r)
  end.

(** [parseInt(s.trim(), 10)] on a piece made of digits and spaces; [None]
    is [NaN]. *)
Definition parseIntTrimmed (s : jsstring) : option Z :=
  match takeWhile isDigit (trim s) with
  | [] => None
  | ds => Some (digitsValue ds)
  end.

(** Text of an integer in a template literal. *)
Definition showZ (z : Z) : jsstring := JsNumber.toString (JsNumber.ofZ z).

End Text.
Import Text.

(* ================================================================== *)
(** * Response classifier: tool calls *)
(* ================================================================== *)

Definition tryCatch {A : Type} (body : Completion A)
  (handler : jsstring -> Completion A) : Completion A :=
  match body with
  | Normal a => Normal a
  | Throw message => handler message
  end.

(** [extractToolCall(text)]; the result [JNull] is [null]. *)
Definition extractToolCall (text : jsstring) : Completion JSON :=
  match matchBraces text with
  | None => Normal JNull
  | Some span => tryCatch (parse span) (fun _ => Normal JNull)
  end.

(** [toolCall && toolCall.tool && toolCall.arguments] *)
Definition looksLikeToolCall (toolCall : JSON) : bool :=
  truthy toolCall
  && truthyOpt (getProp (str "tool") toolCall)
  && truthyOpt (getProp (str "arguments") toolCall).

(* ================================================================== *)
(** * The chat controller *)
(* ================================================================== *)

Module ChatController.

(** ** Data model *)

Inductive Role : Type := system | user | assistant.

(** An entry of the conversation log. *)
Record Turn : Type := mkTurn { role : Role; content : jsstring }.

Record Settings : Type :=
  mkSettings { streaming : bool; enableCoT : bool; showThinking : bool }.

(** A partial settings object, as [init] and [updateSettings] receive it. *)
Record SettingsPatch : Type :=
  mkPatch { newStreaming : option bool;
            newEnableCoT : option bool;
            newShowThinking : option bool }.

Record SearchResult : Type :=
  mkSearchResult { title : jsstring; url : jsstring; snippet : jsstring }.

(** The object handed to [processToolCall]. *)
Record ToolCall : Type :=
  mkCall { tool : JSON; arguments : JSON; skipContinue : bool }.

(** An entry of the tool-call audit log. *)
Record ToolCallRecord : Type :=
  mkRecord { calledTool : JSON; calledArgs : JSON; timestamp : jsstring }.

(** A processed chain-of-thought response; [None] is an absent property. *)
Record CoT : Type :=
  mkCoT { thinking : jsstring;
          answer : jsstring;
          hasStructuredResponse : bool;
          partial : option bool;
          stage : option jsstring }.

(** Calls made on the user interface. *)
Inductive UIEvent : Type :=
| showSpinner (text : jsstring)
| hideSpinner
| showStatus (text : jsstring)
| clearStatus
| addMessage (sender text : jsstring)
| addSearchResult (result : SearchResult) (highlighted : bool)
| addReadResult (url snippet : jsstring) (hasMore : bool)
| addSummarizeButton
| createEmptyAIMessage
| updateMessageContent (handle : nat) (text : jsstring)
| clearUserInput
| setupEventHandlers
| updateTokenDisplay (tokens : Z)
| setInputsDisabled (disabled : bool).
(* [setInputsDisabled] stands for the two assignments to the [disabled]
   property of the message input and of the send button. *)

(** The private state of the module, the calls made on the user interface so
    far (oldest first) and the number of requests sent to the services. *)
Record State : Type :=
  mkState { chatHistory : list Turn;
            totalTokens : Z;
            settings : Settings;
            isThinking : bool;
            lastThinkingContent : jsstring;
            lastAnswerContent : jsstring;
            readSnippets : list jsstring;
            lastToolCall : option jsstring;
            lastToolCallCount : Z;
            lastSearchResults : list SearchResult;
            autoReadInProgress : bool;
            toolCallHistory : list ToolCallRecord;
            highlightedResultIndices : list Z;
            readCache : list (jsstring * jsstring);
            ui : list UIEvent;
            clock : nat }.

Definition MAX_TOOL_CALL_REPEAT : Z := 3.

(** The state when the script has been loaded. *)
Definition loaded : State :=
  mkState [] 0 (mkSettings false false true) false [] [] [] None 0 [] false
          [] [] [] [] 0.

(** Field updates. *)
Definition set_chatHistory (v : list Turn) (s : State) : State :=
  mkState v (totalTokens s) (settings s) (isThinking s) (lastThinkingContent s)
          (lastAnswerContent s) (readSnippets s) (lastToolCall s)
          (lastToolCallCount s) (lastSearchResults s) (autoReadInProgress s)
          (toolCallHistory s) (highlightedResultIndices s) (readCache s)
          (ui s) (clock s).
Definition set_totalTokens (v : Z) (s : State) : State :=
  mkState (chatHistory s) v (settings s) (isThinking s) (lastThinkingContent s)
          (lastAnswerContent s) (readSnippets s) (lastToolCall s)
          (lastToolCallCount s) (lastSearchResults s) (autoReadInProgress s)
          (toolCallHistory s) (highlightedResultIndices s) (readCache s)
          (ui s) (clock s).
Definition set_settings (v : Settings) (s : State) : State :=
  mkState (chatHistory s) (totalTokens s) v (isThinking s) (lastThinkingContent s)
          (lastAnswerContent s) (readSnippets s) (lastToolCall s)
          (lastToolCallCount s) (lastSearchResults s) (autoReadInProgress s)
          (toolCallHistory s) (highlightedResultIndices s) (readCache s)
          (ui s) (clock s).
Definition set_isThinking (v : bool) (s : State) : State :=
  mkState (chatHistory s) (totalTokens s) (settings s) v (lastThinkingContent s)
          (lastAnswerContent s) (readSnippets s) (lastToolCall s)
          (lastToolCallCount s) (lastSearchResults s) (autoReadInProgress s)
          (toolCallHistory s) (highlightedResultIndices s) (readCache s)
          (ui s) (clock s).
Definition set_lastThinkingContent (v : jsstring) (s : State) : State :=
  mkState (chatHistory s) (totalTokens s) (settings s) (isThinking s) v
          (lastAnswerContent s) (readSnippets s) (lastToolCall s)
          (lastToolCallCount s) (lastSearchResults s) (autoReadInProgress s)
          (toolCallHistory s) (highlightedResultIndices s) (readCache s)
          (ui s) (clock s).
Definition set_lastAnswerContent (v : jsstring) (s : State) : State :=
  mkState (chatHistory s) (totalTokens s) (settings s) (isThinking s)
          (lastThinkingContent s) v (readSnippets s) (lastToolCall s)
          (lastToolCallCount s) (lastSearchResults s) (autoReadInProgress s)
          (toolCallHistory s) (highlightedResultIndices s) (readCache s)
          (ui s) (clock s).
Definition set_readSnippets (v : list jsstring) (s : State) : State :=
  mkState (chatHistory s) (totalTokens s) (settings s) (isThinking s)
          (lastThinkingContent s) (lastAnswerContent s) v (lastToolCall s)
          (lastToolCallCount s) (lastSearchResults s) (autoReadInProgress s)
          (toolCallHistory s) (highlightedResultIndices s) (readCache s)
          (ui s) (clock s).
Definition set_lastToolCall (v : option jsstring) (s : State) : State :=
  mkState (chatHistory s) (totalTokens s) (settings s) (isThinking s)
          (lastThinkingContent s) (lastAnswerContent s) (readSnippets s) v
          (lastToolCallCount s) (lastSearchResults s) (autoReadInProgress s)
          (toolCallHistory s) (highlightedResultIndices s) (readCache s)
          (ui s) (clock s).
Definition set_lastToolCallCount (v : Z) (s : State) : State :=
  mkState (chatHistory s) (totalTokens s) (settings s) (isThinking s)
          (lastThinkingContent s) (lastAnswerContent s) (readSnippets s)
          (lastToolCall s) v (lastSearchResults s) (autoReadInProgress s)
          (toolCallHistory s) (highlightedResultIndices s) (readCache s)
          (ui s) (clock s).
Definition set_lastSearchResults (v : list SearchResult) (s : State) : State :=
  mkState (chatHistory s) (totalTokens s) (settings s) (isThinking s)
          (lastThinkingContent s) (lastAnswerContent s) (readSnippets s)
          (lastToolCall s) (lastToolCallCount s) v (autoReadInProgress s)
          (toolCallHistory s) (highlightedResultIndices s) (readCache s)
          (ui s) (clock s).
Definition set_autoReadInProgress (v : bool) (s : State) : State :=
  mkState (chatHistory s) (totalTokens s) (settings s) (isThinking s)
          (lastThinkingContent s) (lastAnswerContent s) (readSnippets s)
          (lastToolCall s) (lastToolCallCount s) (lastSearchResults s) v
          (toolCallHistory s) (highlightedResultIndices s) (readCache s)
          (ui s) (clock s).
Definition set_toolCallHistory (v : list ToolCallRecord) (s : State) : State :=
  mkState (chatHistory s) (totalTokens s) (settings s) (isThinking s)
          (lastThinkingContent s) (lastAnswerContent s) (readSnippets s)
          (lastToolCall s) (lastToolCallCount s) (lastSearchResults s)
          (autoReadInProgress s) v (highlightedResultIndices s) (readCache s)
          (ui s) (clock s).
Definition set_highlightedResultIndices (v : list Z) (s : State) : State :=
  mkState (chatHistory s) (totalTokens s) (settings s) (isThinking s)
          (lastThinkingContent s) (lastAnswerContent s) (readSnippets s)
          (lastToolCall s) (lastToolCallCount s) (lastSearchResults s)
          (autoReadInProgress s) (toolCallHistory s) v (readCache s)
          (ui s) (clock s).
Definition set_readCache (v : list (jsstring * jsstring)) (s : State) : State :=
  mkState (chatHistory s) (totalTokens s) (settings s) (isThinking s)
          (lastThinkingContent s) (lastAnswerContent s) (readSnippets s)
          (lastToolCall s) (lastToolCallCount s) (lastSearchResults s)
          (autoReadInProgress s) (toolCallHistory s) (highlightedResultIndices s)
          v (ui s) (clock s).
Definition set_ui (v : list UIEvent) (s : State) : State :=
  mkState (chatHistory s) (totalTokens s) (settings s) (isThinking s)
          (lastThinkingContent s) (lastAnswerContent s) (readSnippets s)
          (lastToolCall s) (lastToolCallCount s) (lastSearchResults s)
          (autoReadInProgress s) (toolCallHistory s) (highlightedResultIndices s)
          (readCache s) v (clock s).
Definition set_clock (v : nat) (s : State) : State :=
  mkState (chatHistory s) (totalTokens s) (settings s) (isThinking s)
          (lastThinkingContent s) (lastAnswerContent s) (readSnippets s)
          (lastToolCall s) (lastToolCallCount s) (lastSearchResults s)
          (autoReadInProgress s) (toolCallHistory s) (highlightedResultIndices s)
          (readCache s) (ui s) v.

(** ** The collaborators *)

(** Reply of [ApiService.sendOpenAIRequest]: [error.message],
    [usage.total_tokens] and [choices[0].message.content], each when present. *)
Record OpenAIResult : Type :=
  mkOpenAI { error : option jsstring;
             usage : option Z;
             reply : option jsstring }.

(** Reply of a Gemini session: [usageMetadata.totalTokenCount] when it is a
    number, and of [candidates[0].content] the texts of [parts] and [text]. *)
Record GeminiContent : Type :=
  mkGeminiContent { parts : option (list jsstring); text : option jsstring }.

Record GeminiResult : Type :=
  mkGemini { totalTokenCount : option Z; candidate : option GeminiContent }.

(** What the world answers.  The first argument is the number of requests
    made before this one, so that answers may change over time. *)
Record Env : Type :=
  mkEnv {
    (** [UIController.getUserInput()] *)
    getUserInput : nat -> jsstring;
    (** [SettingsController.getSettings().selectedModel] *)
    selectedModel : nat -> jsstring;
    (** [new Date().toISOString()] *)
    now : nat -> jsstring;
    (** [ToolsService.webSearch(query, onResult, engine)]: the results
        streamed to the callback, then the outcome. *)
    webSearch : nat -> jsstring -> JSON ->
                list SearchResult * Completion (list SearchResult);
    (** [String(await ToolsService.readUrl(url))] *)
    readUrl : nat -> jsstring -> Completion jsstring;
    (** [ToolsService.instantAnswer(query)] *)
    instantAnswer : nat -> jsstring -> Completion JSON;
    (** [ApiService.sendOpenAIRequest(model, messages, timeout)] *)
    sendOpenAIRequest : nat -> jsstring -> list Turn -> option Z ->
                        Completion OpenAIResult;
    (** [ApiService.streamOpenAIRequest(model, messages, onChunk)]: the
        [fullText] of every chunk, then the outcome. *)
    streamOpenAIRequest : nat -> jsstring -> list Turn ->
                          list jsstring * Completion jsstring;
    (** [ApiService.streamGeminiRequest(model, messages, onChunk)] *)
    streamGeminiRequest : nat -> jsstring -> list Turn ->
                          list jsstring * Completion jsstring;
    (** [ApiService.createGeminiSession(model).sendMessage(message, history)] *)
    sendGeminiMessage : nat -> jsstring -> jsstring -> list Turn ->
                        Completion GeminiResult;
    (** [ApiService.getTokenUsage(model, messages)]; [None] is a falsy count *)
    getTokenUsage : nat -> jsstring -> list Turn -> Completion (option Z)
  }.

(** ** Computations *)

(** How a call ends: with a value, with an exception, or not at all. *)
Inductive Result (A : Type) : Type :=
| Ok (a : A)
| Exn (message : jsstring)
| Diverge.
Arguments Ok {A} a.
Arguments Exn {A} message.
Arguments Diverge {A}.

Definition M (A : Type) : Type := State -> State * Result A.

Definition ret {A : Type} (a : A) : M A := fun st => (st, Ok a).

Definition bind {A B : Type} (m : M A) (k : A -> M B) : M B :=
  fun st =>
    match m st with
    | (st', Ok a) => k a st'
    | (st', Exn e) => (st', Exn e)
    | (st', Diverge) => (st', Diverge)
    end.

Declare Scope js_scope.
Delimit Scope js_scope with js.
Bind Scope js_scope with M.
Notation "x <- m ;; k" := (bind m (fun x => k))
  (at level 61, m at next level, right associativity) : js_scope.
Notation "m ;; k" := (bind m (fun _ => k))
  (at level 61, right associativity) : js_scope.
Local Open Scope js_scope.

Definition throw {A : Type} (message : jsstring) : M A :=
  fun st => (st, Exn message).

Definition diverge {A : Type} : M A := fun st => (st, Diverge).

Definition gets {A : Type} (f : State -> A) : M A := fun st => (st, Ok (f st)).

Definition modify (f : State -> State) : M unit := fun st => (f st, Ok tt).

Definition lift {A : Type} (c : Completion A) : M A :=
  match c with
  | Normal a => ret a
  | Throw e => throw e
  end.

(** [try { body } catch (err) { handler(err.message) }] *)
Definition try_catch {A : Type} (body : M A) (handler : jsstring -> M A) : M A :=
  fun st =>
    match body st with
    | (st', Exn e) => handler e st'
    | other => other
    end.

(** [try { body } finally { cleanup }] *)
Definition try_finally {A : Type} (body : M A) (cleanup : M unit) : M A :=
  fun st =>
    match body st with
    | (st', Diverge) => (st', Diverge)
    | (st', r) =>
        match cleanup st' with
        | (st'', Ok _) => (st'', r)
        | (st'', Exn e) => (st'', Exn e)
        | (st'', Diverge) => (st'', Diverge)
        end
    end.

(** [if (c) { body }] *)
Definition when (c : bool) (body : M unit) : M unit :=
  if c then body else ret tt.

(** [for (const x of xs) { body(x) }] *)
Fixpoint forEach {A : Type} (xs : list A) (body : A -> M unit) : M unit :=
  match xs with
  | [] => ret tt
  | x :: rest => body x ;; forEach rest body
  end.

(** A call on the user interface. *)
Definition UI (e : UIEvent) : M unit :=
  modify (fun st => set_ui (ui st ++ [e]) st).

(** [chatHistory.push(turn)] *)
Definition pushTurn (r : Role) (c : jsstring) : M unit :=
  modify (fun st => set_chatHistory (chatHistory st ++ [mkTurn r c]) st).

(** A request to a service: it is answered according to the number of
    requests made before it. *)
Definition await {A : Type} (answer : nat -> Completion A) : M A :=
  fun st =>
    let st' := set_clock (S (clock st)) st in
    match answer (clock st) with
    | Normal a => (st', Ok a)
    | Throw e => (st', Exn e)
    end.

(** A request that streams values to a callback before it completes. *)
Definition awaitStream {A B : Type} (answer : nat -> list A * Completion B)
  (callback : A -> M unit) : M B :=
  fun st =>
    let '(streamed, outcome) := answer (clock st) in
    (forEach streamed callback ;; lift outcome) (set_clock (S (clock st)) st).

(** Reading a value the collaborators hold now. *)
Definition ask {A : Type} (value : nat -> A) : M A :=
  gets (fun st => value (clock st)).

(** The message of the [TypeError] for reading a property of [null] or of
    [undefined], or for calling what is no function.  Engines word it each
    in their own way and name the value and the property; only that there is
    a message is used below. *)
Definition TypeError : jsstring :=
  str "Cannot read properties of undefined".

(** [v.k]; [null.k] throws. *)
Definition member (k : jsstring) (v : JSON) : Completion (option JSON) :=
  match v with
  | JNull => Throw TypeError
  | _ => Normal (getProp k v)
  end.

(** [res.choices[0].message.content] *)
Definition replyContent (res : OpenAIResult) : Completion jsstring :=
  match reply res with
  | Some c => Normal c
  | None => Throw TypeError
  end.

Definition nonEmpty {A : Type} (l : list A) : bool :=
  match l with [] => false | _ :: _ => true end.

(** [xs[xs.length - 1]]; [None] is [undefined]. *)
Definition lastOf {A : Type} (xs : list A) : option A :=
  last (map Some xs) None.

(** The elements of [xs] with their indices, as the callback of [xs.map]
    receives them. *)
Fixpoint indexedFrom {A : Type} (i : Z) (xs : list A) : list (Z * A) :=
  match xs with
  | [] => []
  | x :: rest => (i, x) :: indexedFrom (i + 1) rest
  end.

Definition indexed {A : Type} (xs : list A) : list (Z * A) := indexedFrom 0 xs.

Definition ai : jsstring := str "ai".

Definition LF : jsstring := [10%N].

(** ** Chain-of-thought responses *)

(** [enhanceWithCoT(message)] *)
Definition enhanceWithCoT (message : jsstring) : jsstring :=
  message ++ LF ++ LF
  ++ str "I'd like you to use Chain of Thought reasoning. Please think step-by-step before providing your final answer. Format your response like this:"
  ++ LF
  ++ str "Thinking: [detailed reasoning process, exploring different angles and considerations]"
  ++ LF
  ++ str "Answer: [your final, concise answer based on the reasoning above]".

(** [processCoTResponse(response)] *)
Definition processCoTResponse (response : jsstring) : M CoT :=
  let thinkingMatch := matchThinking response in
  let answerMatch := matchAnswer response in
  match thinkingMatch, answerMatch with
  | Some t, Some a =>
      let thinking := trim t in
      let answer := trim a in
      modify (set_lastThinkingContent thinking) ;;
      modify (set_lastAnswerContent answer) ;;
      ret (mkCoT thinking answer true None None)
  | _, _ =>
      if startsWith Thinking response && negb (includes Answer response) then
        let thinking := trim (dropThinkingPrefix response) in
        modify (set_lastThinkingContent thinking) ;;
        lastAnswer <- gets lastAnswerContent ;;
        ret (mkCoT thinking lastAnswer true (Some true) (Some (str "thinking")))
      else if includes Thinking response
              && match thinkingMatch with None => true | Some _ => false end then
        let thinking := replaceThroughThinking Thinking response in
        ret (mkCoT (trim (dropThinkingPrefix thinking)) [] false (Some true) None)
      else
        ret (mkCoT [] response false None None)
  end.

(** [processPartialCoTResponse(fullText)] *)
Definition processPartialCoTResponse (fullText : jsstring) : CoT :=
  if includes Thinking fullText && negb (includes Answer fullText) then
    let thinking := trim (replaceThroughThinking [] fullText) in
    mkCoT thinking [] true (Some true) (Some (str "thinking"))
  else
    let unstructured := mkCoT [] fullText false None None in
    if includes Thinking fullText && includes Answer fullText then
      match matchThinking fullText, matchAnswer fullText with
      | Some t, Some a => mkCoT (trim t) (trim a) true (Some false) None
      | _, _ => unstructured
      end
    else unstructured.

(** The thinking-face emoji and [ Thinking...]. *)
Definition thinkingPlaceholder : jsstring :=
  [55358%N; 56596%N] ++ str " Thinking...".

(** [formatResponseForDisplay(processed)] under the current settings. *)
Definition formatResponseForDisplay (s : Settings) (processed : CoT) : jsstring :=
  if negb (enableCoT s) || negb (hasStructuredResponse processed) then
    answer processed
  else if showThinking s then
    let isPartial := match partial processed with Some b => b | None => false end in
    let inThinking :=
      match stage processed with
      | Some g => JsString.eqb g (str "thinking")
      | None => false
      end in
    if isPartial && inThinking then str "Thinking: " ++ thinking processed
    else if isPartial then thinking processed
    else str "Thinking: " ++ thinking processed ++ LF ++ LF
         ++ str "Answer: " ++ answer processed
  else
    match answer processed with
    | [] => thinkingPlaceholder
    | a => a
    end.

(** ** Batches *)

(** The loop of [splitIntoBatches] over the snippets still to place. *)
Fixpoint splitLoop (maxLen : Z) (snippets : list jsstring)
  (batches : list (list jsstring)) (currentBatch : list jsstring)
  (currentLen : Z) : list (list jsstring) :=
  match snippets with
  | [] => if nonEmpty currentBatch then batches ++ [currentBatch] else batches
  | snippet :: rest =>
      if (currentLen + len snippet >? maxLen)%Z && nonEmpty currentBatch then
        splitLoop maxLen rest (batches ++ [currentBatch]) [snippet]
                  (0 + len snippet)
      else
        splitLoop maxLen rest batches (currentBatch ++ [snippet])
                  (currentLen + len snippet)
  end.

(** [splitIntoBatches(snippets, maxLen)] *)
Definition splitIntoBatches (snippets : list jsstring) (maxLen : Z)
  : list (list jsstring) :=
  splitLoop maxLen snippets [] [] 0.

Definition MAX_PROMPT_LENGTH : Z := 5857.
Definition SUMMARIZATION_TIMEOUT : Z := 88000.

Definition batchSeparator : jsstring := LF ++ str "---" ++ LF.

Definition summarizePrompt (body : jsstring) : list Turn :=
  [ mkTurn system (str "You are an assistant that synthesizes information from multiple sources.");
    mkTurn user (str "Summarize the following information extracted from web pages (be as concise as possible):" ++ LF ++ LF ++ body) ].

(** The [for] loop of [summarizeSnippets] over the batches from the [i]-th
    on; the result is [batchSummaries]. *)
Fixpoint summarizeBatches (env : Env) (model : jsstring) (round totalBatches i : Z)
  (batches : list (list jsstring)) (batchSummaries : list jsstring)
  : M (list jsstring) :=
  match batches with
  | [] => ret batchSummaries
  | batch :: rest =>
      UI (showSpinner (str "Round " ++ showZ round ++ str ": Summarizing batch "
                       ++ showZ (i + 1) ++ str " of " ++ showZ totalBatches
                       ++ str "...")) ;;
      res <- await (fun t => sendOpenAIRequest env t model
                               (summarizePrompt (join batchSeparator batch))
                               (Some SUMMARIZATION_TIMEOUT)) ;;
      c <- lift (replyContent res) ;;
      summarizeBatches env model round totalBatches (i + 1) rest
                       (batchSummaries ++ [trim c])
  end.

(** The [catch] blocks of [summarizeSnippets]; the text shown ends with
    [err && err.message ? err.message : err], which for an error without a
    message is the text of the error itself, [Error]. *)
Definition summarizationFailed (e : jsstring) : M unit :=
  UI (addMessage ai (str "Summarization failed. Error: "
                     ++ (if nonEmpty e then e else str "Error"))).

(** [summarizeSnippets(snippets, round)]; [None] is the default [null].  The
    recursion has no bound of its own: it is cut at depth [fuel]. *)
Fixpoint summarizeSnippets (fuel : nat) (env : Env)
  (snippets : option (list jsstring)) (round : Z) {struct fuel} : M unit :=
  match fuel with
  | O => diverge
  | S fuel' =>
      snippets <- match snippets with
                  | Some l => ret l
                  | None => gets readSnippets
                  end ;;
      match snippets with
      | [] => ret tt
      | [only] =>
          model <- ask (selectedModel env) ;;
          UI (showSpinner (str "Round " ++ showZ round
                           ++ str ": Summarizing information...")) ;;
          try_catch
            (res <- await (fun t => sendOpenAIRequest env t model
                                      (summarizePrompt only)
                                      (Some SUMMARIZATION_TIMEOUT)) ;;
             c <- lift (replyContent res) ;;
             let aiReply := trim c in
             when (nonEmpty aiReply)
                  (UI (addMessage ai (str "Summary:" ++ LF ++ aiReply))))
            summarizationFailed ;;
          UI hideSpinner ;;
          modify (set_readSnippets [])
      | _ =>
          model <- ask (selectedModel env) ;;
          let batches := splitIntoBatches snippets MAX_PROMPT_LENGTH in
          let totalBatches := Z.of_nat (length batches) in
          try_catch
            (batchSummaries <- summarizeBatches env model round totalBatches 0
                                                batches [] ;;
             let combined := join batchSeparator batchSummaries in
             if (len combined >? MAX_PROMPT_LENGTH)%Z then
               UI (showSpinner (str "Round " ++ showZ (round + 1)
                                ++ str ": Combining summaries...")) ;;
               summarizeSnippets fuel' env (Some batchSummaries) (round + 1)
             else
               UI (showSpinner (str "Round " ++ showZ round
                                ++ str ": Finalizing summary...")) ;;
               UI (addMessage ai (str "Summary:" ++ LF ++ combined)))
            summarizationFailed ;;
          UI hideSpinner ;;
          modify (set_readSnippets [])
      end
  end.

(** ** Tool handlers *)

(** [!args.query || typeof args.query !== 'string' || !args.query.trim()]
    fails: the query, when it is a string with more than white space. *)
Definition validQuery (query : option JSON) : option jsstring :=
  match query with
  | Some (JString q) =>
      if nonEmpty q && nonEmpty (trim q) then Some q else None
  | _ => None
  end.

(** [!args.url || typeof args.url !== 'string' || !/^https?:\/\//.test(args.url)]
    fails: the address, when it is a string that starts with a web scheme. *)
Definition validUrl (u : option JSON) : option jsstring :=
  match u with
  | Some (JString a) =>
      if nonEmpty a && (startsWith (str "http://") a || startsWith (str "https://") a)
      then Some a else None
  | _ => None
  end.

(** [(typeof args.start === 'number' && args.start >= 0) ? args.start : 0] *)
Definition startOf (args : JSON) : number :=
  match getProp (str "start") args with
  | Some (JNumber n) => if JsNumber.leb (JsNumber.ofZ 0) n then n else JsNumber.ofZ 0
  | _ => JsNumber.ofZ 0
  end.

(** [(typeof args.length === 'number' && args.length > 0) ? args.length : 1122] *)
Definition lengthOf (args : JSON) : number :=
  match getProp (str "length") args with
  | Some (JNumber n) => if JsNumber.ltb (JsNumber.ofZ 0) n then n else JsNumber.ofZ 1122
  | _ => JsNumber.ofZ 1122
  end.

(** [String(result).slice(start, start + length)] *)
Definition readSlice (result : jsstring) (start length : number) : jsstring :=
  slice (JsNumber.toInteger start) (JsNumber.toInteger (JsNumber.add start length))
        result.

(** [(start + length) < String(result).length] *)
Definition readHasMore (result : jsstring) (start length : number) : bool :=
  JsNumber.ltb (JsNumber.add start length) (JsNumber.ofZ (len result)).

Definition readTurn (url snippet : jsstring) (hasMore : bool) : jsstring :=
  str "Read content from " ++ url ++ str ":" ++ LF ++ snippet
  ++ (if hasMore then str "..." else []).

(** [toolHandlers.read_url(args)] *)
Definition read_url (env : Env) (args : JSON) : M unit :=
  u <- lift (member (str "url") args) ;;
  match validUrl u with
  | None => UI (addMessage ai (str "Error: Invalid read_url argument."))
  | Some url =>
      UI (showSpinner (str "Reading content from " ++ url ++ str "...")) ;;
      try_catch
        (result <- await (fun t => readUrl env t url) ;;
         let start := startOf args in
         let length := lengthOf args in
         let snippet := readSlice result start length in
         let hasMore := readHasMore result start length in
         UI (addReadResult url snippet hasMore) ;;
         pushTurn assistant (readTurn url snippet hasMore) ;;
         modify (fun st => set_readSnippets (readSnippets st ++ [snippet]) st) ;;
         collected <- gets readSnippets ;;
         when (2 <=? Datatypes.length collected)%nat (UI addSummarizeButton))
        (fun e =>
           UI hideSpinner ;;
           UI (addMessage ai (str "Read URL failed: " ++ e)) ;;
           pushTurn assistant (str "Read URL failed: " ++ e)) ;;
      UI hideSpinner
  end.

(** [toolHandlers.instant_answer(args)] *)
Definition instant_answer (env : Env) (args : JSON) : M unit :=
  q <- lift (member (str "query") args) ;;
  match validQuery q with
  | None => UI (addMessage ai (str "Error: Invalid instant_answer query."))
  | Some query =>
      UI (showStatus (txt "Retrieving instant answer for `" ++ query ++ txt "`...")) ;;
      try_catch
        (result <- await (fun t => instantAnswer env t query) ;;
         let text := stringifyPretty result in
         UI (addMessage ai text) ;;
         pushTurn assistant text)
        (fun e =>
           UI clearStatus ;;
           UI (addMessage ai (str "Instant answer failed: " ++ e)) ;;
           pushTurn assistant (str "Instant answer failed: " ++ e)) ;;
      UI clearStatus
  end.

(** ** Deep reading *)

(** [readCache.get(key)]; [None] when [readCache.has(key)] is false. *)
Fixpoint cacheGet (key : jsstring) (cache : list (jsstring * jsstring))
  : option jsstring :=
  match cache with
  | [] => None
  | (k, v) :: rest => if JsString.eqb key k then Some v else cacheGet key rest
  end.

(** [readCache.set(key, value)] *)
Fixpoint cacheSet (key value : jsstring) (cache : list (jsstring * jsstring))
  : list (jsstring * jsstring) :=
  match cache with
  | [] => [(key, value)]
  | (k, v) :: rest =>
      if JsString.eqb key k then (k, value) :: rest
      else (k, v) :: cacheSet key value rest
  end.

(** The variables of the loop of [deepReadUrl]. *)
Record DeepRead : Type :=
  mkDeepRead { allChunks : list jsstring;
               start : Z;
               shouldContinue : bool;
               chunkCount : Z;
               totalLength : Z }.

Definition readCall (url : jsstring) (start length : Z) : ToolCall :=
  mkCall (JString (str "read_url"))
         (JObject [ (str "url", JString url);
                    (str "start", JNumber (JsNumber.ofZ start));
                    (str "length", JNumber (JsNumber.ofZ length)) ])
         true.

Definition moreNeededPrompt (url snippet : jsstring) : list Turn :=
  [ mkTurn system (str "You are an assistant that decides if more content is needed from a web page.");
    mkTurn user (str "Given the following snippet from " ++ url
                 ++ txt ", do you need more content to answer the user's question? Please reply with `YES` or `NO` and a brief reason. If YES, estimate how many more characters you need."
                 ++ LF ++ LF ++ str "Snippet:" ++ LF ++ snippet) ].

Definition isGpt (model : jsstring) : bool := startsWith (str "gpt") model.

(** The [while] loop of [deepReadUrl].  An iteration that goes on adds one to
    [chunkCount], so [n] iterations are enough when [n] is at least
    [maxChunks - chunkCount]. *)
Fixpoint deepReadLoop (n : nat) (env : Env) (processToolCall : ToolCall -> M unit)
  (url : jsstring) (maxChunks chunkSize maxTotalLength : Z) (v : DeepRead)
  {struct n} : M DeepRead :=
  if shouldContinue v && (chunkCount v <? maxChunks)%Z
     && (totalLength v <? maxTotalLength)%Z then
    match n with
    | O => diverge
    | S n' =>
        let cacheKey := url ++ str ":" ++ showZ (start v) ++ str ":" ++ showZ chunkSize in
        cached <- gets (fun st => cacheGet cacheKey (readCache st)) ;;
        snippet <-
          match cached with
          | Some s => ret s
          | None =>
              processToolCall (readCall url (start v) chunkSize) ;;
              lastEntry <- gets (fun st => lastOf (chatHistory st)) ;;
              match lastEntry with
              | Some entry =>
                  if startsWith (str "Read content from") (content entry) then
                    let snippet := join LF (tl (split 10%N (content entry))) in
                    modify (fun st => set_readCache
                                        (cacheSet cacheKey snippet (readCache st)) st) ;;
                    ret snippet
                  else ret []
              | None => ret []
              end
          end ;;
        match snippet with
        | [] => ret v
        | _ :: _ =>
            let v1 := mkDeepRead (allChunks v ++ [snippet]) (start v)
                                 (shouldContinue v) (chunkCount v)
                                 (totalLength v + len snippet) in
            model <- ask (selectedModel env) ;;
            asked <-
              try_catch
                (aiReply <-
                   (if isGpt model then
                      res <- await (fun t => sendOpenAIRequest env t model
                                               (moreNeededPrompt url snippet) None) ;;
                      c <- lift (replyContent res) ;;
                      ret (toLowerCase (trim c))
                    else ret []) ;;
                 ret (Some aiReply))
                (fun _ => ret None) ;;
            match asked with
            | None =>
                ret (mkDeepRead (allChunks v1) (start v1) false (chunkCount v1)
                                (totalLength v1))
            | Some aiReply =>
                if startsWith (str "yes") aiReply
                   && (totalLength v1 <? maxTotalLength)%Z then
                  deepReadLoop n' env processToolCall url maxChunks chunkSize
                    maxTotalLength
                    (mkDeepRead (allChunks v1) (start v1 + chunkSize) true
                                (chunkCount v1 + 1) (totalLength v1))
                else
                  deepReadLoop n' env processToolCall url maxChunks chunkSize
                    maxTotalLength
                    (mkDeepRead (allChunks v1) (start v1) false (chunkCount v1)
                                (totalLength v1))
            end
        end
    end
  else ret v.

(** The loop of [deepReadUrl] from its first iteration. *)
Definition deepRead (env : Env) (processToolCall : ToolCall -> M unit)
  (url : jsstring) (maxChunks chunkSize maxTotalLength : Z) : M DeepRead :=
  deepReadLoop (Z.to_nat maxChunks) env processToolCall url maxChunks chunkSize
               maxTotalLength (mkDeepRead [] 0 true 0 0).

(** [deepReadUrl(url, maxChunks = 5, chunkSize = 2000, maxTotalLength = 10000)] *)
Definition deepReadUrl (env : Env) (processToolCall : ToolCall -> M unit)
  (url : jsstring) (maxChunks chunkSize maxTotalLength : Z) : M (list jsstring) :=
  v <- deepRead env processToolCall url maxChunks chunkSize maxTotalLength ;;
  ret (allChunks v).

(** ** Suggested results *)

(** The values of a [Set] built from [xs]: each once, in order of first
    appearance. *)
Fixpoint distinct (xs seen : list Z) : list Z :=
  match xs with
  | [] => []
  | x :: rest =>
      if existsb (Z.eqb x) seen then distinct rest seen
      else x :: distinct rest (x :: seen)
  end.

(** [match[1].split(',').map(s => parseInt(s.trim(), 10)).filter(n => !isNaN(n))] *)
Definition suggestedNumbers (matched : jsstring) : list Z :=
  flat_map (fun piece => match parseIntTrimmed piece with
                         | Some n => [n]
                         | None => []
                         end)
           (split 44%N matched).

(** [nums.map(n => lastSearchResults[n-1]?.url).filter(Boolean)] *)
Definition suggestedUrls (results : list SearchResult) (nums : list Z)
  : list jsstring :=
  flat_map (fun n =>
              if (1 <=? n)%Z then
                match nth_error results (Z.to_nat (n - 1)) with
                | Some r => if nonEmpty (url r) then [url r] else []
                | None => []
                end
              else [])
           nums.

(** The [for] loop of [autoReadAndSummarizeFromSuggestion]. *)
Fixpoint readSuggested (env : Env) (processToolCall : ToolCall -> M unit)
  (total : Z) (urlsToRead : list (Z * jsstring)) : M unit :=
  match urlsToRead with
  | [] => ret tt
  | (i, url) :: rest =>
      UI (showSpinner (str "Reading " ++ showZ (i + 1) ++ str " of "
                       ++ showZ total ++ str " URLs: " ++ url ++ str "...")) ;;
      _ <- deepReadUrl env processToolCall url 5 2000 10000 ;;
      readSuggested env processToolCall total rest
  end.

(** [autoReadAndSummarizeFromSuggestion(aiReply)] *)
Definition autoReadAndSummarizeFromSuggestion (fuel : nat) (env : Env)
  (processToolCall : ToolCall -> M unit) (aiReply : jsstring) : M unit :=
  inProgress <- gets autoReadInProgress ;;
  if inProgress then ret tt
  else
    results <- gets lastSearchResults ;;
    if negb (nonEmpty results) then ret tt
    else
      match matchNumberList aiReply with
      | None => ret tt
      | Some matched =>
          let nums := suggestedNumbers matched in
          if negb (nonEmpty nums) then ret tt
          else
            modify (set_highlightedResultIndices
                      (distinct (map (fun n => n - 1)%Z nums) [])) ;;
            let urlsToRead := suggestedUrls results nums in
            if negb (nonEmpty urlsToRead) then ret tt
            else
              modify (set_autoReadInProgress true) ;;
              try_finally
                (readSuggested env processToolCall
                               (Z.of_nat (length urlsToRead)) (indexed urlsToRead) ;;
                 summarizeSnippets fuel env None 1)
                (modify (set_autoReadInProgress false))
      end.

Definition suggestPrompt (results : list SearchResult) (query : jsstring)
  : list Turn :=
  [ mkTurn system (str "You are an assistant helping to select the most relevant search results.");
    mkTurn user (txt "Given these search results for the query: `" ++ query
                 ++ txt "`, which results (by number) are most relevant to read in detail?"
                 ++ LF ++ LF
                 ++ join LF (map (fun ir : Z * SearchResult =>
                                    let '(i, r) := ir in
                                    showZ (i + 1) ++ str ". " ++ title r
                                    ++ str " - " ++ snippet r)
                                 (indexed results))
                 ++ LF ++ LF
                 ++ str "Reply with a comma-separated list of result numbers.") ].

(** [suggestResultsToRead(results, query)] *)
Definition suggestResultsToRead (fuel : nat) (env : Env)
  (processToolCall : ToolCall -> M unit) (results : list SearchResult)
  (query : jsstring) : M unit :=
  if negb (nonEmpty results) then ret tt
  else
    model <- ask (selectedModel env) ;;
    try_catch
      (aiReply <-
         (if isGpt model then
            res <- await (fun t => sendOpenAIRequest env t model
                                     (suggestPrompt results query) None) ;;
            c <- lift (replyContent res) ;;
            ret (trim c)
          else ret []) ;;
       when (nonEmpty aiReply)
            (UI (addMessage ai (str "AI suggests reading results: " ++ aiReply)) ;;
             autoReadAndSummarizeFromSuggestion fuel env processToolCall aiReply))
      (fun _ => ret tt).

(** [args.engine || 'duckduckgo'] *)
Definition engineOf (args : JSON) : JSON :=
  match getProp (str "engine") args with
  | Some e => if truthy e then e else JString (str "duckduckgo")
  | None => JString (str "duckduckgo")
  end.

Definition searchTurn (query : jsstring) (results : list SearchResult) : jsstring :=
  txt "Search results for `" ++ query ++ txt "` ("
  ++ showZ (Z.of_nat (length results)) ++ str "):" ++ LF
  ++ join LF (map (fun ir : Z * SearchResult =>
                     let '(i, r) := ir in
                     showZ (i + 1) ++ str ". " ++ title r ++ str " (" ++ url r
                     ++ str ") - " ++ snippet r)
                  (indexed results)).

(** [toolHandlers.web_search(args)] *)
Definition web_search (fuel : nat) (env : Env)
  (processToolCall : ToolCall -> M unit) (args : JSON) : M unit :=
  q <- lift (member (str "query") args) ;;
  match validQuery q with
  | None => UI (addMessage ai (str "Error: Invalid web_search query."))
  | Some query =>
      let engine := engineOf args in
      UI (showSpinner (str "Searching (" ++ toDisplayString engine
                       ++ txt ") for `" ++ query ++ txt "`...")) ;;
      try_catch
        (results <-
           awaitStream
             (fun t => let '(streamed, outcome) := webSearch env t query engine in
                       (indexed streamed, outcome))
             (fun ir : Z * SearchResult =>
                let '(idx, result) := ir in
                highlighted <- gets highlightedResultIndices ;;
                UI (addSearchResult result (existsb (Z.eqb idx) highlighted))) ;;
         when (negb (nonEmpty results))
              (UI (addMessage ai (txt "No search results found for `" ++ query
                                  ++ txt "`."))) ;;
         pushTurn assistant (searchTurn query results) ;;
         modify (set_lastSearchResults results) ;;
         suggestResultsToRead fuel env processToolCall results query)
        (fun e =>
           UI hideSpinner ;;
           UI (addMessage ai (str "Web search failed: " ++ e)) ;;
           pushTurn assistant (str "Web search failed: " ++ e)) ;;
      UI hideSpinner
  end.

(** What [toolHandlers[tool]] is: one of the three handlers, a method every
    object inherits that returns without effect when called with [args], or
    nothing that can be called.  (Of the inherited methods [hasOwnProperty],
    [propertyIsEnumerable] and the two lookups turn [args] into a property
    key first, which succeeds for every arguments object but one that
    overrides both [toString] and [valueOf] with what is no function.) *)
Inductive Handler : Type :=
| handler_web_search
| handler_read_url
| handler_instant_answer
| inheritedMethod
| notCallable.

Definition inheritedMethods : list jsstring :=
  [ str "constructor"; str "hasOwnProperty"; str "isPrototypeOf";
    str "propertyIsEnumerable"; str "toLocaleString"; str "toString";
    str "valueOf"; str "__lookupGetter__"; str "__lookupSetter__" ].

Definition lookupHandler (tool : JSON) : Handler :=
  let key := toDisplayString tool in
  if JsString.eqb key (str "web_search") then handler_web_search
  else if JsString.eqb key (str "read_url") then handler_read_url
  else if JsString.eqb key (str "instant_answer") then handler_instant_answer
  else if existsb (JsString.eqb key) inheritedMethods then inheritedMethod
  else notCallable.

(** [await toolHandlers[tool](args)] *)
Definition runHandler (fuel : nat) (env : Env)
  (processToolCall : ToolCall -> M unit) (tool args : JSON) : M unit :=
  match lookupHandler tool with
  | handler_web_search => web_search fuel env processToolCall args
  | handler_read_url => read_url env args
  | handler_instant_answer => instant_answer env args
  | inheritedMethod => ret tt
  | notCallable => throw (str "toolHandlers[tool] is not a function")
  end.
Definition systemPrompt : jsstring :=
  join [10%N]
    [ txt "You are an AI assistant with access to three tools for external information and you may call them multiple times to retrieve additional data:";
      txt "1. web_search(query) " ++ [8594%N] ++ txt " returns a JSON array of search results [{title, url, snippet}, " ++ [8230%N] ++ txt "]";
      txt "2. read_url(url[, start, length]) " ++ [8594%N] ++ txt " returns the text content of a web page from position 'start' (default 0) up to 'length' characters (default 1122)";
      txt "3. instant_answer(query) " ++ [8594%N] ++ txt " returns a JSON object from DuckDuckGo's Instant Answer API for quick facts, definitions, and summaries (no proxies needed)";
      [];
      txt "For any question requiring up-to-date facts, statistics, or detailed content, choose the appropriate tool above. Use read_url to fetch initial snippets (default 1122 chars), then evaluate each snippet for relevance.";
      txt "If a snippet ends with an ellipsis (`...`), always determine whether fetching more text will improve your answer. If it will, output a new read_url tool call JSON with the same url, start at your previous offset, and length set to 5000 to retrieve the next segment. Repeat this process" ++ [8212%N] ++ txt "issuing successive read_url calls" ++ [8212%N] ++ txt "until the snippet no longer ends with `...` or you judge that additional content is not valuable. Only then continue reasoning toward your final answer.";
      [];
      txt "When calling a tool, output EXACTLY a JSON object and nothing else, in this format:";
      txt "{`tool`:`web_search`,`arguments`:{`query`:`your query`}}";
      txt "{`tool`:`read_url`,`arguments`:{`url`:`https://example.com`,`start`:0,`length`:1122}}";
      txt "or";
      txt "{`tool`:`instant_answer`,`arguments`:{`query`:`your query`}}";
      [];
      txt "Wait for the tool result to be provided before continuing your explanation or final answer.";
      txt "After receiving the tool result, continue thinking step-by-step and then provide your answer." ].

(** ** Model replies *)

(** The object [extractToolCall] returned, read as [processToolCall] reads
    its argument: [const { tool, arguments: args, skipContinue } = call]. *)
Definition asToolCall (toolCall : JSON) : ToolCall :=
  mkCall (match getProp (str "tool") toolCall with Some t => t | None => JNull end)
         (match getProp (str "arguments") toolCall with Some a => a | None => JNull end)
         (truthyOpt (getProp (str "skipContinue") toolCall)).

Definition addTokens (n : Z) : M unit :=
  modify (fun st => set_totalTokens (totalTokens st + n) st).

(** The [onChunk] callback of a streaming request. *)
Definition onChunk (aiMsgElement : nat) (fullText : jsstring) : M unit :=
  s <- gets settings ;;
  if enableCoT s then
    let processed := processPartialCoTResponse fullText in
    waiting <- gets isThinking ;;
    when (waiting && includes Answer fullText) (modify (set_isThinking false)) ;;
    s' <- gets settings ;;
    UI (updateMessageContent aiMsgElement (formatResponseForDisplay s' processed))
  else
    UI (updateMessageContent aiMsgElement fullText).

(** [UIController.createEmptyAIMessage()]; the handle is the number of calls
    made on the user interface before it. *)
Definition newAIMessage : M nat :=
  handle <- gets (fun st => length (ui st)) ;;
  UI createEmptyAIMessage ;;
  ret handle.

(** What both message handlers do with a streamed reply. *)
Definition streamedReply (processToolCall : ToolCall -> M unit) (env : Env)
  (stream : nat -> jsstring -> list Turn -> list jsstring * Completion jsstring)
  (model : jsstring) : M unit :=
  aiMsgElement <- newAIMessage ;;
  try_finally
    (try_catch
       (s <- gets settings ;;
        when (enableCoT s)
             (modify (set_isThinking true) ;;
              UI (updateMessageContent aiMsgElement thinkingPlaceholder)) ;;
        history <- gets chatHistory ;;
        fullReply <- awaitStream (fun t => stream t model history)
                                 (onChunk aiMsgElement) ;;
        toolCall <- lift (extractToolCall fullReply) ;;
        if looksLikeToolCall toolCall then processToolCall (asToolCall toolCall)
        else
          s <- gets settings ;;
          (if enableCoT s then
             processed <- processCoTResponse fullReply ;;
             s' <- gets settings ;;
             UI (updateMessageContent aiMsgElement
                                      (formatResponseForDisplay s' processed)) ;;
             pushTurn assistant fullReply
           else
             pushTurn assistant fullReply) ;;
          history' <- gets chatHistory ;;
          tokenCount <- await (fun t => getTokenUsage env t model history') ;;
          match tokenCount with
          | Some n => addTokens n
          | None => ret tt
          end)
       (fun e =>
          UI (updateMessageContent aiMsgElement (str "Error: " ++ e)) ;;
          throw e))
    (modify (set_isThinking false)).

(** What both message handlers do with a complete reply. *)
Definition completeReply (processToolCall : ToolCall -> M unit)
  (reply : jsstring) : M unit :=
  toolCall <- lift (extractToolCall reply) ;;
  if looksLikeToolCall toolCall then processToolCall (asToolCall toolCall)
  else
    s <- gets settings ;;
    if enableCoT s then
      processed <- processCoTResponse reply ;;
      pushTurn assistant reply ;;
      s' <- gets settings ;;
      UI (addMessage ai (formatResponseForDisplay s' processed))
    else
      pushTurn assistant reply ;;
      UI (addMessage ai reply).

(** [handleOpenAIMessage(model, message)] *)
Definition handleOpenAIMessage (processToolCall : ToolCall -> M unit) (env : Env)
  (model message : jsstring) : M unit :=
  s <- gets settings ;;
  if streaming s then
    UI (showStatus (str "Streaming response...")) ;;
    streamedReply processToolCall env (streamOpenAIRequest env) model
  else
    UI (showStatus (str "Waiting for AI response...")) ;;
    history <- gets chatHistory ;;
    result <- await (fun t => sendOpenAIRequest env t model history None) ;;
    match error result with
    | Some m => throw m
    | None =>
        match usage result with
        | Some n => when (negb (n =? 0)%Z) (addTokens n)
        | None => ret tt
        end ;;
        reply <- lift (replyContent result) ;;
        completeReply processToolCall reply
    end.

(** [textResponse] of a Gemini reply. *)
Definition geminiText (result : GeminiResult) : Completion jsstring :=
  match candidate result with
  | None => Throw TypeError
  | Some c =>
      match parts c with
      | Some ps => Normal (join (str " ") ps)
      | None =>
          match text c with
          | Some t => Normal t
          | None => Normal []
          end
      end
  end.

(** [handleGeminiMessage(model, message)] *)
Definition handleGeminiMessage (processToolCall : ToolCall -> M unit) (env : Env)
  (model message : jsstring) : M unit :=
  pushTurn user message ;;
  s <- gets settings ;;
  if streaming s then
    streamedReply processToolCall env (streamGeminiRequest env) model
  else
    history <- gets chatHistory ;;
    result <- await (fun t => sendGeminiMessage env t model message history) ;;
    match totalTokenCount result with
    | Some n => addTokens n
    | None => ret tt
    end ;;
    textResponse <- lift (geminiText result) ;;
    completeReply processToolCall textResponse.

(** ** Tool calls *)

(** [JSON.stringify({ tool, args })] *)
Definition callSignature (call : ToolCall) : jsstring :=
  stringify (JObject [ (str "tool", tool call); (str "args", arguments call) ]).

(** The loop protection at the head of [processToolCall]. *)
Definition loopGuard (signature : jsstring) (st : State) : State :=
  match lastToolCall st with
  | Some previous =>
      if JsString.eqb previous signature then
        set_lastToolCallCount (lastToolCallCount st + 1) st
      else
        set_lastToolCallCount 1 (set_lastToolCall (Some signature) st)
  | None =>
      set_lastToolCallCount 1 (set_lastToolCall (Some signature) st)
  end.

Definition loopDetected : jsstring :=
  str "Error: Tool call loop detected. The same tool call has been made more than "
  ++ showZ MAX_TOOL_CALL_REPEAT
  ++ str " times in a row. Stopping to prevent infinite loop.".

Definition bindC {A B : Type} (c : Completion A) (k : A -> Completion B)
  : Completion B :=
  match c with
  | Normal a => k a
  | Throw e => Throw e
  end.

(** Whether the last entry of the log is itself a tool call. *)
Definition lastIsToolCall (history : list Turn) : bool :=
  match lastOf history with
  | Some lastEntry =>
      match tryCatch
              (bindC (parse (content lastEntry)) (fun parsed =>
               bindC (member (str "tool") parsed) (fun t =>
               Normal (truthyOpt t
                       && truthyOpt (getProp (str "arguments") parsed)))))
              (fun _ => Normal false)
      with
      | Normal b => b
      | Throw _ => false
      end
  | None => false
  end.

Definition chainedCallWarning : jsstring :=
  str "Warning: AI outputted another tool call without reasoning. Stopping to prevent infinite loop.".

(** The end of [processToolCall], under [if (!skipContinue)]. *)
Definition continueReasoning (env : Env) (processToolCall : ToolCall -> M unit)
  : M unit :=
  history <- gets chatHistory ;;
  if negb (lastIsToolCall history) then
    selected <- ask (selectedModel env) ;;
    if isGpt selected then handleOpenAIMessage processToolCall env selected []
    else handleGeminiMessage processToolCall env selected []
  else
    UI (addMessage ai chainedCallWarning).

(** [processToolCall] after the loop protection let the call through. *)
Definition executeToolCall (fuel : nat) (env : Env) (nested : ToolCall -> M unit)
  (call : ToolCall) : M unit :=
  stamp <- ask (now env) ;;
  modify (fun st => set_toolCallHistory
                      (toolCallHistory st
                       ++ [mkRecord (tool call) (arguments call) stamp]) st) ;;
  runHandler fuel env nested (tool call) (arguments call) ;;
  when (negb (skipContinue call)) (continueReasoning env nested).

(** The body of [processToolCall]; [nested] stands for the function itself
    where its handlers and its continuation call it. *)
Definition processToolCallBody (fuel : nat) (env : Env)
  (nested : ToolCall -> M unit) (call : ToolCall) : M unit :=
  modify (loopGuard (callSignature call)) ;;
  repeats <- gets lastToolCallCount ;;
  if (repeats >? MAX_TOOL_CALL_REPEAT)%Z then UI (addMessage ai loopDetected)
  else executeToolCall fuel env nested call.

(** [processToolCall(call)].  The model may ask for tool after tool, so the
    nesting of calls is cut at depth [fuel]. *)
Fixpoint processToolCall (fuel : nat) (env : Env) (call : ToolCall)
  {struct fuel} : M unit :=
  processToolCallBody fuel env
    (match fuel with
     | O => fun _ => diverge
     | S fuel' => processToolCall fuel' env
     end)
    call.

(** ** Public operations *)

(** [{ ...settings, ...patch }] *)
Definition mergeSettings (s : Settings) (p : SettingsPatch) : Settings :=
  mkSettings (match newStreaming p with Some b => b | None => streaming s end)
             (match newEnableCoT p with Some b => b | None => enableCoT s end)
             (match newShowThinking p with Some b => b | None => showThinking s end).

(** [init(initialSettings)] *)
Definition init (initialSettings : option SettingsPatch) : M unit :=
  modify (set_chatHistory [mkTurn system systemPrompt]) ;;
  match initialSettings with
  | Some p => modify (fun st => set_settings (mergeSettings (settings st) p) st)
  | None => ret tt
  end ;;
  UI setupEventHandlers.

(** [updateSettings(newSettings)] *)
Definition updateSettings (newSettings : SettingsPatch) : M unit :=
  modify (fun st => set_settings (mergeSettings (settings st) newSettings) st).

(** [clearChat()] *)
Definition clearChat : M unit :=
  modify (set_chatHistory []) ;;
  modify (set_totalTokens 0) ;;
  UI (updateTokenDisplay 0).

(** [getSettings()] *)
Definition getSettings : M Settings := gets settings.

(** [getChatHistory()] *)
Definition getChatHistory : M (list Turn) := gets chatHistory.

(** [getTotalTokens()] *)
Definition getTotalTokens : M Z := gets totalTokens.

(** [getToolCallHistory()] *)
Definition getToolCallHistory : M (list ToolCallRecord) := gets toolCallHistory.

(** [sendMessage()] *)
Definition sendMessage (fuel : nat) (env : Env) : M unit :=
  message <- ask (getUserInput env) ;;
  if negb (nonEmpty message) then ret tt
  else
    UI (showStatus (str "Sending message...")) ;;
    UI (setInputsDisabled true) ;;
    modify (set_lastThinkingContent []) ;;
    modify (set_lastAnswerContent []) ;;
    UI (addMessage (str "user") message) ;;
    UI clearUserInput ;;
    s <- gets settings ;;
    let enhancedMessage := if enableCoT s then enhanceWithCoT message else message in
    selected <- ask (selectedModel env) ;;
    try_finally
      (try_catch
         (if isGpt selected then
            pushTurn user enhancedMessage ;;
            handleOpenAIMessage (processToolCall fuel env) env selected
                                enhancedMessage
          else
            history <- gets chatHistory ;;
            when (negb (nonEmpty history)) (pushTurn user []) ;;
            handleGeminiMessage (processToolCall fuel env) env selected
                                enhancedMessage)
         (fun e => UI (addMessage ai (str "Error: " ++ e))))
      (tokens <- gets totalTokens ;;
       UI (updateTokenDisplay tokens) ;;
       UI clearStatus ;;
       UI (setInputsDisabled false)).

(** What the page can ask of the controller: its public functions, and the
    summarize button. *)
Inductive Operation : Type :=
| op_init (initialSettings : option SettingsPatch)
| op_updateSettings (newSettings : SettingsPatch)
| op_getSettings
| op_sendMessage
| op_getChatHistory
| op_getTotalTokens
| op_clearChat
| op_processToolCall (call : ToolCall)
| op_getToolCallHistory
| op_summarizeButton.

(** The state after an operation, and whether it returned. *)
Definition perform (fuel : nat) (env : Env) (op : Operation) : M unit :=
  match op with
  | op_init initialSettings => init initialSettings
  | op_updateSettings newSettings => updateSettings newSettings
  | op_getSettings => _ <- getSettings ;; ret tt
  | op_sendMessage => sendMessage fuel env
  | op_getChatHistory => _ <- getChatHistory ;; ret tt
  | op_getTotalTokens => _ <- getTotalTokens ;; ret tt
  | op_clearChat => clearChat
  | op_processToolCall call => processToolCall fuel env call
  | op_getToolCallHistory => _ <- getToolCallHistory ;; ret tt
  | op_summarizeButton => summarizeSnippets fuel env None 1
  end.

End ChatController.
Import ChatController.
Local Open Scope js_scope.
Unset Implicit Arguments.

(* ================================================================== *)
(** * Properties *)
(* ================================================================== *)

(** ** Vocabulary of the statements *)

(** Combined length of the snippets of a batch. *)
Definition batchLength (batch : list jsstring) : Z :=
  fold_right (fun s acc => (len s + acc)%Z) 0%Z batch.

(** A batch as [splitIntoBatches] may produce it under the budget [maxLen]:
    not empty, and within the budget unless it is one oversized snippet. *)
Definition batchOk (maxLen : Z) (batch : list jsstring) : Prop :=
  batch <> []
  /\ ((batchLength batch <= maxLen)%Z
      \/ exists s, batch = [s] /\ (maxLen < len s)%Z).

(** What enough fuel means for each of the three parsing functions. *)
Definition progresses {A : Type} (p : parsed A) (s : jsstring) : Prop :=
  p <> OutOfFuel /\ forall a r, p = Parsed a r -> length r < length s.

(** The text [s] has no code unit [c]. *)
Definition freeOf (c : codeunit) (s : jsstring) : bool :=
  forallb (fun x => negb (x =? c)%N) s.

(** The shapes a classified chain-of-thought response may take. *)
Inductive Classification : Type :=
| complete | partialThinking | malformed | unstructured.

Definition classified (r : CoT) (response : jsstring) (c : Classification)
  : Prop :=
  match c with
  | complete =>
      hasStructuredResponse r = true /\ stage r = None
      /\ (partial r = None \/ partial r = Some false)
  | partialThinking =>
      hasStructuredResponse r = true /\ partial r = Some true
      /\ stage r = Some (str "thinking")
  | malformed =>
      hasStructuredResponse r = false /\ partial r = Some true
      /\ answer r = []
  | unstructured =>
      hasStructuredResponse r = false /\ partial r = None
      /\ thinking r = [] /\ answer r = response
  end.

(** A reply that embeds a tool call between prose with braces of its own. *)
Definition embeddedCall : jsstring :=
  txt "{`tool`:`web_search`,`arguments`:{`query`:`rocq`}}".

Definition replyWithBraces : jsstring :=
  str "I will search: " ++ embeddedCall ++ str " and then read {the results}.".

(** A reply that embeds the same call in a fenced block. *)
Definition fenceOpen : jsstring := str "Here is the call:" ++ LF ++ str "```json" ++ LF.
Definition fenceClose : jsstring := LF ++ str "```" ++ LF ++ str "Done.".

(** The number [n] is the integer [z], held with a non-negative exponent. *)
Definition isInteger (n : number) (z : Z) : Prop :=
  (0 <= JsNumber.expo n)%Z /\ (JsNumber.mant n * 10 ^ JsNumber.expo n)%Z = z.

(** Arguments of a [read_url] call with integral [start] and [length]. *)
Definition readArgs (url : jsstring) (start length : Z) : JSON :=
  JObject [ (str "url", JString url);
            (str "start", JNumber (JsNumber.ofZ start));
            (str "length", JNumber (JsNumber.ofZ length)) ].

(** A world whose pages are all [page] and whose model always answers [yes];
    every other service fails. *)
Definition worldOf (page yes : jsstring) : Env :=
  mkEnv (fun _ => str "hello")
        (fun _ => str "gpt-4o")
        (fun _ => str "2025-01-01T00:00:00.000Z")
        (fun _ _ _ => ([], Throw (str "offline")))
        (fun _ _ => Normal page)
        (fun _ _ => Throw (str "offline"))
        (fun _ _ _ _ => Normal (mkOpenAI None None (Some yes)))
        (fun _ _ _ => ([], Throw (str "offline")))
        (fun _ _ _ => ([], Throw (str "offline")))
        (fun _ _ _ _ => Throw (str "offline"))
        (fun _ _ _ => Normal None).

(** A page of [n] code units. *)
Definition pageOf (n : Z) : jsstring := repeat 97%N (Z.to_nat n).

Definition exampleUrl : jsstring := str "https://example.com/page".

(** The state after [init()]. *)
Definition started : State := fst (init None loaded).

(** What [processToolCall] stands for inside its own body at depth [fuel]. *)
Definition nestedCall (fuel : nat) (env : Env) : ToolCall -> M unit :=
  match fuel with
  | O => fun _ => diverge
  | S fuel' => processToolCall fuel' env
  end.

(** The two states agree on the loop-guard variables. *)
Definition sameGuard (a b : State) : Prop :=
  lastToolCall a = lastToolCall b /\ lastToolCallCount a = lastToolCallCount b.

(** The call passes the loop guard: it is logged and its handler is run on
    the state the guard leaves. *)
Definition executes (fuel : nat) (env : Env) (call : ToolCall) (st : State)
  : Prop :=
  processToolCall fuel env call st
  = executeToolCall fuel env (nestedCall fuel env) call
                    (loopGuard (callSignature call) st).

(** The call is stopped by the loop guard: the guard variables are updated,
    the loop error is shown, and nothing else happens. *)
Definition aborts (fuel : nat) (env : Env) (call : ToolCall) (st : State)
  : Prop :=
  let guarded := loopGuard (callSignature call) st in
  processToolCall fuel env call st
  = (set_ui (ui guarded ++ [addMessage ai loopDetected]) guarded, Ok tt).

(** The message of the handler of [call] when its arguments fail validation. *)
Definition validationError (call : ToolCall) : option jsstring :=
  match arguments call with
  | JNull => None
  | args =>
      match lookupHandler (tool call) with
      | handler_web_search =>
          match validQuery (getProp (str "query") args) with
          | None => Some (str "Error: Invalid web_search query.")
          | Some _ => None
          end
      | handler_read_url =>
          match validUrl (getProp (str "url") args) with
          | None => Some (str "Error: Invalid read_url argument.")
          | Some _ => None
          end
      | handler_instant_answer =>
          match validQuery (getProp (str "query") args) with
          | None => Some (str "Error: Invalid instant_answer query.")
          | Some _ => None
          end
      | _ => None
      end
  end.

(** A [read_url] call as the model would write it. *)
Definition exampleRead : ToolCall :=
  mkCall (JString (str "read_url")) (readArgs exampleUrl 0 1122) false.

(** A [read_url] call whose address is not a web address. *)
Definition invalidRead : ToolCall :=
  mkCall (JString (str "read_url"))
         (JObject [ (str "url", JString (str "ftp://example.com/file")) ])
         true.

(** A world with a page of 1500 units and a model that answers in prose. *)
Definition exampleWorld : Env := worldOf (pageOf 1500) (str "The page says a.").

(** What a deep read obtains for the chunk of [size] units at [start]: the
    slice of the page, with the ellipsis of the conversation turn when the
    page goes on. *)
Definition chunkOf (page : jsstring) (start size : Z) : jsstring :=
  firstn (Z.to_nat size) (skipn (Z.to_nat start) page)
  ++ (if (start + size <? len page)%Z then str "..." else []).

(** The cache key of [deepReadUrl]. *)
Definition cacheKeyOf (url : jsstring) (start size : Z) : jsstring :=
  url ++ str ":" ++ showZ start ++ str ":" ++ showZ size.

(** Why the loop of [deepReadUrl] is over, read off its variables: the chunk
    count has reached its cap, or the length has reached its budget. *)
Definition chunkCapReached (maxChunks : Z) (v : DeepRead) : bool :=
  negb (chunkCount v <? maxChunks)%Z.

Definition lengthCapReached (maxTotalLength : Z) (v : DeepRead) : bool :=
  negb (totalLength v <? maxTotalLength)%Z.

(** A model that says yes. *)
Definition saysYes (env : Env) : Prop :=
  forall t model messages timeout,
    exists r c,
      sendOpenAIRequest env t model messages timeout = Normal r
      /\ reply r = Some c
      /\ startsWith (str "yes") (toLowerCase (trim c)) = true.

(** The signature of a [read_url] call: a fixed head, the quoted address,
    and a tail that holds the offsets. *)
Definition signatureTail (start size : Z) : jsstring :=
  txt "`,`start`:" ++ JsNumber.toString (JsNumber.ofZ start)
  ++ txt ",`length`:" ++ JsNumber.toString (JsNumber.ofZ size) ++ str "}}".

(** The log has exactly one system turn, and it comes first. *)
Definition systemFirstOnly (history : list Turn) : Prop :=
  exists rest,
    history = mkTurn system systemPrompt :: rest
    /\ Forall (fun t => role t <> system) rest.

(** The log [after] is the log [before] with turns appended, none of them a
    system turn. *)
Definition extends (before after : list Turn) : Prop :=
  exists added,
    after = before ++ added /\ Forall (fun t => role t <> system) added.

(** A computation that only appends such turns to the log, however it ends. *)
Definition appends {A : Type} (m : M A) : Prop :=
  forall st, extends (chatHistory st) (chatHistory (fst (m st))).

(** The states the controller can be in: the state when the script is loaded,
    and the state any operation leaves, in any world. *)
Inductive reachable : State -> Prop :=
| reachable_loaded : reachable loaded
| reachable_step (fuel : nat) (env : Env) (op : Operation) (st : State) :
    reachable st -> reachable (fst (perform fuel env op st)).

(** The states of a session: from an [init] on, as long as the chat is not
    cleared. *)
Inductive session : State -> Prop :=
| session_init (fuel : nat) (env : Env) (initialSettings : option SettingsPatch)
    (st : State) :
    reachable st ->
    session (fst (perform fuel env (op_init initialSettings) st))
| session_step (fuel : nat) (env : Env) (op : Operation) (st : State) :
    session st -> op <> op_clearChat ->
    session (fst (perform fuel env op st)).

Definition resets (op : Operation) : bool :=
  match op with
  | op_init _ | op_clearChat => true
  | _ => false
  end.

(** The loop of [deepReadUrl(url, 5, 2000)] with [n] iterations to go. *)
Definition readLoop (fuel : nat) (env : Env) (url : jsstring) (n : nat)
  : DeepRead -> M DeepRead :=
  deepReadLoop n env (processToolCall fuel env) url 5 2000 10000.

(** The loop guard after the calls with the signatures [signatures], in
    order. *)
Definition guardAfter (signatures : list jsstring) (st : State) : State :=
  fold_left (fun s signature => loopGuard signature s) signatures st.

(** How many copies of [signature] the list starts with. *)
Fixpoint leadingCopies (signature : jsstring) (l : list jsstring) : nat :=
  match l with
  | x :: rest =>
      if JsString.eqb x signature then S (leadingCopies signature rest) else 0
  | [] => 0
  end.

(** How many calls with [signature] were the last ones of [signatures]. *)
Definition repeatsAtEnd (signature : jsstring) (signatures : list jsstring)
  : nat :=
  leadingCopies signature (rev signatures).

(** ** Vocabulary of the further properties *)

(** Consecutive batches cannot be merged: a batch and the first snippet of
    the batch after it are together over the budget. *)
Fixpoint packed (maxLen : Z) (batches : list (list jsstring)) : Prop :=
  match batches with
  | [] => True
  | b1 :: rest =>
      match rest with
      | [] => True
      | b2 :: _ =>
          match b2 with
          | s :: _ => (maxLen < batchLength b1 + len s)%Z
          | [] => True
          end
          /\ packed maxLen rest
      end
  end.

(** What the page shows for a classified response when thinking is hidden. *)
Definition hiddenThinkingDisplay (answer : jsstring) : jsstring :=
  match answer with
  | [] => thinkingPlaceholder
  | a => a
  end.

(** A computation that leaves every state related by [R] to the state it
    started from, however it ends. *)
Definition keeps (R : State -> State -> Prop) {A : Type} (m : M A) : Prop :=
  forall st, R st (fst (m st)).

(** What no operation undoes: the audit log keeps its records, in order; a
    chunk in the read cache stays there with the text it was stored with; and
    requests to the services are never taken back. *)
Definition accumulates (st st' : State) : Prop :=
  (exists added, toolCallHistory st' = toolCallHistory st ++ added)
  /\ (forall key value,
         cacheGet key (readCache st) = Some value ->
         cacheGet key (readCache st') = Some value)
  /\ clock st <= clock st'.

(** The read cache is as it was. *)
Definition sameCache (st st' : State) : Prop := readCache st' = readCache st.

(** What [summarizeSnippets] leaves alone: every variable of the controller
    but the snippet buffer; the calls on the page and the requests made are
    not part of the comparison. *)
Definition summarizerFrame (st st' : State) : Prop :=
  chatHistory st' = chatHistory st
  /\ totalTokens st' = totalTokens st
  /\ settings st' = settings st
  /\ isThinking st' = isThinking st
  /\ lastThinkingContent st' = lastThinkingContent st
  /\ lastAnswerContent st' = lastAnswerContent st
  /\ lastToolCall st' = lastToolCall st
  /\ lastToolCallCount st' = lastToolCallCount st
  /\ lastSearchResults st' = lastSearchResults st
  /\ autoReadInProgress st' = autoReadInProgress st
  /\ toolCallHistory st' = toolCallHistory st
  /\ highlightedResultIndices st' = highlightedResultIndices st
  /\ readCache st' = readCache st.

(** A computation that never ends with an exception. *)
Definition neverRaises {A : Type} (m : M A) : Prop :=
  forall st e, snd (m st) <> Exn e.

(** The snippets [summarizeSnippets] works on: its argument, or the buffer
    when it is called without one. *)
Definition snippetsToSummarize (snippets : option (list jsstring)) (st : State)
  : list jsstring :=
  match snippets with
  | Some l => l
  | None => readSnippets st
  end.

(** A computation that ends, with a value or with an exception. *)
Definition returns {A : Type} (m : M A) : Prop :=
  forall st, snd (m st) <> Diverge.

(** Every value the computation returns satisfies [Q]. *)
Definition onReturn {A : Type} (Q : A -> Prop) (m : M A) : Prop :=
  forall st, match snd (m st) with Ok a => Q a | _ => True end.

(** What the loop of [deepReadUrl] keeps true of its variables under the
    cap [maxChunks]: there is no empty chunk; while the loop goes on there is
    one chunk for each counted iteration and the count is within the cap;
    once it is stopped there is at most one chunk more, read in an iteration
    that began under the cap. *)
Definition chunksWithin (maxChunks : Z) (v : DeepRead) : Prop :=
  Forall (fun chunk => chunk <> []) (allChunks v)
  /\ if shouldContinue v
     then (Z.of_nat (length (allChunks v)) <= chunkCount v
           /\ chunkCount v <= Z.max 0 maxChunks)%Z
     else (Z.of_nat (length (allChunks v)) <= chunkCount v + 1
           /\ chunkCount v < maxChunks)%Z.


(** A call that cannot be carried out: [toolHandlers[tool]] is no function
    (the tool is neither one of the three handlers nor a method that every
    object inherits), or the tool is one of the three handlers and there is
    no arguments object for it to read. *)
Definition unexecutable (call : ToolCall) : bool :=
  match lookupHandler (tool call) with
  | notCallable => true
  | inheritedMethod => false
  | _ => match arguments call with JNull => true | _ => false end
  end.

(** A call of a tool that does not exist. *)
Definition unknownCall : ToolCall :=
  mkCall (JString (str "calculator"))
         (JObject [ (str "expression", JString (str "1+1")) ])
         false.

(** The texts the handlers log as the result of a search or of a read, and
    as the failure of any of the three tools. *)
Definition toolResultText (text : jsstring) : bool :=
  startsWith (str "Read content from ") text
  || startsWith (txt "Search results for `") text
  || startsWith (str "Web search failed: ") text
  || startsWith (str "Read URL failed: ") text
  || startsWith (str "Instant answer failed: ") text.

(** A JSON text may start with this code unit. *)
Definition startsValue (c : codeunit) : bool :=
  isJsonWs c || (c =? 123)%N || (c =? 91)%N || (c =? 34)%N || (c =? 116)%N
  || (c =? 102)%N || (c =? 110)%N || (c =? 45)%N || isDigit c.

(** The user turns [sendMessage] logs for [message] under the settings [s]
    with the model [model], when the log before is [history]: for a model
    that is not one of OpenAI's an empty turn comes first on an empty log. *)
Definition userTurns (s : Settings) (model message : jsstring)
  (history : list Turn) : list Turn :=
  (if isGpt model then []
   else if nonEmpty history then [] else [mkTurn user []])
  ++ [mkTurn user (if enableCoT s then enhanceWithCoT message else message)].

(** The reply that names the results at the positions [picks], counted from
    zero, by the numbers the prompt of [suggestResultsToRead] gives them:
    counted from one, separated by a comma and a space. *)
Definition numbered (picks : list nat) : jsstring :=
  join (str ", ") (map (fun i => showZ (Z.of_nat i + 1)) picks).

(** The addresses of the results at the positions [picks], in that order;
    a result without an address gives none. *)
Definition addressesAt (results : list SearchResult) (picks : list nat)
  : list jsstring :=
  flat_map (fun i => match nth_error results i with
                     | Some r => if nonEmpty (url r) then [url r] else []
                     | None => []
                     end)
           picks.

(** What the loop of [deepReadUrl] keeps true of its variables under the
    budget [maxTotalLength]: the length it counts is the combined length of
    the chunks, and the chunks before the last one are within the budget. *)
Definition withinBudget (maxTotalLength : Z) (v : DeepRead) : Prop :=
  totalLength v = batchLength (allChunks v)
  /\ (allChunks v = []
      \/ (batchLength (removelast (allChunks v)) < maxTotalLength)%Z).

(** Search results as the model may be asked to choose from. *)
Definition exampleResults : list SearchResult :=
  [ mkSearchResult (str "First") (str "https://example.com/1") (str "one");
    mkSearchResult (str "No address") [] (str "two");
    mkSearchResult (str "Third") (str "https://example.com/3") (str "three") ].

(** A world in which every service fails. *)
Definition offlineWorld : Env :=
  mkEnv (fun _ => str "hello")
        (fun _ => str "gpt-4o")
        (fun _ => str "2025-01-01T00:00:00.000Z")
        (fun _ _ _ => ([], Throw (str "offline")))
        (fun _ _ => Throw (str "offline"))
        (fun _ _ => Throw (str "offline"))
        (fun _ _ _ _ => Throw (str "offline"))
        (fun _ _ _ => ([], Throw (str "offline")))
        (fun _ _ _ => ([], Throw (str "offline")))
        (fun _ _ _ _ => Throw (str "offline"))
        (fun _ _ _ => Throw (str "offline")).

(** A world whose model is not one of OpenAI's, whose pages are all [page]
    and whose searches all find [exampleResults]. *)
Definition geminiWorld (page : jsstring) : Env :=
  mkEnv (fun _ => str "hello")
        (fun _ => str "gemini-1.5-flash")
        (fun _ => str "2025-01-01T00:00:00.000Z")
        (fun _ _ _ => (exampleResults, Normal exampleResults))
        (fun _ _ => Normal page)
        (fun _ _ => Throw (str "offline"))
        (fun _ _ _ _ => Normal (mkOpenAI None None (Some (str "yes"))))
        (fun _ _ _ => ([], Throw (str "offline")))
        (fun _ _ _ => ([], Throw (str "offline")))
        (fun _ _ _ _ => Throw (str "offline"))
        (fun _ _ _ => Normal None).

(** ** Vocabulary of the loop guard over a session *)

(** The signature of the call an entry of the audit log records. *)
Definition recordSignature (record : ToolCallRecord) : jsstring :=
  callSignature (mkCall (calledTool record) (calledArgs record) false).

(** The signatures of the calls that were executed, oldest first: those the
    audit log records. *)
Definition executedSignatures (st : State) : list jsstring :=
  map recordSignature (toolCallHistory st).

(** The loop-guard variables agree with the audit log: the last signature is
    the one of the last call executed, and the counter, up to the threshold,
    is the number of calls with that signature the log ends with. *)
Definition guardTracksLog (st : State) : Prop :=
  match lastToolCall st with
  | Some previous =>
      (1 <= lastToolCallCount st)%Z
      /\ Z.of_nat (repeatsAtEnd previous (executedSignatures st))
         = Z.min (lastToolCallCount st) MAX_TOOL_CALL_REPEAT
  | None => toolCallHistory st = []
  end.

(** The same signature four times in a row. *)
Definition fourInARow (signatures : list jsstring) : Prop :=
  exists before signature after,
    signatures = before ++ repeat signature 4 ++ after.

(** What the loop guard keeps true of the controller: its variables agree
    with the audit log, and no call was executed four times in a row. *)
Definition guardHolds (st : State) : Prop :=
  guardTracksLog st /\ ~ fourInARow (executedSignatures st).

(** From [st] to [st'] it is not lost. *)
Definition guardStillHolds (st st' : State) : Prop :=
  guardHolds st -> guardHolds st'.

(** A [web_search] call as the model would write it. *)
Definition exampleSearch : ToolCall :=
  mkCall (JString (str "web_search"))
         (JObject [ (str "query", JString (str "rocq prover")) ])
         false.

(** A world whose searches all find [exampleResults], whose pages are all
    [page] and whose model always answers [1]. *)
Definition searchWorld (page : jsstring) : Env :=
  mkEnv (fun _ => str "hello")
        (fun _ => str "gpt-4o")
        (fun _ => str "2025-01-01T00:00:00.000Z")
        (fun _ _ _ => (exampleResults, Normal exampleResults))
        (fun _ _ => Normal page)
        (fun _ _ => Throw (str "offline"))
        (fun _ _ _ _ => Normal (mkOpenAI None None (Some (str "1"))))
        (fun _ _ _ => ([], Throw (str "offline")))
        (fun _ _ _ => ([], Throw (str "offline")))
        (fun _ _ _ _ => Throw (str "offline"))
        (fun _ _ _ => Normal None).

(** The state after [call] was issued in the world [env]. *)
Definition issue (env : Env) (call : ToolCall) (st : State) : State :=
  fst (processToolCall 2 env call st).

(** Whether the page shows the loop error. *)
Definition showsLoopError (st : State) : bool :=
  existsb (fun e => match e with
                    | addMessage _ text => JsString.eqb text loopDetected
                    | _ => false
                    end)
          (ui st).

(** ** The model on small inputs *)

Example parse_tool_call :
  parse (txt " {`tool`:`read_url`,`arguments`:{`url`:`https://a.b`,`start`:0,`length`:1.5e3}} ")
  = Normal (JObject [ (str "tool", JString (str "read_url"));
                      (str "arguments",
                       JObject [ (str "url", JString (str "https://a.b"));
                                 (str "start", JNumber (JsNumber.mkNum 0 0));
                                 (str "length", JNumber (JsNumber.mkNum 15 2)) ]) ]).
Proof. vm_compute. reflexivity. Qed.

Example parse_repeated_and_index_keys :
  parse (txt "{`b`:1,`2`:[],`b`:null,`1`:`x\u0041`}")
  = Normal (JObject [ (str "1", JString (str "xA")); (str "2", JArray []);
                      (str "b", JNull) ]).
Proof. vm_compute. reflexivity. Qed.

Example parse_rejects_leading_zero :
  exists e, parse (txt "{`a`:01}") = Throw e.
Proof. eexists. vm_compute. reflexivity. Qed.

Example stringify_round_trip :
  stringify (JObject [ (str "q", JString (txt "a`b" ++ LF));
                       (str "n", JArray [ JNumber (JsNumber.normalize 2500 (-3));
                                          JBool true; JNull ]) ])
  = txt "{`q`:`a\`b\n`,`n`:[2.5,true,null]}".
Proof. vm_compute. reflexivity. Qed.

Example signature_of_read :
  callSignature exampleRead
  = txt "{`tool`:`read_url`,`args`:{`url`:`https://example.com/page`,`start`:0,`length`:1122}}".
Proof. vm_compute. reflexivity. Qed.

Example number_texts :
  map JsNumber.toString
      [ JsNumber.ofZ 2000; JsNumber.normalize 12345 (-2);
        JsNumber.normalize (-5) (-3); JsNumber.normalize 1 (-7);
        JsNumber.normalize 1 21 ]
  = [ str "2000"; str "123.45"; str "-0.005"; str "1e-7"; str "1e+21" ].
Proof. vm_compute. reflexivity. Qed.

Example complete_response :
  snd (processCoTResponse (str "Thinking: because X" ++ LF ++ str "Answer: 42")
                          loaded)
  = Ok (mkCoT (str "because X") (str "42") true None None).
Proof. vm_compute. reflexivity. Qed.

Example thinking_not_at_start :
  snd (processCoTResponse (str "So. Thinking: still working") loaded)
  = Ok (mkCoT [] (str "So. Thinking: still working") false None None).
Proof. vm_compute. reflexivity. Qed.

Example suggested_numbers :
  option_map suggestedNumbers (matchNumberList (str "Read 3, 5,x 7 and 10."))
  = Some [3%Z; 5%Z].
Proof. vm_compute. reflexivity. Qed.

Example batches_of_five :
  splitIntoBatches [str "abc"; str "de"; str "fghijkl"; str "m"; str "nopq"] 5
  = [ [str "abc"; str "de"]; [str "fghijkl"]; [str "m"; str "nopq"] ].
Proof. vm_compute. reflexivity. Qed.

Example trim_and_match :
  matchThinking (str "Thinking: a Answer: b") = Some (str " a ")
  /\ matchAnswer (str "Thinking: a Answer: b") = Some (str " b")
  /\ trim ([9%N; 160%N] ++ str " a b " ++ LF) = str "a b".
Proof. vm_compute. repeat split; reflexivity. Qed.

(** ** Splitting into batches *)

Lemma batchLength_app (a b : list jsstring) :
  batchLength (a ++ b) = (batchLength a + batchLength b)%Z.
Proof.
  induction a as [|x a IH]; simpl; [reflexivity|].
  rewrite IH. lia.
Qed.

Lemma splitLoop_spec (maxLen : Z) (snippets : list jsstring) :
  forall batches currentBatch currentLen,
    currentLen = batchLength currentBatch ->
    Forall (batchOk maxLen) batches ->
    (currentBatch = [] \/ batchOk maxLen currentBatch) ->
    List.concat (splitLoop maxLen snippets batches currentBatch currentLen)
    = List.concat batches ++ currentBatch ++ snippets
    /\ Forall (batchOk maxLen)
              (splitLoop maxLen snippets batches currentBatch currentLen).
Proof.
  induction snippets as [|snippet rest IH];
    intros batches currentBatch currentLen Hlen Hbatches Hcurrent.
  - simpl. destruct currentBatch as [|x cb]; simpl.
    + split; [now rewrite app_nil_r | assumption].
    + destruct Hcurrent as [Hnil|Hok]; [discriminate|].
      split.
      * rewrite concat_app. simpl. now rewrite !app_nil_r.
      * apply Forall_app. split; [assumption | constructor; [assumption | constructor]].
  - cbn [splitLoop].
    destruct ((currentLen + len snippet >? maxLen)%Z && nonEmpty currentBatch)
      eqn:Hflush.
    + apply andb_true_iff in Hflush. destruct Hflush as [_ Hne].
      destruct currentBatch as [|x cb]; [discriminate|].
      destruct Hcurrent as [Hnil|Hok]; [discriminate|].
      destruct (IH (batches ++ [x :: cb]) [snippet] (0 + len snippet)%Z)
        as [Hc Hf].
      * simpl. lia.
      * apply Forall_app. split; [assumption | constructor; [assumption | constructor]].
      * right. split; [discriminate|].
        destruct (Z_le_gt_dec (len snippet) maxLen) as [Hle|Hgt].
        -- left. simpl. lia.
        -- right. exists snippet. split; [reflexivity | lia].
      * split; [|assumption].
        rewrite Hc, concat_app. simpl. rewrite app_nil_r, <- !app_assoc.
        reflexivity.
    + destruct (IH batches (currentBatch ++ [snippet]) (currentLen + len snippet)%Z)
        as [Hc Hf].
      * rewrite batchLength_app. simpl. lia.
      * assumption.
      * right. split; [now destruct currentBatch|].
        apply andb_false_iff in Hflush.
        destruct currentBatch as [|x cb].
        -- simpl.
           destruct (Z_le_gt_dec (len snippet) maxLen) as [Hle|Hgt].
           ++ left. lia.
           ++ right. exists snippet. split; [reflexivity | lia].
        -- left. destruct Hflush as [Hsmall|Hne]; [|discriminate].
           rewrite batchLength_app. simpl in *. lia.
      * split; [|assumption].
        rewrite Hc, <- !app_assoc. reflexivity.
Qed.

(** C7.  For every list of snippets and every positive budget, the batches of
    [splitIntoBatches] concatenate to the input list, in order; every batch is
    non-empty; and every batch fits the budget unless it is a single snippet
    that alone exceeds it.  Snippets are list elements, so none is split. *)
Theorem splitIntoBatches_partitions (snippets : list jsstring) (maxLen : Z) :
  (0 < maxLen)%Z ->
  List.concat (splitIntoBatches snippets maxLen) = snippets
  /\ Forall (batchOk maxLen) (splitIntoBatches snippets maxLen).
Proof.
  intros _. unfold splitIntoBatches.
  destruct (splitLoop_spec maxLen snippets [] [] 0%Z) as [Hc Hf];
    [reflexivity | constructor | now left |].
  split; [exact Hc | exact Hf].
Qed.

Lemma splitIntoBatches_partitions_witness :
  (0 < 5)%Z
  /\ List.concat (splitIntoBatches [str "abc"; str "de"; str "fghijkl"; str "m"] 5)
     = [str "abc"; str "de"; str "fghijkl"; str "m"]
  /\ Forall (batchOk 5)
            (splitIntoBatches [str "abc"; str "de"; str "fghijkl"; str "m"] 5).
Proof.
  split; [lia|].
  apply (splitIntoBatches_partitions
           [str "abc"; str "de"; str "fghijkl"; str "m"] 5).
  lia.
Defined.

(** ** The JSON parser never runs out of fuel *)

Lemma dropWhile_length (f : codeunit -> bool) (s : jsstring) :
  length (dropWhile f s) <= length s.
Proof.
  induction s as [|c t IH]; simpl; [lia|].
  destruct (f c); simpl; lia.
Qed.

Lemma takeWhile_dropWhile_length (f : codeunit -> bool) (s : jsstring) :
  length (takeWhile f s) + length (dropWhile f s) = length s.
Proof.
  induction s as [|c t IH]; simpl; [reflexivity|].
  destruct (f c); simpl; lia.
Qed.

Lemma skipWs_length (s : jsstring) : length (skipWs s) <= length s.
Proof. apply dropWhile_length. Qed.

Lemma skipWs_cons_length (s : jsstring) (c : codeunit) (t : jsstring) :
  skipWs s = c :: t -> length t < length s.
Proof.
  intros H. pose proof (skipWs_length s) as Hl. rewrite H in Hl. simpl in Hl. lia.
Qed.

Lemma parseChars_progress (n : nat) :
  forall s acc,
    length s <= n ->
    parseChars s acc <> OutOfFuel
    /\ forall k r, parseChars s acc = Parsed k r -> length r < length s.
Proof.
  induction n as [|n IH]; intros s acc Hn.
  - destruct s; [|simpl in Hn; lia]. simpl. split; [discriminate|discriminate].
  - destruct s as [|c t]; [simpl; split; discriminate|].
    simpl in Hn. simpl.
    destruct (c =? 34)%N.
    { split; [discriminate|]. intros k r H. inversion H; subst. simpl. lia. }
    destruct (c =? 92)%N.
    { destruct t as [|e t']; [split; discriminate|].
      simpl in Hn.
      destruct (e =? 117)%N.
      - destruct t' as [|h1 [|h2 [|h3 [|h4 t'']]]]; try (split; discriminate).
        destruct (hex4 h1 h2 h3 h4); [|split; discriminate].
        simpl in Hn.
        destruct (IH t'' (c0 :: acc)) as [H1 H2]; [lia|].
        split; [exact H1|]. intros k r H. apply H2 in H. simpl. lia.
      - destruct (escapeValue e); [|split; discriminate].
        destruct (IH t' (c0 :: acc)) as [H1 H2]; [lia|].
        split; [exact H1|]. intros k r H. apply H2 in H. simpl. lia. }
    destruct (c <? 32)%N; [split; discriminate|].
    destruct (IH t (c :: acc)) as [H1 H2]; [lia|].
    split; [exact H1|]. intros k r H. apply H2 in H. simpl. lia.
Qed.

Lemma parseNumber_progress (s : jsstring) :
  parseNumber s <> OutOfFuel
  /\ forall n r, parseNumber s = Parsed n r -> length r < length s.
Proof.
  unfold parseNumber.
  set (signed := match s with
                 | c :: t => if (c =? 45)%N then (true, t) else (false, s)
                 | [] => (false, s)
                 end).
  assert (Hs1 : length (snd signed) <= length s).
  { subst signed. destruct s as [|c t]; simpl; [lia|].
    destruct (c =? 45)%N; simpl; lia. }
  destruct signed as [neg s1]. simpl in Hs1.
  set (whole := match s1 with
                | c :: t => if (c =? 48)%N then ([c], t)
                            else (takeWhile isDigit s1, dropWhile isDigit s1)
                | [] => ([], s1)
                end).
  assert (Hs2 : fst whole <> [] -> length (snd whole) < length s1).
  { subst whole. destruct s1 as [|c t]; simpl; [intros H; now elim H|].
    destruct (c =? 48)%N; simpl; [lia|].
    destruct (isDigit c) eqn:Hd; simpl; [|intros H; now elim H].
    intros _. pose proof (dropWhile_length isDigit t). lia. }
  destruct whole as [ip s2]. simpl in Hs2.
  destruct ip as [|d ip']; [split; discriminate|].
  specialize (Hs2 ltac:(discriminate)).
  set (frac := match s2 with
               | c :: t =>
                   if (c =? 46)%N then
                     match takeWhile isDigit t with
                     | [] => None
                     | fp => Some (fp, dropWhile isDigit t)
                     end
                   else Some ([], s2)
               | [] => Some ([], s2)
               end).
  assert (Hs3 : forall fp s3, frac = Some (fp, s3) -> length s3 <= length s2).
  { subst frac. intros fp s3. destruct s2 as [|c t]; [intros H; inversion H; lia|].
    destruct (c =? 46)%N; [|intros H; inversion H; lia].
    destruct (takeWhile isDigit t); [discriminate|].
    intros H; inversion H; subst. pose proof (dropWhile_length isDigit t).
    simpl. lia. }
  destruct frac as [[fp s3]|]; [|split; discriminate].
  specialize (Hs3 fp s3 eq_refl).
  match goal with
  | |- context [match ?e with Some _ => _ | None => SyntaxError end] =>
      set (expn := e)
  end.
  assert (Hs4 : forall e s4, expn = Some (e, s4) -> length s4 <= length s3).
  { subst expn. intros e s4. destruct s3 as [|c t]; [intros H; inversion H; lia|].
    destruct ((c =? 101) || (c =? 69))%N; [|intros H; inversion H; lia].
    set (sg := match t with
               | sg :: t' =>
                   if (sg =? 45)%N then (true, t')
                   else if (sg =? 43)%N then (false, t') else (false, t)
               | [] => (false, t)
               end).
    assert (Hsg : length (snd sg) <= length t).
    { subst sg. destruct t as [|x t']; simpl; [lia|].
      destruct (x =? 45)%N; simpl; [lia|]. destruct (x =? 43)%N; simpl; lia. }
    destruct sg as [eneg t1]. simpl in Hsg.
    destruct (takeWhile isDigit t1); [discriminate|].
    intros H; inversion H; subst. pose proof (dropWhile_length isDigit t1).
    simpl. lia. }
  destruct expn as [[e s4]|]; [|split; discriminate].
  specialize (Hs4 e s4 eq_refl).
  split; [discriminate|]. intros n r H. inversion H; subst. lia.
Qed.

Lemma parseLiteral_progress (lit : jsstring) (v : JSON) (c : codeunit)
  (t : jsstring) :
  lit <> [] ->
  parseLiteral lit v (c :: t) <> OutOfFuel
  /\ forall w r, parseLiteral lit v (c :: t) = Parsed w r ->
                 length r < length (c :: t).
Proof.
  intros Hlit. unfold parseLiteral.
  destruct (startsWith lit (c :: t)); [|split; discriminate].
  split; [discriminate|]. intros w r H. inversion H; subst.
  destruct lit as [|x lit']; [now elim Hlit|].
  simpl. pose proof (length_skipn (length lit') t). lia.
Qed.

Lemma progresses_error {A : Type} (s : jsstring) :
  progresses (@SyntaxError A) s.
Proof. split; discriminate. Qed.

Lemma progresses_parsed {A : Type} (a : A) (r s : jsstring) :
  length r < length s -> progresses (Parsed a r) s.
Proof.
  intros H. split; [discriminate|]. intros a' r' E. inversion E; subst. exact H.
Qed.

Lemma progresses_weaken {A : Type} (p : parsed A) (s s' : jsstring) :
  progresses p s -> length s <= length s' -> progresses p s'.
Proof.
  intros [H1 H2] Hl. split; [exact H1|]. intros a r E. apply H2 in E. lia.
Qed.

Lemma parse_progress (fuel : nat) :
  (forall s, 2 * length s < fuel -> progresses (parseValue fuel s) s)
  /\ (forall s acc, 2 * length s < fuel -> progresses (parseMembers fuel s acc) s)
  /\ (forall s acc, 2 * length s + 1 < fuel ->
                    progresses (parseElements fuel s acc) s).
Proof.
  induction fuel as [|f [IHv [IHm IHe]]].
  - repeat split; intros; lia.
  - split; [|split].
    + (* parseValue *)
      intros s Hf. cbn [parseValue].
      destruct (skipWs s) as [|c t] eqn:Hws; [apply progresses_error|].
      pose proof (skipWs_cons_length s c t Hws) as Ht.
      destruct (c =? 123)%N.
      { destruct (skipWs t) as [|c' t'] eqn:Hws'; [apply progresses_error|].
        pose proof (skipWs_cons_length t c' t' Hws') as Ht'.
        destruct (c' =? 125)%N; [apply progresses_parsed; lia|].
        apply progresses_weaken with (s := c' :: t'); [|simpl; lia].
        apply IHm. simpl. lia. }
      destruct (c =? 91)%N.
      { destruct (skipWs t) as [|c' t'] eqn:Hws'; [apply progresses_error|].
        pose proof (skipWs_cons_length t c' t' Hws') as Ht'.
        destruct (c' =? 93)%N; [apply progresses_parsed; lia|].
        apply progresses_weaken with (s := c' :: t'); [|simpl; lia].
        apply IHe. simpl. lia. }
      destruct (c =? 34)%N.
      { destruct (parseChars_progress (length t) t [] (le_n _)) as [H1 H2].
        destruct (parseChars t []) as [k r| |] eqn:Hp;
          [|apply progresses_error|now elim H1].
        apply progresses_parsed. specialize (H2 k r eq_refl). lia. }
      assert (Hlit : forall lit v, lit <> [] ->
                                   progresses (parseLiteral lit v (c :: t)) s).
      { intros lit v Hne.
        destruct (parseLiteral_progress lit v c t Hne) as [H1 H2].
        split; [exact H1|]. intros w r E. apply H2 in E. simpl in E. lia. }
      destruct (c =? 116)%N; [apply Hlit; discriminate|].
      destruct (c =? 102)%N; [apply Hlit; discriminate|].
      destruct (c =? 110)%N; [apply Hlit; discriminate|].
      destruct (parseNumber_progress (c :: t)) as [H1 H2].
      destruct (parseNumber (c :: t)) as [n r| |] eqn:Hp;
        [|apply progresses_error|now elim H1].
      apply progresses_parsed. specialize (H2 n r eq_refl). simpl in H2. lia.
    + (* parseMembers *)
      intros s acc Hf. cbn [parseMembers].
      destruct (skipWs s) as [|c t] eqn:Hws; [apply progresses_error|].
      pose proof (skipWs_cons_length s c t Hws) as Ht.
      destruct (c =? 34)%N; [|apply progresses_error].
      destruct (parseChars_progress (length t) t [] (le_n _)) as [H1 H2].
      destruct (parseChars t []) as [k r| |] eqn:Hp;
        [|apply progresses_error|now elim H1].
      specialize (H2 k r eq_refl).
      destruct (skipWs r) as [|c1 r1] eqn:Hws1; [apply progresses_error|].
      pose proof (skipWs_cons_length r c1 r1 Hws1) as Hr1.
      destruct (c1 =? 58)%N; [|apply progresses_error].
      destruct (IHv r1 ltac:(lia)) as [G1 G2].
      destruct (parseValue f r1) as [v r2| |] eqn:Hv;
        [|apply progresses_error|now elim G1].
      specialize (G2 v r2 eq_refl).
      destruct (skipWs r2) as [|c2 r3] eqn:Hws2; [apply progresses_error|].
      pose proof (skipWs_cons_length r2 c2 r3 Hws2) as Hr3.
      destruct (c2 =? 44)%N.
      { apply progresses_weaken with (s := r3); [|lia]. apply IHm. lia. }
      destruct (c2 =? 125)%N; [|apply progresses_error].
      apply progresses_parsed. lia.
    + (* parseElements *)
      intros s acc Hf. cbn [parseElements].
      destruct (IHv s ltac:(lia)) as [G1 G2].
      destruct (parseValue f s) as [v r| |] eqn:Hv;
        [|apply progresses_error|now elim G1].
      specialize (G2 v r eq_refl).
      destruct (skipWs r) as [|c r1] eqn:Hws; [apply progresses_error|].
      pose proof (skipWs_cons_length r c r1 Hws) as Hr1.
      destruct (c =? 44)%N.
      { apply progresses_weaken with (s := r1); [|lia]. apply IHe. lia. }
      destruct (c =? 93)%N; [|apply progresses_error].
      apply progresses_parsed. lia.
Qed.

(** The fuel [JSON.parse] starts with is never used up: the parser reports
    a value or a syntax error. *)
Lemma parse_fuel_enough (text : jsstring) :
  parseValue (parseFuel text) text <> OutOfFuel.
Proof.
  destruct (parse_progress (parseFuel text)) as [Hv _].
  apply Hv. unfold parseFuel. lia.
Qed.

(** ** Extraction of tool calls *)

Lemma dropWhile_free_prefix (c : codeunit) (pre rest : jsstring) :
  freeOf c pre = true ->
  dropWhile (fun x => negb (x =? c)%N) (pre ++ c :: rest) = c :: rest.
Proof.
  induction pre as [|x pre IH]; simpl; intros H.
  - now rewrite N.eqb_refl.
  - apply andb_true_iff in H. destruct H as [Hx Hpre].
    rewrite Hx. now apply IH.
Qed.

Lemma throughLast_free (c : codeunit) (s : jsstring) :
  freeOf c s = true -> throughLast c s = None.
Proof.
  induction s as [|x s IH]; simpl; [reflexivity|]. intros H.
  apply andb_true_iff in H. destruct H as [Hx Hs].
  rewrite (IH Hs). apply negb_true_iff in Hx. now rewrite Hx.
Qed.

Lemma throughLast_last (c : codeunit) (body post : jsstring) :
  freeOf c post = true ->
  throughLast c (body ++ c :: post) = Some (body ++ [c]).
Proof.
  intros Hpost. induction body as [|x body IH]; simpl.
  - rewrite (throughLast_free c post Hpost). now rewrite N.eqb_refl.
  - now rewrite IH.
Qed.

Lemma matchBraces_embedded (pre body post : jsstring) :
  freeOf 123%N pre = true ->
  freeOf 125%N post = true ->
  matchBraces (pre ++ (123%N :: body ++ [125%N]) ++ post)
  = Some (123%N :: body ++ [125%N]).
Proof.
  intros Hpre Hpost. unfold matchBraces.
  change ((123%N :: body ++ [125%N]) ++ post)
    with (123%N :: (body ++ [125%N]) ++ post).
  rewrite (dropWhile_free_prefix 123%N pre _ Hpre).
  rewrite <- app_assoc. simpl.
  now rewrite (throughLast_last 125%N body post Hpost).
Qed.

(** C1, as the code has it.  A tool call that [JSON.parse] accepts, written
    from its opening brace to its closing brace, is extracted from a reply
    whatever surrounds it, provided the text before it has no opening brace
    and the text after it no closing brace (markdown fences and brace-free
    prose qualify). *)
Theorem extractToolCall_embedded (pre body post : jsstring) (v : JSON) :
  parse (123%N :: body ++ [125%N]) = Normal v ->
  freeOf 123%N pre = true ->
  freeOf 125%N post = true ->
  extractToolCall (pre ++ (123%N :: body ++ [125%N]) ++ post) = Normal v.
Proof.
  intros Hparse Hpre Hpost. unfold extractToolCall.
  rewrite (matchBraces_embedded pre body post Hpre Hpost).
  now rewrite Hparse.
Qed.

Lemma extractToolCall_embedded_witness :
  extractToolCall (fenceOpen ++ embeddedCall ++ fenceClose)
  = Normal (JObject [ (str "tool", JString (str "web_search"));
                      (str "arguments",
                       JObject [ (str "query", JString (str "rocq")) ]) ]).
Proof.
  apply (extractToolCall_embedded
           fenceOpen
           (txt "`tool`:`web_search`,`arguments`:{`query`:`rocq`}")
           fenceClose);
    vm_compute; reflexivity.
Defined.

(** C1, as the claim states it, fails: the call parses on its own and looks
    like a tool call, but a closing brace in the prose after it widens the
    span the classifier hands to [JSON.parse], and nothing is extracted. *)
Lemma extractToolCall_misses_embedded_call :
  (exists v, parse embeddedCall = Normal v /\ looksLikeToolCall v = true)
  /\ extractToolCall replyWithBraces = Normal JNull.
Proof.
  split.
  - eexists. split; vm_compute; reflexivity.
  - vm_compute. reflexivity.
Qed.

(** ** The classifiers never raise *)

Lemma processCoTResponse_cases (response : jsstring) (st : State) :
  exists st' r c,
    processCoTResponse response st = (st', Ok r) /\ classified r response c.
Proof.
  unfold processCoTResponse.
  destruct (matchThinking response) as [t|] eqn:Ht;
    destruct (matchAnswer response) as [a|] eqn:Ha.
  - do 2 eexists. exists complete. split; [reflexivity|].
    simpl. auto.
  - destruct (startsWith Thinking response && negb (includes Answer response)).
    + do 2 eexists. exists partialThinking. split; [reflexivity|]. simpl. auto.
    + rewrite andb_false_r.
      do 2 eexists. exists unstructured. split; [reflexivity|]. simpl. auto.
  - destruct (startsWith Thinking response && negb (includes Answer response)).
    + do 2 eexists. exists partialThinking. split; [reflexivity|]. simpl. auto.
    + destruct (includes Thinking response && true).
      * do 2 eexists. exists malformed. split; [reflexivity|]. simpl. auto.
      * do 2 eexists. exists unstructured. split; [reflexivity|]. simpl. auto.
  - destruct (startsWith Thinking response && negb (includes Answer response)).
    + do 2 eexists. exists partialThinking. split; [reflexivity|]. simpl. auto.
    + destruct (includes Thinking response && true).
      * do 2 eexists. exists malformed. split; [reflexivity|]. simpl. auto.
      * do 2 eexists. exists unstructured. split; [reflexivity|]. simpl. auto.
Qed.

Lemma processPartialCoTResponse_cases (fullText : jsstring) :
  exists c, classified (processPartialCoTResponse fullText) fullText c
            /\ c <> malformed.
Proof.
  unfold processPartialCoTResponse.
  destruct (includes Thinking fullText && negb (includes Answer fullText)).
  - exists partialThinking. simpl. split; [auto | discriminate].
  - destruct (includes Thinking fullText && includes Answer fullText).
    + destruct (matchThinking fullText); [destruct (matchAnswer fullText)|].
      * exists complete. simpl. split; [auto | discriminate].
      * exists unstructured. simpl. split; [auto | discriminate].
      * exists unstructured. simpl. split; [auto | discriminate].
    + exists unstructured. simpl. split; [auto | discriminate].
Qed.

(** C8.  On every input the classification functions return a result and do
    not raise.  [extractToolCall] ends normally, with [null] when nothing
    matches or when [JSON.parse] throws on the matched span (and the parser of
    this model throws only syntax errors: it never runs out of fuel);
    [processCoTResponse] ends normally with a response in one of the four
    defined cases; [processPartialCoTResponse] is a total function whose
    result is in one of its three cases. *)
Theorem classifiers_never_raise (input : jsstring) (st : State) :
  (exists v, extractToolCall input = Normal v)
  /\ (forall span e, matchBraces input = Some span -> parse span = Throw e ->
                     extractToolCall input = Normal JNull)
  /\ (matchBraces input = None -> extractToolCall input = Normal JNull)
  /\ parseValue (parseFuel input) input <> OutOfFuel
  /\ (exists st' r c,
         processCoTResponse input st = (st', Ok r) /\ classified r input c)
  /\ (exists c, classified (processPartialCoTResponse input) input c
                /\ c <> malformed).
Proof.
  repeat split.
  - unfold extractToolCall. destruct (matchBraces input) as [span|].
    + destruct (parse span) as [v|e]; simpl; eauto.
    + eauto.
  - intros span e Hm Hp. unfold extractToolCall. now rewrite Hm, Hp.
  - intros Hm. unfold extractToolCall. now rewrite Hm.
  - apply parse_fuel_enough.
  - apply processCoTResponse_cases.
  - apply processPartialCoTResponse_cases.
Qed.

(** ** Clearing the chat *)

(** C10.  [clearChat] empties the conversation log and zeroes the token
    counter; the read-snippet buffer, the read cache, the loop-guard signature
    and counter, the last search results, the highlighted indices, the audit
    log and every other variable of the controller keep their values. *)
Theorem clearChat_frame (st : State) :
  exists st',
    clearChat st = (st', Ok tt)
    /\ chatHistory st' = []
    /\ totalTokens st' = 0%Z
    /\ readSnippets st' = readSnippets st
    /\ readCache st' = readCache st
    /\ lastToolCall st' = lastToolCall st
    /\ lastToolCallCount st' = lastToolCallCount st
    /\ lastSearchResults st' = lastSearchResults st
    /\ highlightedResultIndices st' = highlightedResultIndices st
    /\ toolCallHistory st' = toolCallHistory st
    /\ settings st' = settings st
    /\ isThinking st' = isThinking st
    /\ lastThinkingContent st' = lastThinkingContent st
    /\ lastAnswerContent st' = lastAnswerContent st
    /\ autoReadInProgress st' = autoReadInProgress st
    /\ clock st' = clock st
    /\ ui st' = ui st ++ [updateTokenDisplay 0].
Proof.
  eexists. split; [reflexivity|]. simpl. repeat split; reflexivity.
Qed.

(** ** Thinking without an answer *)

Lemma includes_false_afterFirst (p s : jsstring) :
  includes p s = false -> afterFirst p s = None.
Proof.
  unfold includes. destruct (afterFirst p s); [discriminate | reflexivity].
Qed.

(** C6, as the code has it.  On an input without [Answer:], the final
    classifier, when the input starts with [Thinking:], returns a partial
    response in stage thinking whose answer is the stored last answer; the
    streaming classifier, when the input contains [Thinking:], returns a
    partial response in stage thinking whose answer is the empty string. *)
Theorem thinking_without_answer (input : jsstring) (st : State) :
  includes Answer input = false ->
  (startsWith Thinking input = true ->
   processCoTResponse input st
   = (set_lastThinkingContent (trim (skipn (length Thinking) input)) st,
      Ok (mkCoT (trim (skipn (length Thinking) input)) (lastAnswerContent st)
                true (Some true) (Some (str "thinking")))))
  /\ (includes Thinking input = true ->
      processPartialCoTResponse input
      = mkCoT (trim (replaceThroughThinking [] input)) [] true (Some true)
              (Some (str "thinking"))).
Proof.
  intros Hno. split.
  - intros Hstart. unfold processCoTResponse, matchAnswer.
    rewrite (includes_false_afterFirst _ _ Hno), Hstart, Hno.
    unfold dropThinkingPrefix. rewrite Hstart.
    destruct (matchThinking input); reflexivity.
  - intros Hth. unfold processPartialCoTResponse. now rewrite Hth, Hno.
Qed.

Lemma thinking_without_answer_witness :
  let st := set_lastAnswerContent (str "42") loaded in
  snd (processCoTResponse (str "Thinking: still working") st)
  = Ok (mkCoT (str "still working") (str "42") true (Some true)
              (Some (str "thinking")))
  /\ processPartialCoTResponse (str "Thinking: still working")
     = mkCoT (str "still working") [] true (Some true) (Some (str "thinking")).
Proof.
  intros st.
  destruct (thinking_without_answer (str "Thinking: still working") st eq_refl)
    as [Hfinal Hpartial].
  rewrite (Hfinal eq_refl), (Hpartial eq_refl).
  split; vm_compute; reflexivity.
Defined.

(** C6, as the claim states it, fails for the streaming classifier: after a
    completed turn has stored the answer [42], the partial input
    [Thinking: still working] is classified with an empty answer. *)
Lemma partial_classifier_forgets_answer :
  let st := fst (processCoTResponse
                   (str "Thinking: because X" ++ LF ++ str "Answer: 42") loaded) in
  lastAnswerContent st = str "42"
  /\ stage (processPartialCoTResponse (str "Thinking: still working"))
     = Some (str "thinking")
  /\ answer (processPartialCoTResponse (str "Thinking: still working")) = []
  /\ answer (processPartialCoTResponse (str "Thinking: still working"))
     <> lastAnswerContent st.
Proof.
  vm_compute. repeat split; discriminate.
Qed.

(** ** Integral numbers *)

Lemma stripZeros_integer (fuel : nat) :
  forall m e, (0 <= e)%Z -> isInteger (JsNumber.stripZeros fuel m e) (m * 10 ^ e).
Proof.
  induction fuel as [|f IH]; intros m e He; simpl.
  - split; [exact He | reflexivity].
  - destruct (m =? 0)%Z eqn:Hm.
    + apply Z.eqb_eq in Hm. subst m. split; simpl; lia.
    + destruct (Z.rem m 10 =? 0)%Z eqn:Hr.
      * apply Z.eqb_eq in Hr.
        destruct (IH (Z.quot m 10) (e + 1)%Z ltac:(lia)) as [H1 H2].
        split; [exact H1|]. rewrite H2.
        rewrite Z.pow_add_r by lia.
        pose proof (Z.quot_rem' m 10) as Hq. rewrite Hr in Hq.
        rewrite Hq at 2. ring.
      * split; [exact He | reflexivity].
Qed.

Lemma ofZ_integer (z : Z) : isInteger (JsNumber.ofZ z) z.
Proof.
  unfold JsNumber.ofZ, JsNumber.normalize.
  pose proof (stripZeros_integer (S (Z.to_nat (Z.log2 (Z.abs z)))) z 0
                                 (Z.le_refl 0)) as H.
  now rewrite Z.mul_1_r in H.
Qed.

Lemma toInteger_integer (n : number) (z : Z) :
  isInteger n z -> JsNumber.toInteger n = z.
Proof.
  intros [He Hv]. unfold JsNumber.toInteger.
  apply Z.leb_le in He. now rewrite He.
Qed.

Lemma aligned_integer (a b : number) (x y : Z) :
  isInteger a x -> isInteger b y ->
  let e := Z.min (JsNumber.expo a) (JsNumber.expo b) in
  (0 <= e)%Z
  /\ (fst (JsNumber.aligned a b) * 10 ^ e)%Z = x
  /\ (snd (JsNumber.aligned a b) * 10 ^ e)%Z = y.
Proof.
  intros [Ha Hx] [Hb Hy] e. unfold JsNumber.aligned. fold e. simpl.
  assert (He : (0 <= e)%Z) by (subst e; lia).
  split; [exact He|].
  split; rewrite <- Z.mul_assoc, <- Z.pow_add_r by (subst e; lia).
  - replace (JsNumber.expo a - e + e)%Z with (JsNumber.expo a) by lia. exact Hx.
  - replace (JsNumber.expo b - e + e)%Z with (JsNumber.expo b) by lia. exact Hy.
Qed.

Lemma add_integer (a b : number) (x y : Z) :
  isInteger a x -> isInteger b y -> isInteger (JsNumber.add a b) (x + y).
Proof.
  intros Ha Hb. destruct (aligned_integer a b x y Ha Hb) as [He [Hx Hy]].
  unfold JsNumber.add. destruct (JsNumber.aligned a b) as [p q]. simpl in *.
  unfold JsNumber.normalize.
  pose proof (stripZeros_integer (S (Z.to_nat (Z.log2 (Z.abs (p + q)))))
                (p + q) _ He) as H.
  replace (x + y)%Z
    with ((p + q) * 10 ^ Z.min (JsNumber.expo a) (JsNumber.expo b))%Z
    by (rewrite <- Hx, <- Hy; ring).
  exact H.
Qed.

Lemma ltb_integer (a b : number) (x y : Z) :
  isInteger a x -> isInteger b y -> JsNumber.ltb a b = (x <? y)%Z.
Proof.
  intros Ha Hb. destruct (aligned_integer a b x y Ha Hb) as [He [Hx Hy]].
  unfold JsNumber.ltb. destruct (JsNumber.aligned a b) as [p q]. simpl in *.
  assert (Hpos : (0 < 10 ^ Z.min (JsNumber.expo a) (JsNumber.expo b))%Z)
    by (apply Z.pow_pos_nonneg; lia).
  destruct (p <? q)%Z eqn:Hpq; symmetry.
  - apply Z.ltb_lt in Hpq. apply Z.ltb_lt. rewrite <- Hx, <- Hy.
    now apply Z.mul_lt_mono_pos_r.
  - apply Z.ltb_ge in Hpq. apply Z.ltb_ge. rewrite <- Hx, <- Hy.
    apply Z.mul_le_mono_nonneg_r; lia.
Qed.

Lemma leb_integer (a b : number) (x y : Z) :
  isInteger a x -> isInteger b y -> JsNumber.leb a b = (x <=? y)%Z.
Proof.
  intros Ha Hb. destruct (aligned_integer a b x y Ha Hb) as [He [Hx Hy]].
  unfold JsNumber.leb. destruct (JsNumber.aligned a b) as [p q]. simpl in *.
  assert (Hpos : (0 < 10 ^ Z.min (JsNumber.expo a) (JsNumber.expo b))%Z)
    by (apply Z.pow_pos_nonneg; lia).
  destruct (p <=? q)%Z eqn:Hpq; symmetry.
  - apply Z.leb_le in Hpq. apply Z.leb_le. rewrite <- Hx, <- Hy.
    apply Z.mul_le_mono_nonneg_r; lia.
  - apply Z.leb_gt in Hpq. apply Z.leb_gt. rewrite <- Hx, <- Hy.
    now apply Z.mul_lt_mono_pos_r.
Qed.

(** ** Slices *)

Lemma len_nonneg (s : jsstring) : (0 <= len s)%Z.
Proof. unfold len. lia. Qed.

Lemma len_app (a b : jsstring) : len (a ++ b) = (len a + len b)%Z.
Proof. unfold len. rewrite length_app. lia. Qed.

Lemma slice_forward (start length : Z) (s : jsstring) :
  (0 <= start)%Z -> (0 < length)%Z ->
  slice start (start + length) s
  = firstn (Z.to_nat length) (skipn (Z.to_nat start) s).
Proof.
  intros Hs Hl. unfold slice, sliceIndex.
  replace (start <? 0)%Z with false by (symmetry; apply Z.ltb_ge; lia).
  replace (start + length <? 0)%Z with false by (symmetry; apply Z.ltb_ge; lia).
  unfold len.
  destruct (Z_lt_ge_dec start (Z.of_nat (Datatypes.length s))) as [Hin|Hout].
  - rewrite (Z.min_l start) by lia.
    destruct (Z_le_gt_dec (start + length) (Z.of_nat (Datatypes.length s)))
      as [Hfit|Hcut].
    + rewrite Z.min_l by lia. f_equal. lia.
    + rewrite Z.min_r by lia.
      rewrite !firstn_all2; [reflexivity| |]; rewrite length_skipn; lia.
  - rewrite !Z.min_r by lia.
    rewrite !skipn_all2 by lia. now rewrite !firstn_nil.
Qed.

Lemma len_slice_forward (start length : Z) (s : jsstring) :
  (0 <= start)%Z -> (0 < length)%Z ->
  len (firstn (Z.to_nat length) (skipn (Z.to_nat start) s))
  = Z.max 0 (Z.min length (len s - start)).
Proof.
  intros Hs Hl. unfold len. rewrite length_firstn, length_skipn. lia.
Qed.

(** ** Running a computation *)

(** Unfolds the combinators of a computation and the field updates it makes. *)
Ltac run :=
  repeat progress
    (unfold bind, try_catch, try_finally, UI, pushTurn, addTokens, modify,
            await, gets, ask, when, ret, lift, throw, diverge;
     cbn [fst snd
          chatHistory totalTokens settings isThinking lastThinkingContent
          lastAnswerContent readSnippets lastToolCall lastToolCallCount
          lastSearchResults autoReadInProgress toolCallHistory
          highlightedResultIndices readCache ui clock
          set_chatHistory set_totalTokens set_settings set_isThinking
          set_lastThinkingContent set_lastAnswerContent set_readSnippets
          set_lastToolCall set_lastToolCallCount set_lastSearchResults
          set_autoReadInProgress set_toolCallHistory
          set_highlightedResultIndices set_readCache set_ui set_clock]).

(** ** Reading a page *)

Lemma startOf_readArgs (url : jsstring) (start length : Z) :
  (0 <= start)%Z -> startOf (readArgs url start length) = JsNumber.ofZ start.
Proof.
  intros H.
  change (startOf (readArgs url start length))
    with (if JsNumber.leb (JsNumber.ofZ 0) (JsNumber.ofZ start)
          then JsNumber.ofZ start else JsNumber.ofZ 0).
  rewrite (leb_integer _ _ 0 start (ofZ_integer 0) (ofZ_integer start)).
  apply Z.leb_le in H. now rewrite H.
Qed.

Lemma lengthOf_readArgs (url : jsstring) (start length : Z) :
  (0 < length)%Z -> lengthOf (readArgs url start length) = JsNumber.ofZ length.
Proof.
  intros H.
  change (lengthOf (readArgs url start length))
    with (if JsNumber.ltb (JsNumber.ofZ 0) (JsNumber.ofZ length)
          then JsNumber.ofZ length else JsNumber.ofZ 1122).
  rewrite (ltb_integer _ _ 0 length (ofZ_integer 0) (ofZ_integer length)).
  apply Z.ltb_lt in H. now rewrite H.
Qed.

Lemma readSlice_integer (content : jsstring) (start length : Z) :
  (0 <= start)%Z -> (0 < length)%Z ->
  readSlice content (JsNumber.ofZ start) (JsNumber.ofZ length)
  = firstn (Z.to_nat length) (skipn (Z.to_nat start) content).
Proof.
  intros Hs Hl. unfold readSlice.
  rewrite (toInteger_integer _ start (ofZ_integer start)).
  rewrite (toInteger_integer _ (start + length)
             (add_integer _ _ _ _ (ofZ_integer start) (ofZ_integer length))).
  now apply slice_forward.
Qed.

Lemma readHasMore_integer (content : jsstring) (start length : Z) :
  readHasMore content (JsNumber.ofZ start) (JsNumber.ofZ length)
  = (start + length <? len content)%Z.
Proof.
  unfold readHasMore.
  apply ltb_integer; [apply add_integer|]; apply ofZ_integer.
Qed.

(** The state a successful [read_url] leaves. *)
Lemma read_url_run (env : Env) (st : State) (url content : jsstring)
  (start length : Z) :
  validUrl (Some (JString url)) = Some url ->
  (0 <= start)%Z -> (0 < length)%Z ->
  readUrl env (clock st) url = Normal content ->
  let snippet : jsstring :=
    firstn (Z.to_nat length) (skipn (Z.to_nat start) content) in
  let hasMore := (start + length <? len content)%Z in
  read_url env (readArgs url start length) st
  = (set_ui (ui st
             ++ [showSpinner (str "Reading content from " ++ url ++ str "...");
                 addReadResult url snippet hasMore]
             ++ (if (2 <=? Datatypes.length (readSnippets st ++ [snippet]))%nat
                 then [addSummarizeButton] else [])
             ++ [hideSpinner])
       (set_readSnippets (readSnippets st ++ [snippet])
          (set_chatHistory
             (chatHistory st ++ [mkTurn assistant (readTurn url snippet hasMore)])
             (set_clock (S (clock st)) st))),
     Ok tt).
Proof.
  intros Hurl Hs Hl Hread snippet hasMore.
  destruct st as [history tokens opts thinkingNow lastThinking lastAnswer
                  snippets lastCall repeats results reading audit highlighted
                  cache shown time].
  cbn [clock] in Hread.
  unfold read_url.
  change (member (str "url") (readArgs url start length))
    with (Normal (Some (JString url))).
  unfold lift, ret, bind at 1. rewrite Hurl.
  rewrite (startOf_readArgs url start length Hs),
          (lengthOf_readArgs url start length Hl).
  run. rewrite Hread. run.
  rewrite (readSlice_integer content start length Hs Hl),
          (readHasMore_integer content start length).
  fold snippet hasMore.
  destruct (2 <=? Datatypes.length (snippets ++ [snippet]))%nat; run;
    rewrite <- !app_assoc; reflexivity.
Qed.

(** C4.  For every page content, [start >= 0] and [length > 0], a successful
    [read_url] shows and records the slice of the content that begins at
    [start] and has at most [length] code units; the ellipsis is appended to
    the conversation turn, and [hasMore] is passed to the interface, exactly
    when [start + length] is below the length of the content.  With
    [start = 0] and [length = 1122], a page of 1500 units gives a slice of
    1122 units with [hasMore = true], and a page of 1000 units gives the whole
    page with [hasMore = false]. *)
Theorem read_url_slice (env : Env) (st : State) (url content : jsstring)
  (start length : Z) :
  validUrl (Some (JString url)) = Some url ->
  (0 <= start)%Z -> (0 < length)%Z ->
  readUrl env (clock st) url = Normal content ->
  let snippet : jsstring :=
    firstn (Z.to_nat length) (skipn (Z.to_nat start) content) in
  let hasMore := (start + length <? len content)%Z in
  exists st',
    read_url env (readArgs url start length) st = (st', Ok tt)
    /\ chatHistory st'
       = chatHistory st
         ++ [mkTurn assistant
                    (str "Read content from " ++ url ++ str ":" ++ LF ++ snippet
                     ++ (if hasMore then str "..." else []))]
    /\ In (addReadResult url snippet hasMore) (ui st')
    /\ readSnippets st' = readSnippets st ++ [snippet]
    /\ (len snippet <= length)%Z
    /\ (hasMore = true <-> (start + length < len content)%Z)
    /\ (start = 0%Z -> length = 1122%Z -> len content = 1500%Z ->
        len snippet = 1122%Z /\ hasMore = true)
    /\ (start = 0%Z -> length = 1122%Z -> len content = 1000%Z ->
        snippet = content /\ hasMore = false).
Proof.
  intros Hurl Hs Hl Hread snippet hasMore.
  eexists. split; [exact (read_url_run env st url content start length
                                       Hurl Hs Hl Hread)|].
  pose proof (len_slice_forward start length content Hs Hl) as Hlen.
  fold snippet in Hlen.
  split; [reflexivity|].
  split.
  { cbn [ui set_ui]. apply in_or_app. right. right. left. reflexivity. }
  split; [reflexivity|].
  split; [lia|].
  split; [apply Z.ltb_lt|].
  split.
  - intros -> -> Hc. split.
    + rewrite Hlen, Hc. reflexivity.
    + unfold hasMore. rewrite Hc. reflexivity.
  - intros -> -> Hc. split.
    + unfold snippet. simpl skipn. apply firstn_all2.
      unfold len in Hc. lia.
    + unfold hasMore. rewrite Hc. reflexivity.
Qed.

Lemma read_url_slice_witness :
  exists st',
    read_url (worldOf (pageOf 1500) (str "yes")) (readArgs exampleUrl 0 1122)
             started = (st', Ok tt)
    /\ lastOf (chatHistory st')
       = Some (mkTurn assistant
                      (str "Read content from " ++ exampleUrl ++ str ":" ++ LF
                       ++ pageOf 1122 ++ str "..."))
    /\ In (addReadResult exampleUrl (pageOf 1122) true) (ui st').
Proof.
  destruct (read_url_slice (worldOf (pageOf 1500) (str "yes")) started
                           exampleUrl (pageOf 1500) 0 1122)
    as [st' [Hrun [Hhistory [Hui _]]]];
    [reflexivity | lia | lia | reflexivity |].
  exists st'. split; [exact Hrun|]. split.
  - rewrite Hhistory. vm_compute. reflexivity.
  - exact Hui.
Defined.

(** ** The loop guard *)

Lemma eqb_eq (a b : jsstring) : JsString.eqb a b = true <-> a = b.
Proof.
  revert b. induction a as [|x a IH]; intros [|y b]; simpl;
    try (split; [discriminate | discriminate]); [tauto|].
  rewrite andb_true_iff, N.eqb_eq, IH.
  split; [intros [-> ->]; reflexivity | intros H; inversion H; auto].
Qed.

Lemma eqb_refl (a : jsstring) : JsString.eqb a a = true.
Proof. now apply eqb_eq. Qed.

Lemma eqb_neq (a b : jsstring) : JsString.eqb a b = false <-> a <> b.
Proof.
  rewrite <- eqb_eq. destruct (JsString.eqb a b); split; intros H.
  - discriminate.
  - now elim H.
  - discriminate.
  - reflexivity.
Qed.

Lemma loopGuard_repeat (signature : jsstring) (st : State) :
  lastToolCall st = Some signature ->
  loopGuard signature st = set_lastToolCallCount (lastToolCallCount st + 1) st.
Proof. intros H. unfold loopGuard. now rewrite H, eqb_refl. Qed.

Lemma loopGuard_fresh (signature : jsstring) (st : State) :
  lastToolCall st <> Some signature ->
  loopGuard signature st
  = set_lastToolCallCount 1 (set_lastToolCall (Some signature) st).
Proof.
  intros H. unfold loopGuard. destruct (lastToolCall st) as [previous|];
    [|reflexivity].
  destruct (JsString.eqb previous signature) eqn:E; [|reflexivity].
  apply eqb_eq in E. subst. now elim H.
Qed.

Lemma loopGuard_records (signature : jsstring) (st : State) :
  lastToolCall (loopGuard signature st) = Some signature.
Proof.
  unfold loopGuard. destruct (lastToolCall st) as [previous|] eqn:Hl;
    [|reflexivity].
  destruct (JsString.eqb previous signature) eqn:E; [|reflexivity].
  apply eqb_eq in E. subst. exact Hl.
Qed.

Lemma processToolCall_unfold (fuel : nat) (env : Env) (call : ToolCall) :
  processToolCall fuel env call
  = processToolCallBody fuel env (nestedCall fuel env) call.
Proof. destruct fuel; reflexivity. Qed.

Lemma processToolCall_guarded (fuel : nat) (env : Env) (call : ToolCall)
  (st : State) :
  let guarded := loopGuard (callSignature call) st in
  processToolCall fuel env call st
  = if (lastToolCallCount guarded >? MAX_TOOL_CALL_REPEAT)%Z
    then (set_ui (ui guarded ++ [addMessage ai loopDetected]) guarded, Ok tt)
    else executeToolCall fuel env (nestedCall fuel env) call guarded.
Proof.
  intros guarded. rewrite processToolCall_unfold. unfold processToolCallBody.
  run. fold guarded.
  destruct (lastToolCallCount guarded >? MAX_TOOL_CALL_REPEAT)%Z; reflexivity.
Qed.

Lemma executes_below (fuel : nat) (env : Env) (call : ToolCall) (st : State) :
  (lastToolCallCount (loopGuard (callSignature call) st) <= 3)%Z ->
  executes fuel env call st.
Proof.
  intros H. unfold executes. rewrite processToolCall_guarded.
  replace (_ >? _)%Z with false; [reflexivity|].
  symmetry. unfold MAX_TOOL_CALL_REPEAT. rewrite Z.gtb_ltb. apply Z.ltb_ge.
  exact H.
Qed.

Lemma aborts_above (fuel : nat) (env : Env) (call : ToolCall) (st : State) :
  (3 < lastToolCallCount (loopGuard (callSignature call) st))%Z ->
  aborts fuel env call st.
Proof.
  intros H. unfold aborts. rewrite processToolCall_guarded.
  replace (_ >? _)%Z with true; [reflexivity|].
  symmetry. unfold MAX_TOOL_CALL_REPEAT. rewrite Z.gtb_ltb. apply Z.ltb_lt. exact H.
Qed.

Lemma guardAfter_last (st : State) (signatures : list jsstring) :
  lastToolCall st = None ->
  match rev signatures with
  | [] => lastToolCall (guardAfter signatures st) = None
  | x :: earlier =>
      lastToolCall (guardAfter signatures st) = Some x
      /\ lastToolCallCount (guardAfter signatures st)
         = Z.of_nat (S (leadingCopies x earlier))
  end.
Proof.
  intros Hnone. induction signatures as [|y signatures IH] using rev_ind.
  - exact Hnone.
  - unfold guardAfter in *. rewrite fold_left_app, rev_app_distr. simpl.
    split; [apply loopGuard_records|].
    destruct (rev signatures) as [|x earlier].
    + rewrite loopGuard_fresh by (rewrite IH; discriminate). reflexivity.
    + destruct IH as [Hlast Hcount].
      destruct (JsString.eqb x y) eqn:E.
      * apply eqb_eq in E. subst y.
        rewrite (loopGuard_repeat x _ Hlast).
        cbn [lastToolCallCount set_lastToolCallCount leadingCopies].
        rewrite Hcount, eqb_refl. lia.
      * rewrite loopGuard_fresh.
        -- cbn [lastToolCallCount set_lastToolCallCount leadingCopies].
           now rewrite E.
        -- rewrite Hlast. intros X. apply eqb_neq in E. apply E. congruence.
Qed.

(** After any calls, the counter the guard reaches on the next call is one
    more than the number of immediately preceding calls with its signature. *)
Lemma guard_counts_repeats (st : State) (signatures : list jsstring)
  (signature : jsstring) :
  lastToolCall st = None ->
  lastToolCallCount (loopGuard signature (guardAfter signatures st))
  = Z.of_nat (S (repeatsAtEnd signature signatures)).
Proof.
  intros Hnone. pose proof (guardAfter_last st signatures Hnone) as H.
  unfold repeatsAtEnd. destruct (rev signatures) as [|x earlier].
  - rewrite loopGuard_fresh by (rewrite H; discriminate). reflexivity.
  - destruct H as [Hlast Hcount]. simpl.
    destruct (JsString.eqb x signature) eqn:E.
    + apply eqb_eq in E. subst x. rewrite (loopGuard_repeat _ _ Hlast).
      cbn [lastToolCallCount set_lastToolCallCount]. rewrite Hcount. lia.
    + rewrite loopGuard_fresh; [reflexivity|].
      rewrite Hlast. intros X. apply eqb_neq in E. apply E. congruence.
Qed.

Lemma loopGuard_sameGuard (signature : jsstring) (a b : State) :
  sameGuard a b ->
  lastToolCallCount (loopGuard signature a)
  = lastToolCallCount (loopGuard signature b).
Proof.
  intros [Hlast Hcount]. unfold loopGuard. rewrite Hlast.
  destruct (lastToolCall b) as [previous|]; [|reflexivity].
  destruct (JsString.eqb previous signature); simpl; [now rewrite Hcount|].
  reflexivity.
Qed.

(** The guard stops a call exactly when the three calls before it had its
    signature; calls further back do not count. *)
Lemma guard_stops_after_three (fuel : nat) (env : Env) (call : ToolCall)
  (signatures : list jsstring) (st0 st : State) :
  lastToolCall st0 = None ->
  sameGuard st (guardAfter signatures st0) ->
  (3 <= repeatsAtEnd (callSignature call) signatures ->
   aborts fuel env call st)
  /\ (repeatsAtEnd (callSignature call) signatures < 3 ->
      executes fuel env call st).
Proof.
  intros Hnone Hsame.
  pose proof (guard_counts_repeats st0 signatures (callSignature call) Hnone)
    as Hcount.
  rewrite <- (loopGuard_sameGuard _ st _ Hsame) in Hcount.
  split; intros H.
  - apply aborts_above. lia.
  - apply executes_below. lia.
Qed.

(** ** Calls that fail validation *)

Lemma runHandler_invalid (fuel : nat) (env : Env) (nested : ToolCall -> M unit)
  (call : ToolCall) (message : jsstring) (st : State) :
  validationError call = Some message ->
  runHandler fuel env nested (tool call) (arguments call) st
  = (set_ui (ui st ++ [addMessage ai message]) st, Ok tt).
Proof.
  unfold validationError, runHandler.
  destruct (arguments call) as [|b|n|s|items|members] eqn:Hargs;
    [discriminate| | | | |];
    destruct (lookupHandler (tool call)); try discriminate;
    unfold web_search, read_url, instant_answer, member;
    match goal with
    | |- match ?v with Some _ => _ | None => _ end = _ -> _ =>
        destruct v eqn:Hv; [discriminate|]
    end;
    intros H; inversion H; subst; run; rewrite Hv; reflexivity.
Qed.

(** C3, as the code has it.  When the arguments of a call fail validation and
    the loop guard lets the call through, the handler makes no request and
    appends nothing to the conversation; it shows the error message.  The call
    has counted toward the loop guard all the same: its signature is recorded,
    the repeat counter is advanced (by one after the same signature, to one
    otherwise), and the call is in the audit log. *)
Theorem invalid_call_counts (fuel : nat) (env : Env) (call : ToolCall)
  (message : jsstring) (st : State) :
  validationError call = Some message ->
  (lastToolCallCount (loopGuard (callSignature call) st) <= 3)%Z ->
  exists st',
    processToolCall fuel env call st
    = when (negb (skipContinue call))
           (continueReasoning env (nestedCall fuel env)) st'
    /\ ui st' = ui st ++ [addMessage ai message]
    /\ clock st' = clock st
    /\ chatHistory st' = chatHistory st
    /\ readSnippets st' = readSnippets st
    /\ toolCallHistory st'
       = toolCallHistory st
         ++ [mkRecord (tool call) (arguments call) (now env (clock st))]
    /\ lastToolCall st' = Some (callSignature call)
    /\ (lastToolCall st = Some (callSignature call) ->
        lastToolCallCount st' = (lastToolCallCount st + 1)%Z)
    /\ (lastToolCall st <> Some (callSignature call) ->
        lastToolCallCount st' = 1%Z).
Proof.
  intros Hinvalid Hpass.
  pose proof (executes_below fuel env call st Hpass) as Hexec.
  unfold executes in Hexec. rewrite Hexec. clear Hexec.
  set (guarded := loopGuard (callSignature call) st).
  set (logged := set_toolCallHistory
                   (toolCallHistory guarded
                    ++ [mkRecord (tool call) (arguments call)
                                 (now env (clock guarded))]) guarded).
  exists (set_ui (ui logged ++ [addMessage ai message]) logged).
  split.
  - unfold executeToolCall. run. fold logged.
    rewrite (runHandler_invalid fuel env _ call message logged Hinvalid).
    reflexivity.
  - assert (Hframe : ui guarded = ui st /\ clock guarded = clock st
                     /\ chatHistory guarded = chatHistory st
                     /\ readSnippets guarded = readSnippets st
                     /\ toolCallHistory guarded = toolCallHistory st).
    { subst guarded. unfold loopGuard.
      destruct (lastToolCall st) as [previous|];
        [destruct (JsString.eqb previous (callSignature call))|];
        repeat split; reflexivity. }
    destruct Hframe as [Hui [Hclock [Hchat [Hread Hlog]]]].
    subst logged. cbn [ui clock chatHistory readSnippets toolCallHistory
                       lastToolCall lastToolCallCount
                       set_ui set_toolCallHistory].
    rewrite Hui, Hclock, Hchat, Hread, Hlog.
    repeat split; try reflexivity.
    + apply loopGuard_records.
    + intros Hsame. subst guarded. rewrite (loopGuard_repeat _ st Hsame).
      reflexivity.
    + intros Hfresh. subst guarded. rewrite (loopGuard_fresh _ st Hfresh).
      reflexivity.
Qed.

Lemma invalid_call_counts_witness :
  let st' := fst (processToolCall 1 exampleWorld invalidRead started) in
  ui st' = ui started ++ [addMessage ai (str "Error: Invalid read_url argument.")]
  /\ clock st' = clock started
  /\ lastToolCall st' = Some (callSignature invalidRead)
  /\ lastToolCallCount st' = 1%Z.
Proof.
  intros st'.
  destruct (invalid_call_counts 1 exampleWorld invalidRead
              (str "Error: Invalid read_url argument.") started)
    as [st'' [Hrun [Hui [Hclock [_ [_ [_ [Hlast [_ Hcount]]]]]]]]].
  - vm_compute. reflexivity.
  - vm_compute. discriminate.
  - assert (E : st' = st'') by (subst st'; rewrite Hrun; reflexivity).
    rewrite E. repeat split; try assumption.
    apply Hcount. vm_compute. discriminate.
Defined.

(** C3, as the claim states it, fails: a [read_url] call with an address that
    is not a web address reaches no service, yet after it the loop guard holds
    its signature and the repeat counter has gone from 0 to 1; the fourth such
    call in a row is stopped by the guard. *)
Lemma invalid_call_is_recorded :
  let run := fun st => fst (processToolCall 1 exampleWorld invalidRead st) in
  validUrl (getProp (str "url") (arguments invalidRead)) = None
  /\ lastToolCall started = None
  /\ lastToolCallCount started = 0%Z
  /\ clock (run started) = clock started
  /\ lastToolCall (run started) = Some (callSignature invalidRead)
  /\ lastToolCallCount (run started) = 1%Z
  /\ lastOf (ui (run (run (run (run started)))))
     = Some (addMessage ai loopDetected).
Proof.
  vm_compute. repeat split; reflexivity.
Qed.

(** ** Deep reading *)

Lemma lastOf_snoc {A : Type} (l : list A) (x : A) : lastOf (l ++ [x]) = Some x.
Proof. unfold lastOf. rewrite map_app. simpl. apply last_last. Qed.

Lemma split_nonempty (sep : codeunit) (s : jsstring) : split sep s <> [].
Proof.
  induction s as [|c t IH]; simpl; [discriminate|].
  destruct (c =? sep)%N; [discriminate|].
  destruct (split sep t); [now elim IH | discriminate].
Qed.

Lemma join_split (sep : codeunit) (s : jsstring) :
  join [sep] (split sep s) = s.
Proof.
  induction s as [|c t IH]; simpl; [reflexivity|].
  destruct (c =? sep)%N eqn:E.
  - apply N.eqb_eq in E. subst c.
    pose proof (split_nonempty sep t) as Hne.
    destruct (split sep t) as [|piece rest]; [now elim Hne|].
    simpl in *. now rewrite IH.
  - pose proof (split_nonempty sep t) as Hne.
    destruct (split sep t) as [|piece rest]; [now elim Hne|].
    destruct rest as [|piece' rest]; simpl in *; now rewrite <- IH.
Qed.

Lemma freeOf_app (c : codeunit) (a b : jsstring) :
  freeOf c (a ++ b) = freeOf c a && freeOf c b.
Proof. apply forallb_app. Qed.

Lemma split_prefix (sep : codeunit) (a b : jsstring) :
  freeOf sep a = true -> split sep (a ++ sep :: b) = a :: split sep b.
Proof.
  induction a as [|x a IH]; simpl; intros H.
  - now rewrite N.eqb_refl.
  - apply andb_true_iff in H. destruct H as [Hx Ha].
    apply negb_true_iff in Hx. rewrite Hx, (IH Ha). reflexivity.
Qed.

Lemma eqb_app_l (p a b : jsstring) :
  JsString.eqb (p ++ a) (p ++ b) = JsString.eqb a b.
Proof.
  induction p as [|x p IH]; simpl; [reflexivity|].
  now rewrite N.eqb_refl, IH.
Qed.

Lemma cacheGet_cacheSet_same (key value : jsstring)
  (cache : list (jsstring * jsstring)) :
  cacheGet key (cacheSet key value cache) = Some value.
Proof.
  induction cache as [|[k v] rest IH]; simpl.
  - now rewrite eqb_refl.
  - destruct (JsString.eqb key k) eqn:E; simpl; rewrite E; [reflexivity | exact IH].
Qed.

Lemma cacheGet_cacheSet_other (key other value : jsstring)
  (cache : list (jsstring * jsstring)) :
  JsString.eqb key other = false ->
  cacheGet key (cacheSet other value cache) = cacheGet key cache.
Proof.
  intros Hne. induction cache as [|[k v] rest IH]; simpl.
  - now rewrite Hne.
  - destruct (JsString.eqb other k) eqn:E; simpl.
    + apply eqb_eq in E. subst k. now rewrite Hne.
    + now rewrite IH.
Qed.

Lemma len_chunkOf (page : jsstring) (start size : Z) :
  (0 <= start)%Z -> (0 < size)%Z ->
  len (chunkOf page start size)
  = if (start + size <? len page)%Z then (size + 3)%Z
    else Z.max 0 (len page - start).
Proof.
  intros Hs Hz. unfold chunkOf. rewrite len_app.
  rewrite (len_slice_forward start size page Hs Hz).
  destruct (start + size <? len page)%Z eqn:E.
  - apply Z.ltb_lt in E. change (len (str "...")) with 3%Z. lia.
  - apply Z.ltb_ge in E. change (len []) with 0%Z. lia.
Qed.

Lemma readCall_run (fuel : nat) (env : Env) (url page : jsstring)
  (start size : Z) (st : State) :
  validUrl (Some (JString url)) = Some url ->
  (0 <= start)%Z -> (0 < size)%Z ->
  readUrl env (clock st) url = Normal page ->
  lastToolCall st <> Some (callSignature (readCall url start size)) ->
  exists st',
    processToolCall fuel env (readCall url start size) st = (st', Ok tt)
    /\ lastOf (chatHistory st')
       = Some (mkTurn assistant
                 (str "Read content from " ++ url ++ str ":" ++ LF
                  ++ chunkOf page start size))
    /\ readCache st' = readCache st
    /\ lastToolCall st' = Some (callSignature (readCall url start size))
    /\ length (toolCallHistory st') = S (length (toolCallHistory st)).
Proof.
  intros Hurl Hs Hz Hpage Hfresh.
  pose proof (executes_below fuel env (readCall url start size) st) as Hexec.
  rewrite (loopGuard_fresh _ st Hfresh) in Hexec.
  specialize (Hexec ltac:(cbn [lastToolCallCount set_lastToolCallCount]; lia)).
  unfold executes in Hexec. rewrite Hexec. clear Hexec.
  rewrite (loopGuard_fresh _ st Hfresh).
  unfold executeToolCall, runHandler.
  change (lookupHandler (tool (readCall url start size))) with handler_read_url.
  change (arguments (readCall url start size)) with (readArgs url start size).
  change (skipContinue (readCall url start size)) with true.
  run.
  match goal with
  | |- context [read_url env _ ?s] =>
      pose proof (read_url_run env s url page start size Hurl Hs Hz) as Hrun
  end.
  cbn [clock set_toolCallHistory set_lastToolCallCount set_lastToolCall] in Hrun.
  specialize (Hrun Hpage). cbv zeta in Hrun. rewrite Hrun. clear Hrun.
  eexists. split; [reflexivity|].
  cbn [chatHistory readCache lastToolCall toolCallHistory set_ui
       set_readSnippets set_chatHistory set_clock set_toolCallHistory
       set_lastToolCallCount set_lastToolCall].
  split; [|split; [reflexivity|split; [reflexivity|]]].
  - rewrite lastOf_snoc. unfold readTurn, chunkOf. reflexivity.
  - rewrite length_app. simpl. lia.
Qed.

Lemma startsWith_app (p s : jsstring) : startsWith p (p ++ s) = true.
Proof.
  induction p as [|x p IH]; simpl; [reflexivity|].
  now rewrite N.eqb_refl, IH.
Qed.

Lemma readTurn_recognised (url chunk : jsstring) :
  startsWith (str "Read content from")
             (str "Read content from " ++ url ++ str ":" ++ LF ++ chunk) = true.
Proof.
  change (str "Read content from " ++ url ++ str ":" ++ LF ++ chunk)
    with (str "Read content from"
          ++ (str " " ++ url ++ str ":" ++ LF ++ chunk)).
  apply startsWith_app.
Qed.

Lemma readTurn_snippet (url chunk : jsstring) :
  freeOf 10%N url = true ->
  join LF (tl (split 10%N (str "Read content from " ++ url ++ str ":" ++ LF
                           ++ chunk)))
  = chunk.
Proof.
  intros Hline.
  replace (str "Read content from " ++ url ++ str ":" ++ LF ++ chunk)
    with ((str "Read content from " ++ url ++ str ":") ++ 10%N :: chunk)
    by (rewrite <- !app_assoc; reflexivity).
  rewrite split_prefix.
  - cbn [tl]. apply join_split.
  - rewrite !freeOf_app, Hline. reflexivity.
Qed.

Lemma match_nonEmpty {A B : Type} (l : list A) (a b : B) :
  l <> [] -> match l with [] => a | _ :: _ => b end = b.
Proof. destruct l; [intros H; now elim H | reflexivity]. Qed.

Lemma len_positive_nonEmpty (s : jsstring) : (0 < len s)%Z -> s <> [].
Proof. intros H E. subst s. unfold len in H. simpl in H. lia. Qed.

Lemma readCall_signature (url : jsstring) (start size : Z) :
  callSignature (readCall url start size)
  = txt "{`tool`:`read_url`,`args`:{`url`:`" ++ quoteChars url
    ++ signatureTail start size.
Proof.
  unfold callSignature, readCall, stringify, signatureTail.
  cbn [tool arguments serialize map].
  generalize (JsNumber.toString (JsNumber.ofZ start)) as startText.
  generalize (JsNumber.toString (JsNumber.ofZ size)) as sizeText.
  intros sizeText startText. unfold str, txt. simpl.
  repeat (rewrite <- !app_assoc; simpl). reflexivity.
Qed.

Lemma readCall_signature_distinct (url : jsstring) (a b size : Z) :
  JsString.eqb (signatureTail a size) (signatureTail b size) = false ->
  callSignature (readCall url a size) <> callSignature (readCall url b size).
Proof.
  intros H. apply eqb_neq. rewrite !readCall_signature.
  now rewrite !eqb_app_l.
Qed.

Lemma cacheKey_distinct (url : jsstring) (a b size : Z) :
  JsString.eqb (str ":" ++ showZ a ++ str ":" ++ showZ size)
               (str ":" ++ showZ b ++ str ":" ++ showZ size) = false ->
  JsString.eqb (cacheKeyOf url a size) (cacheKeyOf url b size) = false.
Proof. intros H. unfold cacheKeyOf. now rewrite eqb_app_l. Qed.

Lemma Some_neq {A : Type} (a b : A) : a <> b -> Some a <> Some b.
Proof. intros H E. apply H. now inversion E. Qed.

Section DeepRead.

Variables (fuel : nat) (env : Env) (url page : jsstring).
Hypothesis Hurl : validUrl (Some (JString url)) = Some url.
Hypothesis Hline : freeOf 10%N url = true.
Hypothesis Hpage : forall t, readUrl env t url = Normal page.
Hypothesis Hmodel : forall t, isGpt (selectedModel env t) = true.
Hypothesis Hyes : saysYes env.

Local Abbreviation loop := (readLoop fuel env url).

Lemma deepRead_iteration (n : nat) (v : DeepRead) (st : State) :
  shouldContinue v = true ->
  (chunkCount v < 5)%Z ->
  (totalLength v < 10000)%Z ->
  (0 <= start v)%Z ->
  chunkOf page (start v) 2000 <> [] ->
  cacheGet (cacheKeyOf url (start v) 2000) (readCache st) = None ->
  lastToolCall st <> Some (callSignature (readCall url (start v) 2000)) ->
  let chunk := chunkOf page (start v) 2000 in
  let total := (totalLength v + len chunk)%Z in
  exists st',
    loop (S n) v st
    = loop n (if (total <? 10000)%Z
              then mkDeepRead (allChunks v ++ [chunk]) (start v + 2000) true
                              (chunkCount v + 1) total
              else mkDeepRead (allChunks v ++ [chunk]) (start v) false
                              (chunkCount v) total)
           st'
    /\ readCache st'
       = cacheSet (cacheKeyOf url (start v) 2000) chunk (readCache st)
    /\ lastToolCall st' = Some (callSignature (readCall url (start v) 2000))
    /\ length (toolCallHistory st') = S (length (toolCallHistory st)).
Proof.
  intros Hgo Hcount Htotal Hstart Hsome Hcache Hfresh chunk total.
  destruct (readCall_run fuel env url page (start v) 2000 st Hurl Hstart
              ltac:(lia) (Hpage _) Hfresh)
    as [st1 [Hrun [Hlast [Hcache1 [Hcall1 Hlog1]]]]].
  fold chunk in Hlast.
  unfold readLoop. cbn [deepReadLoop].
  rewrite Hgo.
  replace (chunkCount v <? 5)%Z with true by (symmetry; apply Z.ltb_lt; lia).
  replace (totalLength v <? 10000)%Z with true by (symmetry; apply Z.ltb_lt; lia).
  cbn [andb].
  fold (cacheKeyOf url (start v) 2000).
  run. rewrite Hcache, Hrun. run. rewrite Hlast.
  cbn [content]. rewrite readTurn_recognised, (readTurn_snippet url chunk Hline).
  run.
  rewrite (match_nonEmpty chunk _ _ Hsome). rewrite Hmodel.
  match goal with
  | |- context [sendOpenAIRequest env ?t ?model ?messages None] =>
      destruct (Hyes t model messages None) as [r [c [Hsend [Hreply Hsays]]]];
      rewrite Hsend
  end.
  unfold replyContent. rewrite Hreply. run. rewrite Hsays.
  cbn [andb allChunks start chunkCount totalLength].
  fold total.
  eexists. split; [destruct (total <? 10000)%Z; reflexivity|].
  cbn [readCache lastToolCall toolCallHistory set_clock set_readCache].
  rewrite Hcache1, Hcall1, Hlog1. repeat split; reflexivity.
Qed.

Hypothesis Hlen : len page = 10000%Z.

Lemma chunk_length (k : Z) :
  (0 <= k)%Z ->
  len (chunkOf page k 2000)
  = if (k <? 8000)%Z then 2003%Z else Z.max 0 (10000 - k).
Proof.
  intros Hk. rewrite (len_chunkOf page k 2000 Hk ltac:(lia)), Hlen.
  destruct (k <? 8000)%Z eqn:E.
  - apply Z.ltb_lt in E.
    replace (k + 2000 <? 10000)%Z with true by (symmetry; apply Z.ltb_lt; lia).
    reflexivity.
  - apply Z.ltb_ge in E.
    replace (k + 2000 <? 10000)%Z with false by (symmetry; apply Z.ltb_ge; lia).
    reflexivity.
Qed.

Ltac arith :=
  cbn [Z.add Pos.add Pos.succ Pos.add_carry Z.ltb Z.compare Pos.compare
       Pos.compare_cont Z.max Z.sub Z.opp Z.pos_sub Pos.pred_double
       Z.succ_double Z.pred_double Z.double app
       allChunks start chunkCount totalLength shouldContinue].

Ltac arith_in H :=
  cbn [Z.add Pos.add Pos.succ Pos.add_carry Z.ltb Z.compare Pos.compare
       Pos.compare_cont Z.max Z.sub Z.opp Z.pos_sub Pos.pred_double
       Z.succ_double Z.pred_double Z.double app
       allChunks start chunkCount totalLength shouldContinue] in H.

Ltac deepStep Hchunk Hempty :=
  lazymatch goal with
  | |- ex (fun x => ?f (S ?n) ?v ?st = @?rhs x /\ @?more x) =>
      let st' := fresh "st" in
      let E := fresh "E" in
      let C := fresh "C" in
      let L := fresh "L" in
      let T := fresh "T" in
      destruct (deepRead_iteration n v st) as [st' [E [C [L T]]]];
      [ reflexivity | cbn; lia | cbn; lia | cbn; lia
      | apply Hchunk; cbn; lia
      | arith;
        repeat (match goal with
                | H : readCache ?s = _ |- context [readCache ?s] => rewrite H
                end;
                rewrite cacheGet_cacheSet_other
                  by (apply cacheKey_distinct; vm_compute; reflexivity));
        apply Hempty
      | arith;
        try match goal with
            | H : lastToolCall ?s = _ |- lastToolCall ?s <> _ =>
                rewrite H; apply Some_neq, readCall_signature_distinct;
                vm_compute; reflexivity
            end
      | arith; arith_in E; arith_in C; arith_in L;
        rewrite E, chunk_length by lia; arith ]
  end.

Lemma deepRead_readLoop :
  deepRead env (processToolCall fuel env) url 5 2000 10000
  = loop 5 (mkDeepRead [] 0 true 0 0).
Proof. unfold deepRead, readLoop. reflexivity. Qed.

Lemma deepRead_run (st : State) :
  (forall k, cacheGet (cacheKeyOf url k 2000) (readCache st) = None) ->
  lastToolCall st <> Some (callSignature (readCall url 0 2000)) ->
  exists st',
    deepRead env (processToolCall fuel env) url 5 2000 10000 st
    = (st', Ok (mkDeepRead [ chunkOf page 0 2000; chunkOf page 2000 2000;
                              chunkOf page 4000 2000; chunkOf page 6000 2000;
                              chunkOf page 8000 2000 ]
                           8000 false 4 10012))
    /\ length (toolCallHistory st') = 5 + length (toolCallHistory st).
Proof.
  intros Hempty Hfresh.
  rewrite deepRead_readLoop.
  assert (Hchunk : forall k, (0 <= k <= 8000)%Z -> chunkOf page k 2000 <> []).
  { intros k Hk. apply len_positive_nonEmpty. rewrite chunk_length by lia.
    destruct (k <? 8000)%Z; lia. }
  deepStep Hchunk Hempty; [exact Hfresh|].
  deepStep Hchunk Hempty.
  deepStep Hchunk Hempty.
  deepStep Hchunk Hempty.
  deepStep Hchunk Hempty.
  unfold readLoop. cbn [deepReadLoop shouldContinue andb]. eexists.
  split; [reflexivity|]. lia.
Qed.
End DeepRead.

(** C5, as the code has it.  On a page of 10000 code units, with chunks of
    2000, at most 5 chunks and a budget of 10000, and a model that says yes
    after every chunk, [deepReadUrl] makes exactly five [read_url] calls and
    returns the five chunks (the first four carry the ellipsis of their
    conversation turn).  The loop is over because the cumulative length,
    10012, has reached the budget: the test after the fifth chunk clears
    [shouldContinue], and the chunk count stands at 4, below its cap. *)
Theorem deepRead_stops_on_length (fuel : nat) (env : Env) (url page : jsstring)
  (st : State) :
  len page = 10000%Z ->
  validUrl (Some (JString url)) = Some url ->
  freeOf 10%N url = true ->
  (forall t, readUrl env t url = Normal page) ->
  (forall t, isGpt (selectedModel env t) = true) ->
  saysYes env ->
  (forall k, cacheGet (cacheKeyOf url k 2000) (readCache st) = None) ->
  lastToolCall st <> Some (callSignature (readCall url 0 2000)) ->
  exists st' v,
    deepRead env (processToolCall fuel env) url 5 2000 10000 st = (st', Ok v)
    /\ deepReadUrl env (processToolCall fuel env) url 5 2000 10000 st
       = (st', Ok (allChunks v))
    /\ allChunks v = [ chunkOf page 0 2000; chunkOf page 2000 2000;
                       chunkOf page 4000 2000; chunkOf page 6000 2000;
                       chunkOf page 8000 2000 ]
    /\ length (toolCallHistory st') = 5 + length (toolCallHistory st)
    /\ shouldContinue v = false
    /\ chunkCount v = 4%Z
    /\ totalLength v = 10012%Z
    /\ chunkCapReached 5 v = false
    /\ lengthCapReached 10000 v = true.
Proof.
  intros Hlen Hurl Hline Hpage Hmodel Hyes Hempty Hfresh.
  destruct (deepRead_run fuel env url page Hurl Hline Hpage Hmodel Hyes Hlen
                         st Hempty Hfresh) as [st' [Hrun Hlog]].
  eexists. eexists. split; [exact Hrun|].
  split; [unfold deepReadUrl, bind; rewrite Hrun; reflexivity|].
  repeat split; try reflexivity. exact Hlog.
Qed.

Lemma deepRead_stops_on_length_witness :
  exists st' v,
    deepRead (worldOf (pageOf 10000) (str "YES, about 2000 more."))
             (processToolCall 1 (worldOf (pageOf 10000)
                                         (str "YES, about 2000 more.")))
             exampleUrl 5 2000 10000 started = (st', Ok v)
    /\ length (allChunks v) = 5
    /\ chunkCount v = 4%Z
    /\ totalLength v = 10012%Z.
Proof.
  destruct (deepRead_stops_on_length
              1 (worldOf (pageOf 10000) (str "YES, about 2000 more."))
              exampleUrl (pageOf 10000) started)
    as [st' [v [Hrun [_ [Hchunks [_ [_ [Hcount [Htotal _]]]]]]]]].
  - vm_compute. reflexivity.
  - reflexivity.
  - reflexivity.
  - intros t. reflexivity.
  - intros t. reflexivity.
  - intros t model messages timeout. eexists. eexists.
    split; [reflexivity|]. split; [reflexivity|]. vm_compute. reflexivity.
  - intros k. reflexivity.
  - vm_compute. discriminate.
  - exists st', v. split; [exact Hrun|].
    split; [rewrite Hchunks; reflexivity|]. split; assumption.
Defined.

(** C5, as the claim states it, fails on its last part: after the five
    chunks the chunk count is 4, so the cap of 5 chunks has not been reached;
    what is reached is the length budget. *)
Lemma deepRead_not_stopped_by_chunk_cap :
  exists v,
    snd (deepRead (worldOf (pageOf 10000) (str "yes"))
                  (processToolCall 1 (worldOf (pageOf 10000) (str "yes")))
                  exampleUrl 5 2000 10000 started) = Ok v
    /\ length (allChunks v) = 5
    /\ chunkCount v = 4%Z
    /\ chunkCapReached 5 v = false
    /\ lengthCapReached 10000 v = true.
Proof.
  eexists. split; [vm_compute; reflexivity|].
  repeat split; reflexivity.
Qed.

(** ** The conversation log only grows *)

Lemma extends_refl (h : list Turn) : extends h h.
Proof. exists []. split; [now rewrite app_nil_r | constructor]. Qed.

Lemma extends_trans (a b c : list Turn) :
  extends a b -> extends b c -> extends a c.
Proof.
  intros [x [Hx Fx]] [y [Hy Fy]]. exists (x ++ y). split.
  - now rewrite Hy, Hx, app_assoc.
  - apply Forall_app. now split.
Qed.

Lemma extends_push (h : list Turn) (r : Role) (c : jsstring) :
  r <> system -> extends h (h ++ [mkTurn r c]).
Proof.
  intros Hr. exists [mkTurn r c]. split; [reflexivity|].
  constructor; [exact Hr | constructor].
Qed.

Lemma systemFirstOnly_extends (a b : list Turn) :
  systemFirstOnly a -> extends a b -> systemFirstOnly b.
Proof.
  intros [rest [Ha Fr]] [added [Hb Fa]]. exists (rest ++ added). split.
  - now rewrite Hb, Ha.
  - apply Forall_app. now split.
Qed.

Lemma appends_ret {A : Type} (a : A) : appends (ret a).
Proof. intros st. apply extends_refl. Qed.

Lemma appends_throw {A : Type} (e : jsstring) : appends (@throw A e).
Proof. intros st. apply extends_refl. Qed.

Lemma appends_diverge {A : Type} : appends (@diverge A).
Proof. intros st. apply extends_refl. Qed.

Lemma appends_gets {A : Type} (f : State -> A) : appends (gets f).
Proof. intros st. apply extends_refl. Qed.

Lemma appends_ask {A : Type} (f : nat -> A) : appends (ask f).
Proof. intros st. apply extends_refl. Qed.

Lemma appends_lift {A : Type} (c : Completion A) : appends (lift c).
Proof. destruct c; [apply appends_ret | apply appends_throw]. Qed.

Lemma appends_modify (f : State -> State) :
  (forall st, chatHistory (f st) = chatHistory st) -> appends (modify f).
Proof. intros H st. simpl. rewrite H. apply extends_refl. Qed.

Lemma appends_UI (e : UIEvent) : appends (UI e).
Proof. apply appends_modify. reflexivity. Qed.

Lemma appends_addTokens (n : Z) : appends (addTokens n).
Proof. apply appends_modify. reflexivity. Qed.

Lemma appends_pushTurn (r : Role) (c : jsstring) :
  r <> system -> appends (pushTurn r c).
Proof. intros Hr st. simpl. now apply extends_push. Qed.

Lemma appends_bind {A B : Type} (m : M A) (k : A -> M B) :
  appends m -> (forall a, appends (k a)) -> appends (bind m k).
Proof.
  intros Hm Hk st. unfold bind. specialize (Hm st).
  destruct (m st) as [st' [a|e|]]; simpl in *; [|assumption|assumption].
  eapply extends_trans; [exact Hm | apply Hk].
Qed.

Lemma appends_try_catch {A : Type} (body : M A) (handler : jsstring -> M A) :
  appends body -> (forall e, appends (handler e)) ->
  appends (try_catch body handler).
Proof.
  intros Hb Hh st. unfold try_catch. specialize (Hb st).
  destruct (body st) as [st' [a|e|]]; simpl in *; [assumption| |assumption].
  eapply extends_trans; [exact Hb | apply Hh].
Qed.

Lemma appends_try_finally {A : Type} (body : M A) (cleanup : M unit) :
  appends body -> appends cleanup -> appends (try_finally body cleanup).
Proof.
  intros Hb Hc st. unfold try_finally. specialize (Hb st).
  destruct (body st) as [st' [a|e|]]; simpl in *; [| |assumption];
    specialize (Hc st'); destruct (cleanup st') as [st'' [u|e'|]]; simpl in *;
    eapply extends_trans; eassumption.
Qed.

Lemma appends_when (c : bool) (body : M unit) :
  appends body -> appends (when c body).
Proof. intros H. destruct c; [exact H | apply appends_ret]. Qed.

Lemma appends_forEach {A : Type} (xs : list A) (body : A -> M unit) :
  (forall x, appends (body x)) -> appends (forEach xs body).
Proof.
  intros H. induction xs as [|x rest IH]; simpl; [apply appends_ret|].
  apply appends_bind; [apply H | intros _; exact IH].
Qed.

Lemma appends_await {A : Type} (answer : nat -> Completion A) :
  appends (await answer).
Proof.
  intros st. unfold await. destruct (answer (clock st)); apply extends_refl.
Qed.

Lemma appends_awaitStream {A B : Type} (answer : nat -> list A * Completion B)
  (callback : A -> M unit) :
  (forall a, appends (callback a)) -> appends (awaitStream answer callback).
Proof.
  intros H st. unfold awaitStream.
  destruct (answer (clock st)) as [streamed outcome].
  pose proof (appends_bind (forEach streamed callback) (fun _ => lift outcome)
                (appends_forEach streamed callback H)
                (fun _ => appends_lift outcome)
                (set_clock (S (clock st)) st)) as Hrun.
  exact Hrun.
Qed.

(** One step of the proof that a computation only appends. *)
Ltac appends_step :=
  match goal with
  | |- appends (bind _ _) => apply appends_bind; [|intros ?]
  | |- appends (ret _) => apply appends_ret
  | |- appends (throw _) => apply appends_throw
  | |- appends diverge => apply appends_diverge
  | |- appends (gets _) => apply appends_gets
  | |- appends (ask _) => apply appends_ask
  | |- appends (lift _) => apply appends_lift
  | |- appends (UI _) => apply appends_UI
  | |- appends (addTokens _) => apply appends_addTokens
  | |- appends (pushTurn _ _) => apply appends_pushTurn; discriminate
  | |- appends (modify _) => apply appends_modify; intros ?; reflexivity
  | |- appends (when _ _) => apply appends_when
  | |- appends (try_catch _ _) => apply appends_try_catch; [|intros ?]
  | |- appends (try_finally _ _) => apply appends_try_finally
  | |- appends (await _) => apply appends_await
  | |- appends (awaitStream _ _) => apply appends_awaitStream; intros ?
  | |- appends (forEach _ _) => apply appends_forEach; intros ?
  | |- appends (if ?c then _ else _) => destruct c
  | |- appends (match ?x with _ => _ end) => destruct x
  | |- appends _ => assumption
  end.

Ltac appends_auto := repeat appends_step.

Lemma appends_processCoTResponse (response : jsstring) :
  appends (processCoTResponse response).
Proof. unfold processCoTResponse. appends_auto. Qed.

Lemma appends_onChunk (handle : nat) (fullText : jsstring) :
  appends (onChunk handle fullText).
Proof. unfold onChunk. appends_auto. Qed.

Lemma appends_newAIMessage : appends newAIMessage.
Proof. unfold newAIMessage. appends_auto. Qed.

Lemma appends_summarizeBatches (env : Env) (model : jsstring)
  (round totalBatches : Z) (batches : list (list jsstring)) :
  forall i batchSummaries,
    appends (summarizeBatches env model round totalBatches i batches
                              batchSummaries).
Proof.
  induction batches as [|batch rest IH]; intros i batchSummaries; simpl.
  - apply appends_ret.
  - appends_auto. apply IH.
Qed.

Lemma appends_summarizeSnippets (fuel : nat) (env : Env) :
  forall snippets round, appends (summarizeSnippets fuel env snippets round).
Proof.
  induction fuel as [|fuel IH]; intros snippets round; simpl.
  - apply appends_diverge.
  - unfold summarizationFailed.
    apply appends_bind; [destruct snippets; appends_auto|].
    intros l. destruct l as [|only [|second more]].
    + apply appends_ret.
    + appends_auto.
    + appends_auto; try apply appends_summarizeBatches; apply IH.
Qed.

Lemma appends_read_url (env : Env) (args : JSON) : appends (read_url env args).
Proof. unfold read_url. appends_auto. Qed.

Lemma appends_instant_answer (env : Env) (args : JSON) :
  appends (instant_answer env args).
Proof. unfold instant_answer. appends_auto. Qed.

Section AppendsWithNestedCalls.

Variable env : Env.
Variable nested : ToolCall -> M unit.
Hypothesis nested_appends : forall call, appends (nested call).

Lemma appends_deepReadLoop (url : jsstring)
  (maxChunks chunkSize maxTotalLength : Z) (n : nat) :
  forall v,
    appends (deepReadLoop n env nested url maxChunks chunkSize maxTotalLength v).
Proof.
  induction n as [|n IH]; intros v; simpl.
  - appends_auto.
  - destruct (shouldContinue v && (chunkCount v <? maxChunks)%Z
              && (totalLength v <? maxTotalLength)%Z); [|apply appends_ret].
    apply appends_bind; [apply appends_gets|]. intros cached.
    apply appends_bind.
    + destruct cached; [apply appends_ret|].
      apply appends_bind; [apply nested_appends|]. intros _. appends_auto.
    + intros snippet. destruct snippet as [|unit more]; [apply appends_ret|].
      appends_auto; apply IH.
Qed.

Lemma appends_deepReadUrl (url : jsstring)
  (maxChunks chunkSize maxTotalLength : Z) :
  appends (deepReadUrl env nested url maxChunks chunkSize maxTotalLength).
Proof.
  unfold deepReadUrl, deepRead.
  apply appends_bind; [apply appends_deepReadLoop | intros v; apply appends_ret].
Qed.

Lemma appends_readSuggested (total : Z) (urlsToRead : list (Z * jsstring)) :
  appends (readSuggested env nested total urlsToRead).
Proof.
  induction urlsToRead as [|[i url] rest IH]; simpl; [apply appends_ret|].
  apply appends_bind; [apply appends_UI|]. intros _.
  apply appends_bind; [apply appends_deepReadUrl | intros _; exact IH].
Qed.

Lemma appends_autoRead (fuel : nat) (aiReply : jsstring) :
  appends (autoReadAndSummarizeFromSuggestion fuel env nested aiReply).
Proof.
  unfold autoReadAndSummarizeFromSuggestion.
  appends_auto;
    try apply appends_readSuggested; apply appends_summarizeSnippets.
Qed.

Lemma appends_suggestResultsToRead (fuel : nat) (results : list SearchResult)
  (query : jsstring) :
  appends (suggestResultsToRead fuel env nested results query).
Proof.
  unfold suggestResultsToRead. appends_auto; apply appends_autoRead.
Qed.

Lemma appends_web_search (fuel : nat) (args : JSON) :
  appends (web_search fuel env nested args).
Proof.
  unfold web_search. appends_auto; apply appends_suggestResultsToRead.
Qed.

Lemma appends_runHandler (fuel : nat) (tool args : JSON) :
  appends (runHandler fuel env nested tool args).
Proof.
  unfold runHandler. destruct (lookupHandler tool).
  - apply appends_web_search.
  - apply appends_read_url.
  - apply appends_instant_answer.
  - apply appends_ret.
  - apply appends_throw.
Qed.

Lemma appends_completeReply (text : jsstring) :
  appends (completeReply nested text).
Proof.
  unfold completeReply. appends_auto;
    try apply nested_appends; apply appends_processCoTResponse.
Qed.

Lemma appends_streamedReply
  (stream : nat -> jsstring -> list Turn -> list jsstring * Completion jsstring)
  (model : jsstring) :
  appends (streamedReply nested env stream model).
Proof.
  unfold streamedReply.
  apply appends_bind; [apply appends_newAIMessage|]. intros handle.
  appends_auto;
    try apply nested_appends; try apply appends_onChunk;
    apply appends_processCoTResponse.
Qed.

Lemma appends_handleOpenAIMessage (model message : jsstring) :
  appends (handleOpenAIMessage nested env model message).
Proof.
  unfold handleOpenAIMessage.
  appends_auto; try apply appends_streamedReply; apply appends_completeReply.
Qed.

Lemma appends_handleGeminiMessage (model message : jsstring) :
  appends (handleGeminiMessage nested env model message).
Proof.
  unfold handleGeminiMessage.
  appends_auto; try apply appends_streamedReply; apply appends_completeReply.
Qed.

Lemma appends_continueReasoning : appends (continueReasoning env nested).
Proof.
  unfold continueReasoning.
  appends_auto;
    try apply appends_handleOpenAIMessage; apply appends_handleGeminiMessage.
Qed.

Lemma chatHistory_loopGuard (signature : jsstring) (st : State) :
  chatHistory (loopGuard signature st) = chatHistory st.
Proof.
  unfold loopGuard. destruct (lastToolCall st) as [previous|]; [|reflexivity].
  destruct (JsString.eqb previous signature); reflexivity.
Qed.

Lemma appends_processToolCallBody (fuel : nat) (call : ToolCall) :
  appends (processToolCallBody fuel env nested call).
Proof.
  unfold processToolCallBody, executeToolCall.
  apply appends_bind;
    [apply appends_modify; intros st; apply chatHistory_loopGuard|].
  intros _.
  appends_auto; try apply appends_runHandler; apply appends_continueReasoning.
Qed.

End AppendsWithNestedCalls.

Lemma appends_processToolCall (fuel : nat) (env : Env) :
  forall call, appends (processToolCall fuel env call).
Proof.
  induction fuel as [|fuel IH]; intros call; simpl;
    apply appends_processToolCallBody.
  - intros c. apply appends_diverge.
  - exact IH.
Qed.

Lemma appends_sendMessage (fuel : nat) (env : Env) :
  appends (sendMessage fuel env).
Proof.
  unfold sendMessage.
  appends_auto;
    try (apply appends_handleOpenAIMessage; apply appends_processToolCall);
    apply appends_handleGeminiMessage; apply appends_processToolCall.
Qed.

Lemma appends_perform (fuel : nat) (env : Env) (op : Operation) :
  resets op = false -> appends (perform fuel env op).
Proof.
  destruct op; simpl; try discriminate; intros _.
  - unfold updateSettings. appends_auto.
  - unfold getSettings. appends_auto.
  - apply appends_sendMessage.
  - unfold getChatHistory. appends_auto.
  - unfold getTotalTokens. appends_auto.
  - apply appends_processToolCall.
  - unfold getToolCallHistory. appends_auto.
  - apply appends_summarizeSnippets.
Qed.

(** ** The system turn *)

Lemma init_history (fuel : nat) (env : Env)
  (initialSettings : option SettingsPatch) (st : State) :
  chatHistory (fst (perform fuel env (op_init initialSettings) st))
  = [mkTurn system systemPrompt].
Proof. destruct initialSettings; reflexivity. Qed.

Lemma systemFirstOnly_initial : systemFirstOnly [mkTurn system systemPrompt].
Proof. exists []. split; [reflexivity | constructor]. Qed.

Lemma session_invariant (st : State) :
  session st -> systemFirstOnly (chatHistory st).
Proof.
  induction 1 as [fuel env p st Hreach | fuel env op st Hsession IH Hop].
  - rewrite init_history. apply systemFirstOnly_initial.
  - destruct (resets op) eqn:Hresets.
    + destruct op; try discriminate.
      * rewrite init_history. apply systemFirstOnly_initial.
      * now elim Hop.
    + eapply systemFirstOnly_extends; [exact IH|].
      apply (appends_perform fuel env op Hresets).
Qed.

(** C9, as the code has it.  In every state of a session (from an [init] on,
    as long as [clearChat] is not called) the conversation log has exactly one
    system turn, and it is the first entry.  Every operation other than [init]
    and [clearChat] leaves the log as it was with turns appended, none of them
    a system turn; [init] sets the log to the system turn alone; [clearChat]
    empties it, system turn included. *)
Theorem session_system_turn (st : State) :
  session st ->
  systemFirstOnly (chatHistory st)
  /\ (forall fuel env op,
         resets op = false ->
         extends (chatHistory st) (chatHistory (fst (perform fuel env op st))))
  /\ (forall fuel env initialSettings,
         chatHistory (fst (perform fuel env (op_init initialSettings) st))
         = [mkTurn system systemPrompt])
  /\ (forall fuel env,
         chatHistory (fst (perform fuel env op_clearChat st)) = []).
Proof.
  intros Hsession. split; [now apply session_invariant|].
  split; [intros fuel env op Hop; now apply appends_perform|].
  split; [intros; apply init_history | reflexivity].
Qed.

Lemma session_system_turn_witness :
  let st := fst (perform 2 exampleWorld op_sendMessage
                         (fst (perform 0 exampleWorld (op_init None) loaded))) in
  systemFirstOnly (chatHistory st) /\ length (chatHistory st) = 3.
Proof.
  intros st.
  destruct (session_system_turn st) as [Hfirst _].
  - apply session_step; [|discriminate].
    apply session_init. apply reachable_loaded.
  - split; [exact Hfirst | vm_compute; reflexivity].
Defined.

(** C9, as the claim states it, fails: [init] followed by [clearChat] leaves a
    reachable state whose log is empty, and the message sent next starts a log
    that has no system turn at all. *)
Lemma clearChat_drops_system_turn :
  let cleared := fst (perform 0 exampleWorld op_clearChat
                              (fst (perform 0 exampleWorld (op_init None) loaded))) in
  let next := fst (perform 2 exampleWorld op_sendMessage cleared) in
  reachable cleared
  /\ chatHistory cleared = []
  /\ ~ systemFirstOnly (chatHistory cleared)
  /\ reachable next
  /\ map role (chatHistory next) = [user; assistant]
  /\ ~ systemFirstOnly (chatHistory next).
Proof.
  intros cleared next.
  assert (Hcleared : reachable cleared)
    by (repeat apply reachable_step; apply reachable_loaded).
  split; [exact Hcleared|].
  split; [reflexivity|].
  split; [intros [rest [H _]]; discriminate|].
  split; [apply reachable_step; exact Hcleared|].
  split; [vm_compute; reflexivity|].
  intros [rest [H _]].
  apply (f_equal (fun h => map role (firstn 1 h))) in H.
  vm_compute in H. discriminate.
Qed.

(* ================================================================== *)
(** * Further properties *)
(* ================================================================== *)

(** What the code shows of itself besides: how its functions end and fail,
    what they leave alone, what they keep true from call to call, and how
    what one of them writes is read by another. *)

(** ** Chain-of-thought display *)

Lemma includes_matchThinking (text : jsstring) :
  includes Thinking text = true -> exists t, matchThinking text = Some t.
Proof.
  unfold includes, matchThinking.
  destruct (afterFirst Thinking text) as [r|]; [eauto | discriminate].
Qed.

Lemma includes_matchAnswer (text : jsstring) :
  includes Answer text = true -> exists a, matchAnswer text = Some a.
Proof.
  unfold includes, matchAnswer.
  destruct (afterFirst Answer text) as [r|]; [eauto | discriminate].
Qed.

Lemma startsWith_includes (p s : jsstring) :
  startsWith p s = true -> includes p s = true.
Proof.
  intros H. unfold includes. destruct s as [|c t]; simpl; now rewrite H.
Qed.

Lemma processCoTResponse_without_thinking (reply : jsstring) (st : State) :
  includes Thinking reply = false ->
  processCoTResponse reply st = (st, Ok (mkCoT [] reply false None None)).
Proof.
  intros Hno. unfold processCoTResponse, matchThinking.
  assert (Hstart : startsWith Thinking reply = false).
  { destruct (startsWith Thinking reply) eqn:E; [|reflexivity].
    apply startsWith_includes in E. congruence. }
  rewrite Hstart, Hno. rewrite (includes_false_afterFirst _ _ Hno).
  cbn [andb]. destruct (matchAnswer reply); reflexivity.
Qed.

(** X1.  The third branch of [processCoTResponse], for a response that has
    [Thinking:] but that the pattern does not match, is never taken:
    whenever the final classifier reports no structure, it reports no
    partial result either, has changed nothing, and gives the response back
    whole. *)
Theorem processCoTResponse_unstructured_verbatim (response : jsstring)
  (st : State) :
  exists st' r,
    processCoTResponse response st = (st', Ok r)
    /\ (hasStructuredResponse r = false ->
        st' = st /\ r = mkCoT [] response false None None).
Proof.
  destruct (includes Thinking response) eqn:Hinc.
  - unfold processCoTResponse.
    destruct (includes_matchThinking response Hinc) as [t Ht]. rewrite Ht.
    destruct (matchAnswer response) as [a|].
    + do 2 eexists. split; [reflexivity|]. discriminate.
    + destruct (startsWith Thinking response && negb (includes Answer response)).
      * do 2 eexists. split; [reflexivity|]. discriminate.
      * rewrite Hinc. cbn [andb]. do 2 eexists. split; [reflexivity|]. auto.
  - rewrite (processCoTResponse_without_thinking response st Hinc).
    do 2 eexists. split; [reflexivity|]. auto.
Qed.

(** X2.  On a response that has both markers, the final and the streaming
    classifier find the same thinking and the same answer: the text between
    the first [Thinking:] and the next [Answer:], and the text after the
    first [Answer:], both trimmed.  The final classifier also stores them. *)
Theorem classifiers_agree_on_complete (response : jsstring) (st : State) :
  includes Thinking response = true ->
  includes Answer response = true ->
  exists t a,
    matchThinking response = Some t
    /\ matchAnswer response = Some a
    /\ processCoTResponse response st
       = (set_lastAnswerContent (trim a) (set_lastThinkingContent (trim t) st),
          Ok (mkCoT (trim t) (trim a) true None None))
    /\ processPartialCoTResponse response
       = mkCoT (trim t) (trim a) true (Some false) None.
Proof.
  intros Ht Ha.
  destruct (includes_matchThinking response Ht) as [t Et].
  destruct (includes_matchAnswer response Ha) as [a Ea].
  exists t, a. repeat split; try assumption.
  - unfold processCoTResponse. rewrite Et, Ea. reflexivity.
  - unfold processPartialCoTResponse. rewrite Ht, Ha, Et, Ea. reflexivity.
Qed.

Lemma classifiers_agree_on_complete_witness :
  let response := str "Thinking: because X" ++ LF ++ str "Answer: 42" in
  exists t a,
    matchThinking response = Some t
    /\ matchAnswer response = Some a
    /\ processCoTResponse response loaded
       = (set_lastAnswerContent (trim a) (set_lastThinkingContent (trim t) loaded),
          Ok (mkCoT (trim t) (trim a) true None None))
    /\ processPartialCoTResponse response
       = mkCoT (trim t) (trim a) true (Some false) None.
Proof.
  intros response.
  apply (classifiers_agree_on_complete response loaded); reflexivity.
Defined.

Lemma startsWith_length (p s : jsstring) :
  startsWith p s = true -> length p <= length s.
Proof.
  revert s. induction p as [|x p IH]; intros s H; simpl; [lia|].
  destruct s as [|y s]; [discriminate|]. simpl in H.
  apply andb_true_iff in H. destruct H as [_ H]. apply IH in H. simpl. lia.
Qed.

Lemma startsWith_app_l (p s x : jsstring) :
  startsWith p s = true -> startsWith p (s ++ x) = true.
Proof.
  revert s. induction p as [|y p IH]; intros s H; [reflexivity|].
  destruct s as [|c s]; [discriminate|]. simpl in *.
  apply andb_true_iff in H. destruct H as [Hc H].
  now rewrite Hc, (IH _ H).
Qed.

Lemma startsWith_within (p s x : jsstring) :
  length p <= length s -> startsWith p (s ++ x) = startsWith p s.
Proof.
  revert s. induction p as [|y p IH]; intros s H; [reflexivity|].
  destruct s as [|c s]; [simpl in H; lia|]. simpl in *.
  rewrite IH by lia. reflexivity.
Qed.

Lemma afterFirst_length (p s r : jsstring) :
  afterFirst p s = Some r -> length p <= length s.
Proof.
  induction s as [|c t IH]; simpl.
  - destruct (startsWith p []) eqn:E; [|discriminate].
    intros _. now apply startsWith_length in E.
  - destruct (startsWith p (c :: t)) eqn:E.
    + intros _. now apply startsWith_length in E.
    + intros H. apply IH in H. simpl. lia.
Qed.

(** Text appended to [s] does not move the first occurrence of [p] in [s]. *)
Lemma afterFirst_app (p s x r : jsstring) :
  afterFirst p s = Some r -> afterFirst p (s ++ x) = Some (r ++ x).
Proof.
  induction s as [|c t IH]; simpl.
  - destruct (startsWith p []) eqn:E; [|discriminate].
    destruct p; [|discriminate]. intros H. inversion H.
    destruct x; reflexivity.
  - destruct (startsWith p (c :: t)) eqn:E.
    + intros H. inversion H; subst r; clear H.
      pose proof (startsWith_length _ _ E) as Hlen.
      change (c :: t ++ x) with ((c :: t) ++ x).
      rewrite (startsWith_app_l _ _ x E).
      rewrite skipn_app.
      replace (length p - length (c :: t)) with 0 by lia. reflexivity.
    + intros H. pose proof (afterFirst_length _ _ _ H) as Hlen.
      change (c :: t ++ x) with ((c :: t) ++ x).
      rewrite startsWith_within by (simpl; lia). rewrite E. now apply IH.
Qed.

Lemma includes_app (p s x : jsstring) :
  includes p s = true -> includes p (s ++ x) = true.
Proof.
  unfold includes. destruct (afterFirst p s) as [r|] eqn:E; [|discriminate].
  now rewrite (afterFirst_app _ _ x _ E).
Qed.

(** An occurrence of [Answer:] cannot begin inside the text before another
    one and reach into it. *)
Lemma startsWith_Answer_before (before after : jsstring) :
  before <> [] ->
  startsWith Answer before = false ->
  startsWith Answer (before ++ Answer ++ after) = false.
Proof.
  intros Hsome Hno.
  destruct before as [|c1 [|c2 [|c3 [|c4 [|c5 [|c6 [|c7 rest]]]]]]];
    [now elim Hsome | | | | | | |];
    cbn [app Answer str list_ascii_of_string map N_of_ascii startsWith] in *;
    try exact Hno;
    cbn; now rewrite ?andb_false_r.
Qed.

(** What follows the first [Answer:] of a text that has none before it. *)
Lemma matchAnswer_first (before after : jsstring) :
  includes Answer before = false ->
  matchAnswer (before ++ Answer ++ after) = Some after.
Proof.
  unfold matchAnswer, includes. induction before as [|c t IH]; intros Hno.
  - reflexivity.
  - cbn [afterFirst] in Hno.
    destruct (startsWith Answer (c :: t)) eqn:E; [discriminate|].
    change ((c :: t) ++ Answer ++ after) with (c :: (t ++ Answer ++ after)).
    cbn [afterFirst].
    change (c :: (t ++ Answer ++ after)) with ((c :: t) ++ Answer ++ after).
    rewrite startsWith_Answer_before by (discriminate || exact E).
    now apply IH.
Qed.

(** X3.  While a reply in which [Thinking:] comes before the first [Answer:]
    streams in with chain of thought enabled and thinking hidden, the page
    does not show the thinking: as long as the text received has [Thinking:]
    but no [Answer:] it shows the placeholder, and once [Answer:] has arrived
    it shows what follows the first [Answer:], trimmed (the placeholder again
    while that is blank), whatever came before it. *)
Theorem streaming_hides_thinking (s : Settings) (before after : jsstring) :
  enableCoT s = true ->
  showThinking s = false ->
  includes Thinking before = true ->
  includes Answer before = false ->
  formatResponseForDisplay s (processPartialCoTResponse before)
  = thinkingPlaceholder
  /\ formatResponseForDisplay s
       (processPartialCoTResponse (before ++ Answer ++ after))
     = hiddenThinkingDisplay (trim after).
Proof.
  intros Hcot Hshow Ht Hnone. split.
  - unfold processPartialCoTResponse, formatResponseForDisplay.
    rewrite Ht, Hnone. cbn [andb negb hasStructuredResponse answer].
    rewrite Hcot, Hshow. reflexivity.
  - pose proof (includes_app _ _ (Answer ++ after) Ht) as Ht'.
    pose proof (matchAnswer_first before after Hnone) as Ha.
    assert (Ha' : includes Answer (before ++ Answer ++ after) = true).
    { unfold includes. unfold matchAnswer in Ha. now rewrite Ha. }
    destruct (includes_matchThinking _ Ht') as [t Et].
    unfold processPartialCoTResponse, formatResponseForDisplay.
    rewrite Ht', Ha', Et, Ha. cbn [andb negb hasStructuredResponse answer].
    rewrite Hcot, Hshow. cbn [negb orb].
    unfold hiddenThinkingDisplay. destruct (trim after); reflexivity.
Qed.

Lemma streaming_hides_thinking_witness :
  let s := mkSettings true true false in
  let before := str "Thinking: the secret plan" ++ LF in
  formatResponseForDisplay s (processPartialCoTResponse before)
  = thinkingPlaceholder
  /\ formatResponseForDisplay s
       (processPartialCoTResponse (before ++ Answer ++ str " 42"))
     = str "42".
Proof.
  intros s before.
  exact (streaming_hides_thinking s before (str " 42")
           eq_refl eq_refl eq_refl eq_refl).
Defined.

(** X4.  A reply without [Thinking:] is shown as it is, under every setting
    and by both classifiers, and the stored thinking and answer are not
    touched. *)
Theorem plain_reply_shown_verbatim (s : Settings) (reply : jsstring)
  (st : State) :
  includes Thinking reply = false ->
  formatResponseForDisplay s (processPartialCoTResponse reply) = reply
  /\ exists r,
       processCoTResponse reply st = (st, Ok r)
       /\ formatResponseForDisplay s r = reply.
Proof.
  intros Hno. split.
  - unfold processPartialCoTResponse. rewrite Hno. cbn [andb].
    unfold formatResponseForDisplay. cbn [hasStructuredResponse negb answer].
    now rewrite orb_true_r.
  - eexists. split; [now apply processCoTResponse_without_thinking|].
    unfold formatResponseForDisplay. cbn [hasStructuredResponse negb answer].
    now rewrite orb_true_r.
Qed.

Lemma plain_reply_shown_verbatim_witness :
  formatResponseForDisplay (mkSettings true true true)
    (processPartialCoTResponse (str "Answer: just this")) = str "Answer: just this".
Proof.
  apply (plain_reply_shown_verbatim (mkSettings true true true)
           (str "Answer: just this") loaded).
  reflexivity.
Defined.

(** ** Batches are packed greedily *)

Lemma batchLength_nonneg (batch : list jsstring) : (0 <= batchLength batch)%Z.
Proof.
  induction batch as [|s batch IH]; simpl; [lia|].
  unfold len. lia.
Qed.

Lemma splitLoop_fits (maxLen : Z) (snippets : list jsstring) :
  forall currentBatch,
    (batchLength (currentBatch ++ snippets) <= maxLen)%Z ->
    splitLoop maxLen snippets [] currentBatch (batchLength currentBatch)
    = if nonEmpty (currentBatch ++ snippets) then [currentBatch ++ snippets]
      else [].
Proof.
  induction snippets as [|snippet rest IH]; intros currentBatch Hfit.
  - simpl. rewrite app_nil_r. reflexivity.
  - cbn [splitLoop].
    assert (Hsmall : (batchLength currentBatch + len snippet >? maxLen)%Z = false).
    { rewrite Z.gtb_ltb. apply Z.ltb_ge.
      rewrite batchLength_app in Hfit. simpl in Hfit.
      pose proof (batchLength_nonneg rest). lia. }
    rewrite Hsmall. cbn [andb].
    replace (batchLength currentBatch + len snippet)%Z
      with (batchLength (currentBatch ++ [snippet]))
      by (rewrite batchLength_app; simpl; lia).
    rewrite IH; rewrite <- app_assoc; [reflexivity | exact Hfit].
Qed.

(** X5.  Snippets that fit the budget together make one batch: the input
    list itself.  In [summarizeSnippets] that is one request to the model. *)
Theorem splitIntoBatches_one_batch (snippets : list jsstring) (maxLen : Z) :
  snippets <> [] ->
  (batchLength snippets <= maxLen)%Z ->
  splitIntoBatches snippets maxLen = [snippets].
Proof.
  intros Hne Hfit. unfold splitIntoBatches.
  change 0%Z with (batchLength []).
  rewrite (splitLoop_fits maxLen snippets [] Hfit). simpl.
  destruct snippets; [now elim Hne | reflexivity].
Qed.

Lemma splitIntoBatches_one_batch_witness :
  splitIntoBatches [str "abc"; str "de"] 5 = [[str "abc"; str "de"]].
Proof.
  apply (splitIntoBatches_one_batch [str "abc"; str "de"] 5).
  - discriminate.
  - vm_compute. discriminate.
Defined.

Lemma packed_snoc (maxLen : Z) (batches : list (list jsstring))
  (lastBatch : list jsstring) (snippet : jsstring) :
  packed maxLen (batches ++ [lastBatch]) ->
  (maxLen < batchLength lastBatch + len snippet)%Z ->
  packed maxLen ((batches ++ [lastBatch]) ++ [[snippet]]).
Proof.
  induction batches as [|b batches IH]; intros Hp Hover.
  - simpl. auto.
  - change (packed maxLen (b :: ((batches ++ [lastBatch]) ++ [[snippet]]))).
    change (packed maxLen (b :: (batches ++ [lastBatch]))) in Hp.
    cbn [packed] in *.
    destruct (batches ++ [lastBatch]) as [|b2 more] eqn:E.
    + destruct batches; discriminate.
    + destruct Hp as [Hhead Htail]. split; [exact Hhead|].
      apply IH; assumption.
Qed.

Lemma packed_grow_last (maxLen : Z) (batches : list (list jsstring))
  (unit : jsstring) (lastBatch : list jsstring) (snippet : jsstring) :
  packed maxLen (batches ++ [unit :: lastBatch]) ->
  packed maxLen (batches ++ [(unit :: lastBatch) ++ [snippet]]).
Proof.
  induction batches as [|b batches IH]; intros Hp.
  - simpl. exact I.
  - change (packed maxLen (b :: (batches ++ [(unit :: lastBatch) ++ [snippet]]))).
    change (packed maxLen (b :: (batches ++ [unit :: lastBatch]))) in Hp.
    cbn [packed] in *.
    destruct batches as [|b2 more].
    + simpl in *. tauto.
    + simpl app in *. destruct Hp as [Hhead Htail]. split; [exact Hhead|].
      apply IH. exact Htail.
Qed.

Lemma splitLoop_packed (maxLen : Z) (snippets : list jsstring) :
  forall batches currentBatch currentLen,
    currentLen = batchLength currentBatch ->
    match currentBatch with
    | [] => batches = []
    | _ :: _ => packed maxLen (batches ++ [currentBatch])
    end ->
    packed maxLen (splitLoop maxLen snippets batches currentBatch currentLen).
Proof.
  induction snippets as [|snippet rest IH];
    intros batches currentBatch currentLen Hlen Hinv.
  - simpl. destruct currentBatch as [|x cb]; simpl.
    + subst batches. exact I.
    + exact Hinv.
  - cbn [splitLoop].
    destruct ((currentLen + len snippet >? maxLen)%Z && nonEmpty currentBatch)
      eqn:Hflush.
    + apply andb_true_iff in Hflush. destruct Hflush as [Hover Hne].
      destruct currentBatch as [|x cb]; [discriminate|].
      apply IH; [simpl; lia|].
      apply packed_snoc; [exact Hinv|].
      rewrite Z.gtb_ltb in Hover. apply Z.ltb_lt in Hover. lia.
    + apply IH; [rewrite batchLength_app; simpl; lia|].
      destruct currentBatch as [|x cb].
      * subst batches. simpl. exact I.
      * simpl app. apply (packed_grow_last maxLen batches x cb snippet Hinv).
Qed.

(** X6.  The batches are packed greedily: no batch could have taken the
    first snippet of the batch after it, since together they are over the
    budget.  This holds for every budget, positive or not. *)
Theorem splitIntoBatches_packed (snippets : list jsstring) (maxLen : Z) :
  packed maxLen (splitIntoBatches snippets maxLen).
Proof.
  unfold splitIntoBatches. now apply splitLoop_packed.
Qed.

(** ** Relations that computations keep *)

Section Keeps.

Variable R : State -> State -> Prop.
Context {R_preorder : RelationClasses.PreOrder R}.

Lemma keeps_ret {A : Type} (a : A) : keeps R (ret a).
Proof. intros st. apply RelationClasses.PreOrder_Reflexive. Qed.

Lemma keeps_throw {A : Type} (e : jsstring) : keeps R (@throw A e).
Proof. intros st. apply RelationClasses.PreOrder_Reflexive. Qed.

Lemma keeps_diverge {A : Type} : keeps R (@diverge A).
Proof. intros st. apply RelationClasses.PreOrder_Reflexive. Qed.

Lemma keeps_gets {A : Type} (f : State -> A) : keeps R (gets f).
Proof. intros st. apply RelationClasses.PreOrder_Reflexive. Qed.

Lemma keeps_ask {A : Type} (f : nat -> A) : keeps R (ask f).
Proof. intros st. apply RelationClasses.PreOrder_Reflexive. Qed.

Lemma keeps_lift {A : Type} (c : Completion A) : keeps R (lift c).
Proof. destruct c; [apply keeps_ret | apply keeps_throw]. Qed.

Lemma keeps_modify (f : State -> State) :
  (forall st, R st (f st)) -> keeps R (modify f).
Proof. intros H st. apply H. Qed.

Lemma keeps_bind {A B : Type} (m : M A) (k : A -> M B) :
  keeps R m -> (forall a, keeps R (k a)) -> keeps R (bind m k).
Proof.
  intros Hm Hk st. unfold bind. specialize (Hm st).
  destruct (m st) as [st' [a|e|]]; simpl in *; [|assumption|assumption].
  eapply RelationClasses.PreOrder_Transitive; [exact Hm | apply Hk].
Qed.

Lemma keeps_bind_gets {A B : Type} (f : State -> A) (k : A -> M B) :
  (forall st, R st (fst (k (f st) st))) -> keeps R (bind (gets f) k).
Proof. intros H st. exact (H st). Qed.

Lemma keeps_bind_from {A B : Type} (m : M A) (k : A -> M B) (st : State) :
  R st (fst (m st)) -> (forall a, keeps R (k a)) -> R st (fst (bind m k st)).
Proof.
  intros Hm Hk. unfold bind.
  destruct (m st) as [st' [a|e|]]; simpl in *; [|assumption|assumption].
  eapply RelationClasses.PreOrder_Transitive; [exact Hm | apply Hk].
Qed.

Lemma keeps_try_catch {A : Type} (body : M A) (handler : jsstring -> M A) :
  keeps R body -> (forall e, keeps R (handler e)) ->
  keeps R (try_catch body handler).
Proof.
  intros Hb Hh st. unfold try_catch. specialize (Hb st).
  destruct (body st) as [st' [a|e|]]; simpl in *; [assumption| |assumption].
  eapply RelationClasses.PreOrder_Transitive; [exact Hb | apply Hh].
Qed.

Lemma keeps_try_finally {A : Type} (body : M A) (cleanup : M unit) :
  keeps R body -> keeps R cleanup -> keeps R (try_finally body cleanup).
Proof.
  intros Hb Hc st. unfold try_finally. specialize (Hb st).
  destruct (body st) as [st' [a|e|]]; simpl in *; [| |assumption];
    specialize (Hc st'); destruct (cleanup st') as [st'' [u|e'|]]; simpl in *;
    eapply RelationClasses.PreOrder_Transitive; eassumption.
Qed.

Lemma keeps_when (c : bool) (body : M unit) :
  keeps R body -> keeps R (when c body).
Proof. intros H. destruct c; [exact H | apply keeps_ret]. Qed.

Lemma keeps_forEach {A : Type} (xs : list A) (body : A -> M unit) :
  (forall x, keeps R (body x)) -> keeps R (forEach xs body).
Proof.
  intros H. induction xs as [|x rest IH]; simpl; [apply keeps_ret|].
  apply keeps_bind; [apply H | intros _; exact IH].
Qed.

Lemma keeps_await {A : Type} (answer : nat -> Completion A) :
  (forall st, R st (set_clock (S (clock st)) st)) -> keeps R (await answer).
Proof.
  intros H st. unfold await. destruct (answer (clock st)); apply H.
Qed.

Lemma keeps_awaitStream {A B : Type} (answer : nat -> list A * Completion B)
  (callback : A -> M unit) :
  (forall st, R st (set_clock (S (clock st)) st)) ->
  (forall a, keeps R (callback a)) -> keeps R (awaitStream answer callback).
Proof.
  intros Htick H st. unfold awaitStream.
  destruct (answer (clock st)) as [streamed outcome].
  eapply RelationClasses.PreOrder_Transitive; [apply Htick|].
  apply (keeps_bind (forEach streamed callback) (fun _ => lift outcome)
           (keeps_forEach streamed callback H) (fun _ => keeps_lift outcome)).
Qed.

End Keeps.

Lemma sameCache_preorder : RelationClasses.PreOrder sameCache.
Proof.
  split.
  - intros st. reflexivity.
  - intros a b c Hab Hbc. unfold sameCache in *. congruence.
Qed.

#[export] Existing Instance sameCache_preorder.

Lemma accumulates_preorder : RelationClasses.PreOrder accumulates.
Proof.
  split.
  - intros st. split; [exists []; now rewrite app_nil_r|]. split; [auto | lia].
  - intros a b c [[x Hx] [Hab Tab]] [[y Hy] [Hbc Tbc]].
    split; [exists (x ++ y); now rewrite Hy, Hx, app_assoc|].
    split; [auto | lia].
Qed.

#[export] Existing Instance accumulates_preorder.

Lemma accumulates_same (st st' : State) :
  toolCallHistory st' = toolCallHistory st ->
  readCache st' = readCache st ->
  clock st' = clock st ->
  accumulates st st'.
Proof.
  intros Hlog Hcache Hclock. split; [exists []; now rewrite app_nil_r, Hlog|].
  split; [now rewrite Hcache | lia].
Qed.

Lemma accumulates_tick (st : State) : accumulates st (set_clock (S (clock st)) st).
Proof.
  split; [exists []; simpl; now rewrite app_nil_r|]. split; [auto | simpl; lia].
Qed.

Lemma accumulates_record (record : ToolCallRecord) (st : State) :
  accumulates st (set_toolCallHistory (toolCallHistory st ++ [record]) st).
Proof.
  split; [exists [record]; reflexivity|]. split; [auto | simpl; lia].
Qed.

Lemma accumulates_cacheSet (key value : jsstring) (st : State) :
  cacheGet key (readCache st) = None ->
  accumulates st (set_readCache (cacheSet key value (readCache st)) st).
Proof.
  intros Hnew. split; [exists []; simpl; now rewrite app_nil_r|].
  split; [|simpl; lia].
  intros other v Hother. simpl.
  rewrite cacheGet_cacheSet_other; [exact Hother|].
  apply eqb_neq. intros ->. congruence.
Qed.

Lemma guardStillHolds_preorder : RelationClasses.PreOrder guardStillHolds.
Proof.
  split.
  - intros st H. exact H.
  - intros a b c Hab Hbc H. exact (Hbc (Hab H)).
Qed.

#[export] Existing Instance guardStillHolds_preorder.

(** An update that leaves the guard variables and the audit log alone. *)
Lemma guardStillHolds_same (st st' : State) :
  lastToolCall st' = lastToolCall st ->
  lastToolCallCount st' = lastToolCallCount st ->
  toolCallHistory st' = toolCallHistory st ->
  guardStillHolds st st'.
Proof.
  intros Hlast Hcount Hlog.
  unfold guardStillHolds, guardHolds, guardTracksLog, executedSignatures.
  now rewrite Hlast, Hcount, Hlog.
Qed.

(** How a state update is shown to keep the relation at hand. *)
Ltac keeps_update :=
  first [ apply accumulates_tick
        | apply accumulates_record
        | apply accumulates_same; reflexivity
        | apply guardStillHolds_same; reflexivity
        | exact eq_refl ].

Ltac keeps_apply lemma :=
  apply lemma;
  try match goal with |- RelationClasses.PreOrder _ => exact _ end.

(** One step of the proof that a computation keeps a relation. *)
Ltac keeps_step :=
  match goal with
  | |- keeps _ (bind _ _) => keeps_apply @keeps_bind; [|intros ?]
  | |- keeps _ (ret _) => keeps_apply @keeps_ret
  | |- keeps _ (throw _) => keeps_apply @keeps_throw
  | |- keeps _ diverge => keeps_apply @keeps_diverge
  | |- keeps _ (gets _) => keeps_apply @keeps_gets
  | |- keeps _ (ask _) => keeps_apply @keeps_ask
  | |- keeps _ (lift _) => keeps_apply @keeps_lift
  | |- keeps _ (UI _) => apply keeps_modify; intros ?; keeps_update
  | |- keeps _ (addTokens _) => apply keeps_modify; intros ?; keeps_update
  | |- keeps _ (pushTurn _ _) => apply keeps_modify; intros ?; keeps_update
  | |- keeps _ (modify _) => apply keeps_modify; intros ?; keeps_update
  | |- keeps _ (when _ _) => keeps_apply @keeps_when
  | |- keeps _ (try_catch _ _) => keeps_apply @keeps_try_catch; [|intros ?]
  | |- keeps _ (try_finally _ _) => keeps_apply @keeps_try_finally
  | |- keeps _ (await _) => keeps_apply @keeps_await; intros ?; keeps_update
  | |- keeps _ (awaitStream _ _) =>
      keeps_apply @keeps_awaitStream; [intros ?; keeps_update | intros ?]
  | |- keeps _ (forEach _ _) => keeps_apply @keeps_forEach; intros ?
  | |- keeps _ (if ?c then _ else _) => destruct c
  | |- keeps _ (match ?x with _ => _ end) => destruct x
  | |- keeps _ _ => assumption
  end.

Ltac keeps_auto := repeat keeps_step.

(** ** The audit log and the read cache only grow *)

Lemma accumulates_processCoTResponse (response : jsstring) :
  keeps accumulates (processCoTResponse response).
Proof. unfold processCoTResponse. keeps_auto. Qed.

Lemma accumulates_onChunk (handle : nat) (fullText : jsstring) :
  keeps accumulates (onChunk handle fullText).
Proof. unfold onChunk. keeps_auto. Qed.

Lemma accumulates_newAIMessage : keeps accumulates newAIMessage.
Proof. unfold newAIMessage. keeps_auto. Qed.

Lemma accumulates_summarizeBatches (env : Env) (model : jsstring)
  (round totalBatches : Z) (batches : list (list jsstring)) :
  forall i batchSummaries,
    keeps accumulates (summarizeBatches env model round totalBatches i batches
                                        batchSummaries).
Proof.
  induction batches as [|batch rest IH]; intros i batchSummaries; simpl.
  - keeps_step.
  - keeps_auto. apply IH.
Qed.

Lemma accumulates_summarizeSnippets (fuel : nat) (env : Env) :
  forall snippets round,
    keeps accumulates (summarizeSnippets fuel env snippets round).
Proof.
  induction fuel as [|fuel IH]; intros snippets round; simpl.
  - keeps_step.
  - unfold summarizationFailed.
    keeps_apply @keeps_bind; [destruct snippets; keeps_auto|].
    intros l. destruct l as [|only [|second more]].
    + keeps_step.
    + keeps_auto.
    + keeps_auto; try apply accumulates_summarizeBatches; apply IH.
Qed.

Lemma accumulates_read_url (env : Env) (args : JSON) :
  keeps accumulates (read_url env args).
Proof. unfold read_url. keeps_auto. Qed.

Lemma accumulates_instant_answer (env : Env) (args : JSON) :
  keeps accumulates (instant_answer env args).
Proof. unfold instant_answer. keeps_auto. Qed.

Lemma sameCache_read_url (env : Env) (args : JSON) :
  keeps sameCache (read_url env args).
Proof. unfold read_url. keeps_auto. Qed.

Lemma readCache_loopGuard (signature : jsstring) (st : State) :
  readCache (loopGuard signature st) = readCache st.
Proof.
  unfold loopGuard. destruct (lastToolCall st) as [previous|]; [|reflexivity].
  destruct (JsString.eqb previous signature); reflexivity.
Qed.

Lemma accumulates_loopGuard (signature : jsstring) (st : State) :
  accumulates st (loopGuard signature st).
Proof.
  apply accumulates_same; unfold loopGuard;
    (destruct (lastToolCall st) as [previous|]; [|reflexivity]);
    destruct (JsString.eqb previous signature); reflexivity.
Qed.

(** A nested read, as [deepReadUrl] asks for it, leaves the cache alone. *)
Lemma sameCache_readCall (fuel : nat) (env : Env) (url : jsstring)
  (start size : Z) :
  keeps sameCache (processToolCall fuel env (readCall url start size)).
Proof.
  rewrite processToolCall_unfold.
  unfold processToolCallBody, executeToolCall, runHandler.
  change (lookupHandler (tool (readCall url start size))) with handler_read_url.
  change (skipContinue (readCall url start size)) with true.
  cbn [negb]. unfold when.
  keeps_apply @keeps_bind;
    [apply keeps_modify; intros st; apply readCache_loopGuard|].
  intros _. keeps_auto. apply sameCache_read_url.
Qed.

Section AccumulatesWithNestedCalls.

Variable env : Env.
Variable nested : ToolCall -> M unit.
Hypothesis nested_accumulates : forall call, keeps accumulates (nested call).
Hypothesis nested_read_cache :
  forall url start size, keeps sameCache (nested (readCall url start size)).

Lemma accumulates_deepReadLoop (url : jsstring)
  (maxChunks chunkSize maxTotalLength : Z) (n : nat) :
  forall v,
    keeps accumulates
          (deepReadLoop n env nested url maxChunks chunkSize maxTotalLength v).
Proof.
  induction n as [|n IH]; intros v; cbn [deepReadLoop].
  - keeps_auto.
  - destruct (shouldContinue v && (chunkCount v <? maxChunks)%Z
              && (totalLength v <? maxTotalLength)%Z); [|keeps_step].
    keeps_apply @keeps_bind_gets. intros st.
    destruct (cacheGet (url ++ str ":" ++ showZ (start v) ++ str ":"
                        ++ showZ chunkSize) (readCache st)) as [s|] eqn:Hcached;
      (keeps_apply @keeps_bind_from;
       [|intros snippet; destruct snippet; keeps_auto; apply IH]).
    + apply RelationClasses.PreOrder_Reflexive.
    + pose proof (nested_accumulates (readCall url (start v) chunkSize) st)
        as Hacc.
      pose proof (nested_read_cache url (start v) chunkSize st) as Hsame.
      unfold sameCache in Hsame. unfold bind.
      destruct (nested (readCall url (start v) chunkSize) st) as [st1 [[]|e|]];
        simpl in Hacc, Hsame; [|exact Hacc|exact Hacc].
      eapply RelationClasses.PreOrder_Transitive; [exact Hacc|].
      rewrite <- Hsame in Hcached.
      unfold gets. cbv beta iota.
      destruct (lastOf (chatHistory st1)) as [entry|];
        [|apply RelationClasses.PreOrder_Reflexive].
      destruct (startsWith (str "Read content from") (content entry));
        [|apply RelationClasses.PreOrder_Reflexive].
      unfold modify, ret. cbv beta iota. cbn [fst].
      now apply accumulates_cacheSet.
Qed.

Lemma accumulates_deepReadUrl (url : jsstring)
  (maxChunks chunkSize maxTotalLength : Z) :
  keeps accumulates
        (deepReadUrl env nested url maxChunks chunkSize maxTotalLength).
Proof.
  unfold deepReadUrl, deepRead.
  keeps_apply @keeps_bind; [apply accumulates_deepReadLoop | intros v; keeps_step].
Qed.

Lemma accumulates_readSuggested (total : Z) (urlsToRead : list (Z * jsstring)) :
  keeps accumulates (readSuggested env nested total urlsToRead).
Proof.
  induction urlsToRead as [|[i url] rest IH]; simpl; [keeps_step|].
  keeps_step; [keeps_step|].
  keeps_step; [apply accumulates_deepReadUrl | exact IH].
Qed.

Lemma accumulates_autoRead (fuel : nat) (aiReply : jsstring) :
  keeps accumulates (autoReadAndSummarizeFromSuggestion fuel env nested aiReply).
Proof.
  unfold autoReadAndSummarizeFromSuggestion.
  keeps_auto;
    try apply accumulates_readSuggested; apply accumulates_summarizeSnippets.
Qed.

Lemma accumulates_suggestResultsToRead (fuel : nat)
  (results : list SearchResult) (query : jsstring) :
  keeps accumulates (suggestResultsToRead fuel env nested results query).
Proof.
  unfold suggestResultsToRead. keeps_auto; apply accumulates_autoRead.
Qed.

Lemma accumulates_web_search (fuel : nat) (args : JSON) :
  keeps accumulates (web_search fuel env nested args).
Proof.
  unfold web_search. keeps_auto; apply accumulates_suggestResultsToRead.
Qed.

Lemma accumulates_runHandler (fuel : nat) (tool args : JSON) :
  keeps accumulates (runHandler fuel env nested tool args).
Proof.
  unfold runHandler. destruct (lookupHandler tool).
  - apply accumulates_web_search.
  - apply accumulates_read_url.
  - apply accumulates_instant_answer.
  - keeps_step.
  - keeps_step.
Qed.

Lemma accumulates_completeReply (text : jsstring) :
  keeps accumulates (completeReply nested text).
Proof.
  unfold completeReply. keeps_auto;
    try apply nested_accumulates; apply accumulates_processCoTResponse.
Qed.

Lemma accumulates_streamedReply
  (stream : nat -> jsstring -> list Turn -> list jsstring * Completion jsstring)
  (model : jsstring) :
  keeps accumulates (streamedReply nested env stream model).
Proof.
  unfold streamedReply.
  keeps_step; [apply accumulates_newAIMessage|].
  keeps_auto;
    try apply nested_accumulates; try apply accumulates_onChunk;
    apply accumulates_processCoTResponse.
Qed.

Lemma accumulates_handleOpenAIMessage (model message : jsstring) :
  keeps accumulates (handleOpenAIMessage nested env model message).
Proof.
  unfold handleOpenAIMessage.
  keeps_auto; try apply accumulates_streamedReply;
    apply accumulates_completeReply.
Qed.

Lemma accumulates_handleGeminiMessage (model message : jsstring) :
  keeps accumulates (handleGeminiMessage nested env model message).
Proof.
  unfold handleGeminiMessage.
  keeps_auto; try apply accumulates_streamedReply;
    apply accumulates_completeReply.
Qed.

Lemma accumulates_continueReasoning :
  keeps accumulates (continueReasoning env nested).
Proof.
  unfold continueReasoning.
  keeps_auto;
    try apply accumulates_handleOpenAIMessage;
    apply accumulates_handleGeminiMessage.
Qed.

Lemma accumulates_processToolCallBody (fuel : nat) (call : ToolCall) :
  keeps accumulates (processToolCallBody fuel env nested call).
Proof.
  unfold processToolCallBody, executeToolCall.
  keeps_step; [apply keeps_modify; intros st; apply accumulates_loopGuard|].
  keeps_auto; try apply accumulates_runHandler;
    apply accumulates_continueReasoning.
Qed.

End AccumulatesWithNestedCalls.

Lemma accumulates_processToolCall (fuel : nat) (env : Env) :
  forall call, keeps accumulates (processToolCall fuel env call).
Proof.
  induction fuel as [|fuel IH]; intros call; simpl;
    apply accumulates_processToolCallBody.
  - intros c. keeps_step.
  - intros url start size. keeps_step.
  - exact IH.
  - intros url start size. apply sameCache_readCall.
Qed.

Lemma accumulates_sendMessage (fuel : nat) (env : Env) :
  keeps accumulates (sendMessage fuel env).
Proof.
  unfold sendMessage.
  keeps_auto;
    try (apply accumulates_handleOpenAIMessage;
         apply accumulates_processToolCall);
    apply accumulates_handleGeminiMessage; apply accumulates_processToolCall.
Qed.

Lemma accumulates_perform (fuel : nat) (env : Env) (op : Operation) :
  keeps accumulates (perform fuel env op).
Proof.
  destruct op; simpl.
  - unfold init. keeps_auto.
  - unfold updateSettings. keeps_auto.
  - unfold getSettings. keeps_auto.
  - apply accumulates_sendMessage.
  - unfold getChatHistory. keeps_auto.
  - unfold getTotalTokens. keeps_auto.
  - unfold clearChat. keeps_auto.
  - apply accumulates_processToolCall.
  - unfold getToolCallHistory. keeps_auto.
  - apply accumulates_summarizeSnippets.
Qed.

(** X7.  The audit log is append-only.  Whatever the page asks of the
    controller, in whatever world and however the operation ends, the
    records of the tool calls made before it are still there afterwards, in
    the same order, with the records of the new calls after them.  Not even
    [init] or [clearChat] removes a record. *)
Theorem toolCallHistory_append_only (fuel : nat) (env : Env) (op : Operation)
  (st : State) :
  exists added,
    toolCallHistory (fst (perform fuel env op st)) = toolCallHistory st ++ added.
Proof.
  destruct (accumulates_perform fuel env op st) as [Hlog _]. exact Hlog.
Qed.

(** X8.  The read cache is write-once.  A chunk that [deepReadUrl] has
    cached stays in the cache with the text it was stored with through every
    operation of the controller: nothing evicts it, overwrites it or clears
    it, [clearChat] and [init] included. *)
Theorem readCache_write_once (fuel : nat) (env : Env) (op : Operation)
  (st : State) (key value : jsstring) :
  cacheGet key (readCache st) = Some value ->
  cacheGet key (readCache (fst (perform fuel env op st))) = Some value.
Proof.
  destruct (accumulates_perform fuel env op st) as [_ [Hcache _]].
  apply Hcache.
Qed.

Lemma readCache_write_once_witness :
  let st := set_readCache [(str "key", str "chunk")] started in
  cacheGet (str "key")
           (readCache (fst (perform 1 exampleWorld op_clearChat st)))
  = Some (str "chunk").
Proof.
  intros st.
  apply (readCache_write_once 1 exampleWorld op_clearChat st (str "key")
           (str "chunk")).
  reflexivity.
Defined.

(** ** Summaries are shown, not logged *)

Lemma summarizerFrame_preorder : RelationClasses.PreOrder summarizerFrame.
Proof.
  split.
  - intros st. unfold summarizerFrame. repeat split.
  - intros a b c Hab Hbc. unfold summarizerFrame in *.
    repeat match goal with H : _ /\ _ |- _ => destruct H end.
    repeat split; congruence.
Qed.

#[export] Existing Instance summarizerFrame_preorder.

Ltac frame_update := unfold summarizerFrame; repeat split; reflexivity.

Ltac frame_step :=
  match goal with
  | |- keeps summarizerFrame (UI _) => apply keeps_modify; intros ?; frame_update
  | |- keeps summarizerFrame (modify _) =>
      apply keeps_modify; intros ?; frame_update
  | |- keeps summarizerFrame (await _) =>
      keeps_apply @keeps_await; intros ?; frame_update
  | |- _ => keeps_step
  end.

Lemma summarizerFrame_summarizeBatches (env : Env) (model : jsstring)
  (round totalBatches : Z) (batches : list (list jsstring)) :
  forall i batchSummaries,
    keeps summarizerFrame (summarizeBatches env model round totalBatches i
                                            batches batchSummaries).
Proof.
  induction batches as [|batch rest IH]; intros i batchSummaries; simpl.
  - frame_step.
  - repeat frame_step. apply IH.
Qed.

(** X9.  [summarizeSnippets] shows its summary (or its failure) on the page
    and empties the snippet buffer; it changes nothing else.  The summary is
    not appended to the conversation log, the token count is not updated,
    and the loop guard, the audit log, the cache, the search results and the
    settings are as they were, however the call ends. *)
Theorem summarizeSnippets_frame (fuel : nat) (env : Env)
  (snippets : option (list jsstring)) (round : Z) (st : State) :
  summarizerFrame st (fst (summarizeSnippets fuel env snippets round st)).
Proof.
  revert snippets round st.
  induction fuel as [|fuel IH]; intros snippets round; simpl.
  - change (keeps summarizerFrame (@diverge unit)). frame_step.
  - match goal with
    | |- forall st, summarizerFrame st (fst (?m st)) =>
        change (keeps summarizerFrame m)
    end.
    unfold summarizationFailed.
    keeps_apply @keeps_bind; [destruct snippets; repeat frame_step|].
    intros l. destruct l as [|only [|second more]].
    + frame_step.
    + repeat frame_step.
    + repeat frame_step; try apply summarizerFrame_summarizeBatches;
        intros st; apply IH.
Qed.

(** ** What never raises *)

Lemma neverRaises_ret {A : Type} (a : A) : neverRaises (ret a).
Proof. intros st e. discriminate. Qed.

Lemma neverRaises_diverge {A : Type} : neverRaises (@diverge A).
Proof. intros st e. discriminate. Qed.

Lemma neverRaises_gets {A : Type} (f : State -> A) : neverRaises (gets f).
Proof. intros st e. discriminate. Qed.

Lemma neverRaises_ask {A : Type} (f : nat -> A) : neverRaises (ask f).
Proof. intros st e. discriminate. Qed.

Lemma neverRaises_modify (f : State -> State) : neverRaises (modify f).
Proof. intros st e. discriminate. Qed.

Lemma neverRaises_UI (e : UIEvent) : neverRaises (UI e).
Proof. apply neverRaises_modify. Qed.

Lemma neverRaises_bind {A B : Type} (m : M A) (k : A -> M B) :
  neverRaises m -> (forall a, neverRaises (k a)) -> neverRaises (bind m k).
Proof.
  intros Hm Hk st e. unfold bind. specialize (Hm st).
  destruct (m st) as [st' [a|e'|]]; simpl in *.
  - apply Hk.
  - now elim (Hm e').
  - discriminate.
Qed.

Lemma neverRaises_try_catch {A : Type} (body : M A) (handler : jsstring -> M A) :
  (forall e, neverRaises (handler e)) -> neverRaises (try_catch body handler).
Proof.
  intros Hh st e. unfold try_catch.
  destruct (body st) as [st' [a|e'|]]; simpl; try discriminate. apply Hh.
Qed.

Lemma neverRaises_try_finally {A : Type} (body : M A) (cleanup : M unit) :
  neverRaises body -> neverRaises cleanup ->
  neverRaises (try_finally body cleanup).
Proof.
  intros Hb Hc st e. unfold try_finally. specialize (Hb st).
  destruct (body st) as [st' [a|e'|]]; simpl in *.
  - specialize (Hc st'). destruct (cleanup st') as [st'' [u|e''|]]; simpl in *;
      [discriminate | now elim (Hc e'') | discriminate].
  - now elim (Hb e').
  - discriminate.
Qed.

Lemma neverRaises_when (c : bool) (body : M unit) :
  neverRaises body -> neverRaises (when c body).
Proof. intros H. destruct c; [exact H | apply neverRaises_ret]. Qed.

Ltac neverRaises_step :=
  match goal with
  | |- neverRaises (bind _ _) => apply neverRaises_bind; [|intros ?]
  | |- neverRaises (ret _) => apply neverRaises_ret
  | |- neverRaises diverge => apply neverRaises_diverge
  | |- neverRaises (gets _) => apply neverRaises_gets
  | |- neverRaises (ask _) => apply neverRaises_ask
  | |- neverRaises (UI _) => apply neverRaises_UI
  | |- neverRaises (modify _) => apply neverRaises_modify
  | |- neverRaises (when _ _) => apply neverRaises_when
  | |- neverRaises (try_catch _ _) => apply neverRaises_try_catch; intros ?
  | |- neverRaises (try_finally _ _) => apply neverRaises_try_finally
  | |- neverRaises (if ?c then _ else _) => destruct c
  | |- neverRaises (match ?x with _ => _ end) => destruct x
  | |- neverRaises _ => assumption
  end.

Lemma neverRaises_summarizeSnippets (fuel : nat) (env : Env)
  (snippets : option (list jsstring)) (round : Z) :
  neverRaises (summarizeSnippets fuel env snippets round).
Proof.
  destruct fuel as [|fuel]; simpl; [apply neverRaises_diverge|].
  unfold summarizationFailed.
  apply neverRaises_bind; [destruct snippets; repeat neverRaises_step|].
  intros l. destruct l as [|only [|second more]]; repeat neverRaises_step.
Qed.

Lemma bind_returns {A B : Type} (m : M A) (k : A -> M B) (st st' : State)
  (b : B) :
  bind m k st = (st', Ok b) ->
  exists a st1, m st = (st1, Ok a) /\ k a st1 = (st', Ok b).
Proof.
  unfold bind. destruct (m st) as [st1 [a|e|]]; intros H; try discriminate.
  now exists a, st1.
Qed.

(** X10.  [summarizeSnippets] reports every failure on the page instead of
    raising it.  Called with nothing to summarize it does nothing;
    otherwise, when it returns, the snippet buffer is empty, whether the
    summary was made or the request failed. *)
Theorem summarizeSnippets_outcome (fuel : nat) (env : Env)
  (snippets : option (list jsstring)) (round : Z) (st : State) :
  (forall e, snd (summarizeSnippets fuel env snippets round st) <> Exn e)
  /\ (snippetsToSummarize snippets st = [] ->
      summarizeSnippets (S fuel) env snippets round st = (st, Ok tt))
  /\ (snippetsToSummarize snippets st <> [] ->
      forall st',
        summarizeSnippets fuel env snippets round st = (st', Ok tt) ->
        readSnippets st' = []).
Proof.
  split; [intros e; apply neverRaises_summarizeSnippets|]. split.
  - intros Hnone. cbn [summarizeSnippets]. unfold bind.
    destruct snippets as [l|]; simpl in Hnone |- *; now rewrite Hnone.
  - intros Hsome st' Hrun.
    destruct fuel as [|fuel]; [discriminate|]. cbn [summarizeSnippets] in Hrun.
    apply bind_returns in Hrun. destruct Hrun as [l [st1 [Hl Hrun]]].
    assert (Hl' : l = snippetsToSummarize snippets st /\ st1 = st).
    { destruct snippets; inversion Hl; auto. }
    destruct Hl' as [-> ->].
    destruct (snippetsToSummarize snippets st) as [|only [|second more]];
      [now elim Hsome| |];
      repeat (apply bind_returns in Hrun;
              destruct Hrun as [? [? [_ Hrun]]]);
      inversion Hrun; reflexivity.
Qed.

Lemma summarizeSnippets_outcome_witness :
  let st := set_readSnippets [str "one"; str "two"] loaded in
  readSnippets (fst (summarizeSnippets 1 offlineWorld None 1 st)) = [].
Proof.
  intros st.
  destruct (summarizeSnippets_outcome 1 offlineWorld None 1 st) as [_ [_ H]].
  apply H; [discriminate|]. vm_compute. reflexivity.
Defined.

(** ** Sending a message *)

(** X11.  [sendMessage] never raises to the page: what the model, the
    services or a tool raise is caught and shown as an error message.  With
    an empty input it does nothing.  And whenever it returns after a message
    was sent, the last three calls on the page show the token count, clear
    the status line and enable the inputs again. *)
Theorem sendMessage_always_recovers (fuel : nat) (env : Env) (st : State) :
  (forall e, snd (sendMessage fuel env st) <> Exn e)
  /\ (getUserInput env (clock st) = [] -> sendMessage fuel env st = (st, Ok tt))
  /\ (getUserInput env (clock st) <> [] ->
      forall st',
        sendMessage fuel env st = (st', Ok tt) ->
        exists shown,
          ui st' = shown ++ [updateTokenDisplay (totalTokens st'); clearStatus;
                             setInputsDisabled false]).
Proof.
  split; [|split].
  - intros e. revert st e.
    change (neverRaises (sendMessage fuel env)).
    unfold sendMessage. repeat neverRaises_step.
  - intros Hnone. unfold sendMessage, bind, ask, gets. now rewrite Hnone.
  - intros Hinput st' Hrun. unfold sendMessage in Hrun.
    apply bind_returns in Hrun. destruct Hrun as [message [st1 [Hm Hrun]]].
    inversion Hm; subst st1 message; clear Hm.
    destruct (getUserInput env (clock st)) as [|c message]; [now elim Hinput|].
    cbn [nonEmpty negb] in Hrun.
    repeat (apply bind_returns in Hrun; destruct Hrun as [? [? [_ Hrun]]]).
    unfold try_finally in Hrun.
    match type of Hrun with
    | context [try_catch ?b ?h ?s] => destruct (try_catch b h s) as [st2 [[]|e|]]
    end; [|discriminate|discriminate].
    inversion Hrun; subst st'; clear Hrun.
    exists (ui st2). cbn. rewrite <- !app_assoc. reflexivity.
Qed.

Lemma sendMessage_always_recovers_witness :
  exists shown,
    ui (fst (sendMessage 1 offlineWorld loaded))
    = shown ++ [updateTokenDisplay 0; clearStatus; setInputsDisabled false].
Proof.
  destruct (sendMessage_always_recovers 1 offlineWorld loaded) as [_ [_ H]].
  apply (H ltac:(discriminate) (fst (sendMessage 1 offlineWorld loaded))).
  vm_compute. reflexivity.
Defined.

(** ** Deep reading ends, and within its cap *)

Lemma returns_ret {A : Type} (a : A) : returns (ret a).
Proof. intros st. discriminate. Qed.

Lemma returns_throw {A : Type} (e : jsstring) : returns (@throw A e).
Proof. intros st. discriminate. Qed.

Lemma returns_gets {A : Type} (f : State -> A) : returns (gets f).
Proof. intros st. discriminate. Qed.

Lemma returns_ask {A : Type} (f : nat -> A) : returns (ask f).
Proof. intros st. discriminate. Qed.

Lemma returns_modify (f : State -> State) : returns (modify f).
Proof. intros st. discriminate. Qed.

Lemma returns_lift {A : Type} (c : Completion A) : returns (lift c).
Proof. destruct c; [apply returns_ret | apply returns_throw]. Qed.

Lemma returns_await {A : Type} (answer : nat -> Completion A) :
  returns (await answer).
Proof.
  intros st. unfold await. destruct (answer (clock st)); discriminate.
Qed.

Lemma returns_bind {A B : Type} (m : M A) (k : A -> M B) :
  returns m -> (forall a, returns (k a)) -> returns (bind m k).
Proof.
  intros Hm Hk st. unfold bind. specialize (Hm st).
  destruct (m st) as [st' [a|e|]]; simpl in *;
    [apply Hk | discriminate | now elim Hm].
Qed.

Lemma returns_try_catch {A : Type} (body : M A) (handler : jsstring -> M A) :
  returns body -> (forall e, returns (handler e)) ->
  returns (try_catch body handler).
Proof.
  intros Hb Hh st. unfold try_catch. specialize (Hb st).
  destruct (body st) as [st' [a|e|]]; simpl in *;
    [discriminate | apply Hh | now elim Hb].
Qed.

Lemma returns_when (c : bool) (body : M unit) :
  returns body -> returns (when c body).
Proof. intros H. destruct c; [exact H | apply returns_ret]. Qed.

Ltac returns_step :=
  match goal with
  | |- returns (bind _ _) => apply returns_bind; [|intros ?]
  | |- returns (ret _) => apply returns_ret
  | |- returns (throw _) => apply returns_throw
  | |- returns (gets _) => apply returns_gets
  | |- returns (ask _) => apply returns_ask
  | |- returns (lift _) => apply returns_lift
  | |- returns (UI _) => apply returns_modify
  | |- returns (pushTurn _ _) => apply returns_modify
  | |- returns (modify _) => apply returns_modify
  | |- returns (when _ _) => apply returns_when
  | |- returns (try_catch _ _) => apply returns_try_catch; [|intros ?]
  | |- returns (await _) => apply returns_await
  | |- returns (if ?c then _ else _) => destruct c
  | |- returns (match ?x with _ => _ end) => destruct x
  | |- returns _ => assumption
  end.

Lemma returns_read_url (env : Env) (args : JSON) : returns (read_url env args).
Proof. unfold read_url. repeat returns_step. Qed.

(** A nested read, as [deepReadUrl] asks for it, ends at every depth: its
    handler calls nothing back and the model is not consulted after it. *)
Lemma returns_readCall (fuel : nat) (env : Env) (url : jsstring)
  (start size : Z) :
  returns (processToolCall fuel env (readCall url start size)).
Proof.
  rewrite processToolCall_unfold.
  unfold processToolCallBody, executeToolCall, runHandler.
  change (lookupHandler (tool (readCall url start size))) with handler_read_url.
  change (skipContinue (readCall url start size)) with true.
  cbn [negb]. unfold when.
  repeat returns_step. apply returns_read_url.
Qed.

Lemma returns_deepReadLoop (env : Env) (nested : ToolCall -> M unit)
  (url : jsstring) (maxChunks chunkSize maxTotalLength : Z) :
  (forall start, returns (nested (readCall url start chunkSize))) ->
  forall n v,
    (shouldContinue v = true -> (maxChunks - chunkCount v <= Z.of_nat n)%Z) ->
    returns (deepReadLoop n env nested url maxChunks chunkSize maxTotalLength v).
Proof.
  intros Hnested.
  induction n as [|n IH]; intros v Hfuel; cbn [deepReadLoop].
  - destruct (shouldContinue v) eqn:Hgo; cbn [andb]; [|apply returns_ret].
    specialize (Hfuel eq_refl).
    replace (chunkCount v <? maxChunks)%Z with false
      by (symmetry; apply Z.ltb_ge; lia).
    apply returns_ret.
  - destruct (shouldContinue v) eqn:Hgo; cbn [andb]; [|apply returns_ret].
    specialize (Hfuel eq_refl).
    destruct (chunkCount v <? maxChunks)%Z; cbn [andb]; [|apply returns_ret].
    destruct (totalLength v <? maxTotalLength)%Z; [|apply returns_ret].
    repeat returns_step; try apply Hnested;
      apply IH; cbn [shouldContinue chunkCount]; intros; try discriminate; lia.
Qed.

(** X12.  [deepReadUrl] always ends.  Every iteration that goes on counts
    one chunk, the cap on chunks stops the loop, and the nested [read_url]
    calls end at every depth of nesting: the call returns or raises, for
    every address, every cap and budget, in every world and state. *)
Theorem deepReadUrl_terminates (fuel : nat) (env : Env) (url : jsstring)
  (maxChunks chunkSize maxTotalLength : Z) (st : State) :
  snd (deepReadUrl env (processToolCall fuel env) url maxChunks chunkSize
                   maxTotalLength st) <> Diverge.
Proof.
  revert st.
  change (returns (deepReadUrl env (processToolCall fuel env) url maxChunks
                               chunkSize maxTotalLength)).
  unfold deepReadUrl, deepRead.
  apply returns_bind; [|intros v; apply returns_ret].
  apply returns_deepReadLoop.
  - intros start. apply returns_readCall.
  - cbn [shouldContinue chunkCount]. intros _. lia.
Qed.

Lemma onReturn_ret {A : Type} (Q : A -> Prop) (a : A) : Q a -> onReturn Q (ret a).
Proof. intros H st. exact H. Qed.

Lemma onReturn_diverge {A : Type} (Q : A -> Prop) : onReturn Q diverge.
Proof. intros st. exact I. Qed.

Lemma onReturn_bind {A B : Type} (P : A -> Prop) (Q : B -> Prop) (m : M A)
  (k : A -> M B) :
  onReturn P m -> (forall a, P a -> onReturn Q (k a)) -> onReturn Q (bind m k).
Proof.
  intros Hm Hk st. unfold bind. specialize (Hm st).
  destruct (m st) as [st' [a|e|]]; simpl in *; [|exact I|exact I].
  apply (Hk a Hm st').
Qed.

Lemma onReturn_any {A : Type} (m : M A) : onReturn (fun _ => True) m.
Proof. intros st. now destruct (snd (m st)). Qed.

Lemma onReturn_ask {A : Type} (f : nat -> A) :
  onReturn (fun a => exists t, a = f t) (ask f).
Proof. intros st. simpl. now exists (clock st). Qed.

Lemma onReturn_try_catch {A : Type} (Q : A -> Prop) (body : M A)
  (handler : jsstring -> M A) :
  onReturn Q body -> (forall e, onReturn Q (handler e)) ->
  onReturn Q (try_catch body handler).
Proof.
  intros Hb Hh st. unfold try_catch. specialize (Hb st).
  destruct (body st) as [st' [a|e|]]; simpl in *; [assumption| |exact I].
  apply Hh.
Qed.

Lemma onReturn_run {A : Type} (Q : A -> Prop) (m : M A) (st st' : State)
  (a : A) :
  onReturn Q m -> m st = (st', Ok a) -> Q a.
Proof. intros H Hrun. specialize (H st). now rewrite Hrun in H. Qed.

Lemma chunksWithin_deepReadLoop (env : Env) (nested : ToolCall -> M unit)
  (url : jsstring) (maxChunks chunkSize maxTotalLength : Z) :
  forall n v,
    chunksWithin maxChunks v ->
    onReturn (chunksWithin maxChunks)
             (deepReadLoop n env nested url maxChunks chunkSize maxTotalLength v).
Proof.
  induction n as [|n IH]; intros v Hv; cbn [deepReadLoop].
  - destruct (shouldContinue v && (chunkCount v <? maxChunks)%Z
              && (totalLength v <? maxTotalLength)%Z);
      [apply onReturn_diverge | now apply onReturn_ret].
  - destruct (shouldContinue v && (chunkCount v <? maxChunks)%Z
              && (totalLength v <? maxTotalLength)%Z) eqn:Hcond;
      [|now apply onReturn_ret].
    apply andb_true_iff in Hcond. destruct Hcond as [Hcond _].
    apply andb_true_iff in Hcond. destruct Hcond as [Hgo Hcap].
    apply Z.ltb_lt in Hcap.
    destruct Hv as [Hfull Hcount]. rewrite Hgo in Hcount.
    apply (onReturn_bind (fun _ => True)); [apply onReturn_any|].
    intros cached _.
    apply (onReturn_bind (fun _ => True)); [apply onReturn_any|].
    intros snippet _.
    destruct snippet as [|unit more].
    { apply onReturn_ret. split; [exact Hfull|]. now rewrite Hgo. }
    assert (Hfull' : Forall (fun chunk : jsstring => chunk <> [])
                            (allChunks v ++ [unit :: more])).
    { apply Forall_app. split; [exact Hfull|].
      constructor; [discriminate | constructor]. }
    apply (onReturn_bind (fun _ => True)); [apply onReturn_any|].
    intros model _.
    apply (onReturn_bind (fun _ => True)); [apply onReturn_any|].
    intros asked _.
    destruct asked as [aiReply|].
    + destruct (startsWith (str "yes") aiReply && _); apply IH;
        (split; [exact Hfull'|]); cbn [shouldContinue allChunks chunkCount];
        rewrite length_app; cbn [Datatypes.length]; lia.
    + apply onReturn_ret. split; [exact Hfull'|].
      cbn [shouldContinue allChunks chunkCount].
      rewrite length_app. cbn [Datatypes.length]. lia.
Qed.

(** X13.  [deepReadUrl] never returns more chunks than its cap allows, and
    never an empty chunk, whatever the pages, the cache and the model hold
    and whatever the nested calls do. *)
Theorem deepReadUrl_chunk_bound (env : Env) (nested : ToolCall -> M unit)
  (url : jsstring) (maxChunks chunkSize maxTotalLength : Z) (st st' : State)
  (chunks : list jsstring) :
  deepReadUrl env nested url maxChunks chunkSize maxTotalLength st
  = (st', Ok chunks) ->
  (Z.of_nat (length chunks) <= Z.max 0 maxChunks)%Z
  /\ Forall (fun chunk => chunk <> []) chunks.
Proof.
  intros Hrun. unfold deepReadUrl in Hrun.
  apply bind_returns in Hrun. destruct Hrun as [v [st1 [Hloop Hret]]].
  inversion Hret; subst st1 chunks; clear Hret.
  assert (Hv : chunksWithin maxChunks v).
  { eapply onReturn_run; [|exact Hloop].
    apply chunksWithin_deepReadLoop.
    split; [constructor|]. cbn [shouldContinue allChunks chunkCount length].
    lia. }
  destruct Hv as [Hfull Hcount]. split; [|exact Hfull].
  destruct (shouldContinue v); lia.
Qed.

Lemma deepReadUrl_chunk_bound_witness :
  let world := worldOf (pageOf 100) (str "Yes, more.") in
  let run := deepReadUrl world (processToolCall 1 world) exampleUrl 3 10 1000
                         started in
  exists chunks,
    snd run = Ok chunks
    /\ (Z.of_nat (length chunks) <= Z.max 0 3)%Z
    /\ Forall (fun chunk => chunk <> []) chunks.
Proof.
  intros world run.
  destruct run as [st' [chunks|e|]] eqn:Hrun;
    [|vm_compute in Hrun; discriminate|vm_compute in Hrun; discriminate].
  exists chunks. split; [reflexivity|].
  exact (deepReadUrl_chunk_bound _ _ _ _ _ _ _ _ _ Hrun).
Defined.

Lemma deepReadLoop_stopped (n : nat) (env : Env) (nested : ToolCall -> M unit)
  (url : jsstring) (maxChunks chunkSize maxTotalLength : Z) (v : DeepRead) :
  shouldContinue v = false ->
  deepReadLoop n env nested url maxChunks chunkSize maxTotalLength v = ret v.
Proof. intros H. destruct n; cbn [deepReadLoop]; now rewrite H. Qed.

Lemma set_readCache_same (st : State) : st = set_readCache (readCache st) st.
Proof. now destruct st. Qed.

(** X14.  With a model that is not one of OpenAI's (its name does not start
    with [gpt]) a deep read asks nothing of the model and stops after its
    first chunk: [deepReadUrl] returns one chunk at most, and the state it
    leaves is the state its one nested [read_url] call left (the state
    before, when the chunk was cached or the loop was not entered) but for
    the read cache.  So no request was made after that call. *)
Theorem deepReadUrl_without_gpt (env : Env) (nested : ToolCall -> M unit)
  (url : jsstring) (maxChunks chunkSize maxTotalLength : Z) (st st' : State)
  (chunks : list jsstring) :
  (forall t, isGpt (selectedModel env t) = false) ->
  deepReadUrl env nested url maxChunks chunkSize maxTotalLength st
  = (st', Ok chunks) ->
  length chunks <= 1
  /\ exists read,
       (read = st \/ nested (readCall url 0 chunkSize) st = (read, Ok tt))
       /\ st' = set_readCache (readCache st') read
       /\ clock st' = clock read.
Proof.
  intros Hmodel Hrun. unfold deepReadUrl in Hrun.
  apply bind_returns in Hrun. destruct Hrun as [v [st1 [Hloop Hret]]].
  inversion Hret; subst st1 chunks; clear Hret.
  unfold deepRead in Hloop.
  destruct (Z.to_nat maxChunks) as [|n]; cbn [deepReadLoop] in Hloop;
    cbn [shouldContinue chunkCount totalLength start allChunks] in Hloop.
  - destruct (true && (0 <? maxChunks)%Z && (0 <? maxTotalLength)%Z);
      [discriminate|].
    inversion Hloop; subst. split; [simpl; lia|].
    exists st'. split; [now left|]. split; [apply set_readCache_same | reflexivity].
  - destruct (true && (0 <? maxChunks)%Z && (0 <? maxTotalLength)%Z);
      [|inversion Hloop; subst; split; [simpl; lia|];
        exists st'; split; [now left|];
        split; [apply set_readCache_same | reflexivity]].
    apply bind_returns in Hloop. destruct Hloop as [cached [s0 [Hcached Hloop]]].
    inversion Hcached; subst s0 cached; clear Hcached.
    apply bind_returns in Hloop. destruct Hloop as [snippet [read [Hsnippet Hloop]]].
    assert (Htail : st' = read /\ length (allChunks v) <= 1).
    { destruct snippet as [|unit more].
      - inversion Hloop; subst. split; [reflexivity | simpl; lia].
      - apply bind_returns in Hloop.
        destruct Hloop as [model [s1 [Hask Hloop]]].
        inversion Hask; subst s1 model; clear Hask.
        rewrite Hmodel in Hloop.
        apply bind_returns in Hloop.
        destruct Hloop as [asked [s2 [Htry Hloop]]].
        inversion Htry; subst s2 asked; clear Htry.
        change (startsWith (str "yes") []) with false in Hloop.
        cbn [andb] in Hloop.
        rewrite deepReadLoop_stopped in Hloop by reflexivity.
        inversion Hloop; subst. split; [reflexivity | simpl; lia]. }
    destruct Htail as [-> Hone]. split; [exact Hone|]. clear Hloop.
    destruct (cacheGet _ (readCache st)) as [s|].
    + inversion Hsnippet; subst. exists read.
      split; [now left|]. split; [apply set_readCache_same | reflexivity].
    + apply bind_returns in Hsnippet.
      destruct Hsnippet as [[] [read0 [Hnested Hrest]]].
      exists read0. split; [now right|].
      apply bind_returns in Hrest.
      destruct Hrest as [lastEntry [s1 [Hlast Hrest]]].
      inversion Hlast; subst s1 lastEntry; clear Hlast.
      destruct (lastOf (chatHistory read0)) as [entry|];
        [destruct (startsWith (str "Read content from") (content entry))|];
        inversion Hrest; subst;
        (split; [first [apply set_readCache_same | reflexivity] | reflexivity]).
Qed.

Lemma deepReadUrl_without_gpt_witness :
  let world := geminiWorld (pageOf 12000) in
  let run := deepReadUrl world (processToolCall 1 world) exampleUrl 5 2000 10000
                         started in
  exists chunks,
    snd run = Ok chunks
    /\ length chunks = 1
    /\ clock (fst run) = 1.
Proof.
  intros world run.
  assert (Hclock : clock (fst run) = 1) by (vm_compute; reflexivity).
  destruct run as [st' [chunks|e|]] eqn:Hrun;
    [|vm_compute in Hrun; discriminate|vm_compute in Hrun; discriminate].
  exists chunks. split; [reflexivity|]. split; [|exact Hclock].
  destruct (deepReadUrl_without_gpt world (processToolCall 1 world)
              exampleUrl 5 2000 10000 started st' chunks
              (fun _ => eq_refl) Hrun) as [Hmost _].
  assert (Hsome : chunks <> []).
  { intros ->. vm_compute in Hrun. discriminate. }
  destruct chunks as [|c [|d more]]; [now elim Hsome | reflexivity |].
  simpl in Hmost. lia.
Defined.

(** ** Deep reading and its length budget *)

Lemma withinBudget_deepReadLoop (env : Env) (nested : ToolCall -> M unit)
  (url : jsstring) (maxChunks chunkSize maxTotalLength : Z) :
  forall n v,
    withinBudget maxTotalLength v ->
    onReturn (withinBudget maxTotalLength)
             (deepReadLoop n env nested url maxChunks chunkSize maxTotalLength v).
Proof.
  induction n as [|n IH]; intros v Hv; cbn [deepReadLoop].
  - destruct (shouldContinue v && (chunkCount v <? maxChunks)%Z
              && (totalLength v <? maxTotalLength)%Z);
      [apply onReturn_diverge | now apply onReturn_ret].
  - destruct (shouldContinue v && (chunkCount v <? maxChunks)%Z
              && (totalLength v <? maxTotalLength)%Z) eqn:Hcond;
      [|now apply onReturn_ret].
    apply andb_true_iff in Hcond. destruct Hcond as [_ Hbudget].
    apply Z.ltb_lt in Hbudget.
    destruct Hv as [Htotal _].
    apply (onReturn_bind (fun _ => True)); [apply onReturn_any|].
    intros cached _.
    apply (onReturn_bind (fun _ => True)); [apply onReturn_any|].
    intros snippet _.
    destruct snippet as [|unit more].
    { apply onReturn_ret. split; [exact Htotal|].
      destruct (allChunks v) as [|c l] eqn:Hchunks; [now left|].
      right. rewrite Htotal in Hbudget.
      pose proof (app_removelast_last [] (l := c :: l) ltac:(discriminate))
        as Hsplit.
      rewrite Hsplit, batchLength_app in Hbudget.
      pose proof (batchLength_nonneg [last (c :: l) []]). lia. }
    assert (Hnext : forall go start count,
               withinBudget maxTotalLength
                 (mkDeepRead (allChunks v ++ [unit :: more]) start go count
                             (totalLength v + len (unit :: more)))).
    { intros go start count. split; cbn [totalLength allChunks].
      - rewrite batchLength_app, Htotal. simpl. lia.
      - right. rewrite removelast_last. lia. }
    apply (onReturn_bind (fun _ => True)); [apply onReturn_any|].
    intros model _.
    apply (onReturn_bind (fun _ => True)); [apply onReturn_any|].
    intros asked _.
    destruct asked as [aiReply|].
    + destruct (startsWith (str "yes") aiReply && _); apply IH; apply Hnext.
    + apply onReturn_ret. apply Hnext.
Qed.

(** X15.  The length budget of [deepReadUrl] is checked before each read,
    not after it: the chunks returned, without the last one, are together
    shorter than [maxTotalLength], so the budget is overshot by one chunk at
    most; and with a budget of zero or less nothing is read at all. *)
Theorem deepReadUrl_length_budget (env : Env) (nested : ToolCall -> M unit)
  (url : jsstring) (maxChunks chunkSize maxTotalLength : Z) (st st' : State)
  (chunks : list jsstring) :
  deepReadUrl env nested url maxChunks chunkSize maxTotalLength st
  = (st', Ok chunks) ->
  (chunks <> [] -> (batchLength (removelast chunks) < maxTotalLength)%Z)
  /\ ((maxTotalLength <= 0)%Z -> chunks = []).
Proof.
  intros Hrun. unfold deepReadUrl in Hrun.
  apply bind_returns in Hrun. destruct Hrun as [v [st1 [Hloop Hret]]].
  inversion Hret; subst st1 chunks; clear Hret.
  assert (Hv : withinBudget maxTotalLength v).
  { eapply onReturn_run; [|exact Hloop].
    apply withinBudget_deepReadLoop.
    split; [reflexivity | now left]. }
  destruct Hv as [_ [Hnone|Hsome]].
  - split; [intros H; now elim H | intros _; exact Hnone].
  - split; [intros _; exact Hsome|].
    intros Hzero. pose proof (batchLength_nonneg (removelast (allChunks v))).
    lia.
Qed.

Lemma deepReadUrl_length_budget_witness :
  let world := worldOf (pageOf 100) (str "Yes, more.") in
  let run := deepReadUrl world (processToolCall 1 world) exampleUrl 5 10 25
                         started in
  exists chunks,
    snd run = Ok chunks
    /\ map len chunks = [13; 13]%Z
    /\ (batchLength (removelast chunks) < 25)%Z.
Proof.
  intros world run.
  destruct run as [st' [chunks|e|]] eqn:Hrun;
    [|vm_compute in Hrun; discriminate|vm_compute in Hrun; discriminate].
  exists chunks. split; [reflexivity|].
  destruct (deepReadUrl_length_budget _ _ _ _ _ _ _ _ _ Hrun) as [Hbudget _].
  assert (Hlens : map len chunks = [13; 13]%Z).
  { assert (Hchunks : snd run = Ok chunks) by (rewrite Hrun; reflexivity).
    vm_compute in Hchunks. inversion Hchunks. reflexivity. }
  split; [exact Hlens|].
  apply Hbudget. intros ->. discriminate.
Defined.

(** ** Failures of the services *)











(** ** Calls that cannot be carried out *)

Lemma loopGuard_frame (signature : jsstring) (st : State) :
  chatHistory (loopGuard signature st) = chatHistory st
  /\ toolCallHistory (loopGuard signature st) = toolCallHistory st
  /\ ui (loopGuard signature st) = ui st
  /\ clock (loopGuard signature st) = clock st.
Proof.
  unfold loopGuard. destruct (lastToolCall st) as [previous|];
    [destruct (JsString.eqb previous signature)|]; repeat split.
Qed.

(** X18.  A call that passes the loop guard and cannot be carried out
    raises: a call whose tool is no function of the registry (it is neither
    one of the three handlers nor a method every object inherits, such as
    [toString]), or a call of one of the three handlers with [null] for
    arguments.  It raises after the loop guard has counted it and the audit
    log has recorded it; nothing is shown on the page, nothing is added to
    the conversation and no request is made. *)
Theorem unexecutable_call_is_logged_then_raises (fuel : nat) (env : Env)
  (call : ToolCall) (st : State) :
  unexecutable call = true ->
  (lastToolCallCount (loopGuard (callSignature call) st) <= 3)%Z ->
  exists st' message,
    processToolCall fuel env call st = (st', Exn message)
    /\ toolCallHistory st'
       = toolCallHistory st
         ++ [mkRecord (tool call) (arguments call) (now env (clock st))]
    /\ lastToolCall st' = Some (callSignature call)
    /\ chatHistory st' = chatHistory st
    /\ ui st' = ui st
    /\ clock st' = clock st.
Proof.
  intros Hun Hcount.
  pose proof (executes_below fuel env call st Hcount) as Hexec.
  unfold executes in Hexec. rewrite Hexec. clear Hexec.
  pose proof (loopGuard_records (callSignature call) st) as Hlast.
  destruct (loopGuard_frame (callSignature call) st)
    as [Hhistory [Hlog [Hui Hclock]]].
  destruct (loopGuard (callSignature call) st) as
    [h tokens s thinking lastT lastA snippets lastCall count results auto
     log highlighted cache shown time].
  cbn [chatHistory toolCallHistory ui clock lastToolCall] in *.
  subst h log shown time.
  unfold unexecutable in Hun.
  unfold executeToolCall, runHandler.
  destruct (lookupHandler (tool call)); try discriminate;
    try (destruct (arguments call) eqn:Hargs; try discriminate;
         unfold web_search, read_url, instant_answer);
    run; do 2 eexists; (split; [reflexivity|]);
    cbn [toolCallHistory lastToolCall chatHistory ui clock]; auto.
Qed.

Lemma unexecutable_call_is_logged_then_raises_witness :
  exists st' message,
    processToolCall 1 exampleWorld unknownCall started = (st', Exn message)
    /\ length (toolCallHistory st') = 1
    /\ chatHistory st' = chatHistory started.
Proof.
  destruct (unexecutable_call_is_logged_then_raises 1 exampleWorld unknownCall
              started)
    as [st' [message [Hrun [Hlog [_ [Hhistory _]]]]]].
  - reflexivity.
  - vm_compute. discriminate.
  - exists st', message. split; [exact Hrun|]. split; [|exact Hhistory].
    rewrite Hlog. reflexivity.
Defined.

(** ** Reading the suggested results *)

(** X19.  An automatic read is not entered twice, and its flag does not stay
    up: while one is in progress a second call does nothing at all; and a
    call that finds the flag down leaves it down when it ends, whether it
    returns or raises. *)
Theorem autoRead_flag (fuel : nat) (env : Env) (nested : ToolCall -> M unit)
  (aiReply : jsstring) (st : State) :
  (autoReadInProgress st = true ->
   autoReadAndSummarizeFromSuggestion fuel env nested aiReply st = (st, Ok tt))
  /\ (autoReadInProgress st = false ->
      snd (autoReadAndSummarizeFromSuggestion fuel env nested aiReply st)
      <> Diverge ->
      autoReadInProgress
        (fst (autoReadAndSummarizeFromSuggestion fuel env nested aiReply st))
      = false).
Proof.
  split; intros Hflag.
  - unfold autoReadAndSummarizeFromSuggestion.
    unfold bind at 1. unfold gets at 1. now rewrite Hflag.
  - destruct (autoReadAndSummarizeFromSuggestion fuel env nested aiReply st)
      as [st' r] eqn:Hrun.
    cbn [fst snd]. revert Hrun. unfold autoReadAndSummarizeFromSuggestion.
    unfold bind at 1. unfold gets at 1. rewrite Hflag.
    unfold bind at 1. unfold gets at 1.
    destruct (negb (nonEmpty (lastSearchResults st)));
      [intros Hrun; inversion Hrun; now subst|].
    destruct (matchNumberList aiReply) as [matched|];
      [|intros Hrun; inversion Hrun; now subst].
    destruct (negb (nonEmpty (suggestedNumbers matched)));
      [intros Hrun; inversion Hrun; now subst|].
    unfold bind at 1. unfold modify at 1.
    destruct (negb (nonEmpty (suggestedUrls (lastSearchResults st)
                                            (suggestedNumbers matched))));
      [intros Hrun; inversion Hrun; now subst|].
    unfold bind at 1. unfold modify at 1. unfold try_finally.
    match goal with
    | |- context [bind ?m ?k ?s] => destruct (bind m k s) as [st1 [[]|e|]]
    end; cbn; intros Hrun Hend; inversion Hrun; subst; try reflexivity.
    now elim Hend.
Qed.

Lemma autoRead_flag_witness :
  let st := set_lastSearchResults exampleResults started in
  autoReadInProgress
    (fst (autoReadAndSummarizeFromSuggestion 2 offlineWorld
            (processToolCall 1 offlineWorld) (str "1, 3") st)) = false.
Proof.
  intros st.
  destruct (autoRead_flag 2 offlineWorld (processToolCall 1 offlineWorld)
              (str "1, 3") st) as [_ H].
  apply H; [reflexivity|]. vm_compute. discriminate.
Defined.

(** X20.  Only addresses of search results are read automatically: every
    address chosen comes from the result whose number the model gave,
    counted from one; a number below one or past the last result, and a
    result without an address, give nothing to read. *)
Theorem suggestedUrls_from_results (results : list SearchResult)
  (nums : list Z) (address : jsstring) :
  In address (suggestedUrls results nums) ->
  exists n r,
    In n nums
    /\ (1 <= n <= Z.of_nat (length results))%Z
    /\ nth_error results (Z.to_nat (n - 1)) = Some r
    /\ url r = address
    /\ address <> [].
Proof.
  unfold suggestedUrls. intros Hin.
  apply in_flat_map in Hin. destruct Hin as [n [Hn Hin]].
  destruct (1 <=? n)%Z eqn:Hlow; [|now elim Hin].
  apply Z.leb_le in Hlow.
  destruct (nth_error results (Z.to_nat (n - 1))) as [r|] eqn:Hnth;
    [|now elim Hin].
  destruct (url r) as [|c rest] eqn:Hurl; [now elim Hin|].
  destruct Hin as [Heq|[]]. exists n, r.
  split; [exact Hn|]. split.
  - split; [exact Hlow|].
    assert (Z.to_nat (n - 1) < Datatypes.length results)
      by (apply nth_error_Some; congruence).
    lia.
  - split; [exact Hnth|]. split; [congruence|]. rewrite <- Heq. discriminate.
Qed.

Lemma suggestedUrls_from_results_witness :
  suggestedUrls exampleResults (suggestedNumbers (str "3, 0, 2, 7, 1"))
  = [str "https://example.com/3"; str "https://example.com/1"]
  /\ exists n r,
       In n (suggestedNumbers (str "3, 0, 2, 7, 1"))
       /\ (1 <= n <= 3)%Z
       /\ nth_error exampleResults (Z.to_nat (n - 1)) = Some r
       /\ url r = str "https://example.com/3"
       /\ str "https://example.com/3" <> [].
Proof.
  split; [vm_compute; reflexivity|].
  apply (suggestedUrls_from_results exampleResults
           (suggestedNumbers (str "3, 0, 2, 7, 1")) (str "https://example.com/3")).
  vm_compute. auto.
Defined.

(** ** Replies that are not tool calls *)

Lemma dropWhile_free (c : codeunit) (s : jsstring) :
  freeOf c s = true -> dropWhile (fun x => negb (x =? c)%N) s = [].
Proof.
  induction s as [|x s IH]; simpl; [reflexivity|].
  intros H. apply andb_true_iff in H. destruct H as [Hx Hs].
  rewrite Hx. now apply IH.
Qed.

Lemma extractToolCall_without_brace (reply : jsstring) :
  freeOf 123%N reply = true -> extractToolCall reply = Normal JNull.
Proof.
  intros Hfree. unfold extractToolCall, matchBraces. now rewrite dropWhile_free.
Qed.

(** X21.  A reply without an opening brace is never taken for a tool call:
    [extractToolCall] gives [null], and what is done with the complete reply
    does not depend on [processToolCall] at all. *)
Theorem reply_without_brace_is_prose (reply : jsstring) :
  freeOf 123%N reply = true ->
  extractToolCall reply = Normal JNull
  /\ forall nested nested',
       completeReply nested reply = completeReply nested' reply.
Proof.
  intros Hfree.
  pose proof (extractToolCall_without_brace reply Hfree) as Hnull.
  split; [exact Hnull|].
  intros nested nested'. unfold completeReply. rewrite Hnull. reflexivity.
Qed.

Lemma reply_without_brace_is_prose_witness :
  extractToolCall (str "The answer is 42.") = Normal JNull.
Proof.
  apply (reply_without_brace_is_prose (str "The answer is 42.")). reflexivity.
Defined.

(** ** Numbers in the prompt, numbers in the reply *)

Lemma digitsFuel_isDigit (fuel : nat) :
  forall n acc,
    forallb isDigit acc = true -> forallb isDigit (digitsFuel fuel n acc) = true.
Proof.
  induction fuel as [|f IH]; intros n acc Hacc; cbn [digitsFuel]; [exact Hacc|].
  assert (Hchar : isDigit (48 + n mod 10)%N = true).
  { unfold isDigit.
    pose proof (N.mod_lt n 10 ltac:(discriminate)) as Hlt.
    set (r := (n mod 10)%N) in *. clearbody r.
    apply andb_true_iff. split; apply N.leb_le; lia. }
  assert (Hd : forallb isDigit ((48 + n mod 10)%N :: acc) = true)
    by (cbn [forallb]; now rewrite Hchar, Hacc).
  destruct (n <? 10)%N; [exact Hd | now apply IH].
Qed.

Lemma digitsFuel_length (fuel : nat) :
  forall n acc,
    Datatypes.length acc <= Datatypes.length (digitsFuel fuel n acc)
    /\ Datatypes.length (digitsFuel fuel n acc) <= fuel + Datatypes.length acc.
Proof.
  induction fuel as [|f IH]; intros n acc; cbn [digitsFuel]; [lia|].
  destruct (n <? 10)%N; [cbn [Datatypes.length]; lia|].
  destruct (IH (n / 10)%N ((48 + n mod 10)%N :: acc)) as [H1 H2].
  cbn [Datatypes.length] in H1, H2. lia.
Qed.

Lemma digitsFuel_value (fuel : nat) :
  forall n acc,
    (n < 2 ^ N.of_nat fuel)%N ->
    fold_left (fun a c => (a * 10 + (Z.of_N c - 48))%Z) (digitsFuel fuel n acc) 0%Z
    = fold_left (fun a c => (a * 10 + (Z.of_N c - 48))%Z) acc (Z.of_N n).
Proof.
  induction fuel as [|f IH]; intros n acc Hn.
  - simpl in *. assert (n = 0%N) by lia. now subst n.
  - cbn [digitsFuel].
    pose proof (N.mod_lt n 10 ltac:(discriminate)) as Hmod.
    pose proof (N.div_mod n 10 ltac:(discriminate)) as Hdiv.
    destruct (n <? 10)%N eqn:Hsmall.
    + apply N.ltb_lt in Hsmall. cbn [fold_left]. f_equal.
      rewrite N.mod_small by exact Hsmall. lia.
    + rewrite IH.
      * cbn [fold_left]. f_equal. lia.
      * rewrite Nat2N.inj_succ, N.pow_succ_r' in Hn.
        apply N.Div0.div_lt_upper_bound. lia.
Qed.

Lemma digits_isDigit (n : N) : forallb isDigit (digits n) = true.
Proof. unfold digits. now apply digitsFuel_isDigit. Qed.

Lemma digits_nonempty (n : N) : digits n <> [].
Proof.
  unfold digits. cbn [digitsFuel].
  destruct (n <? 10)%N; [discriminate|].
  pose proof (digitsFuel_length (N.to_nat (N.log2 n)) (n / 10)%N
                ((48 + n mod 10)%N :: ([] : jsstring))) as [Hlow _].
  intros H. unfold jsstring, codeunit in *. rewrite H in Hlow.
  cbn [Datatypes.length] in Hlow. lia.
Qed.

Lemma digits_value (n : N) : digitsValue (digits n) = Z.of_N n.
Proof.
  unfold digitsValue, digits. rewrite digitsFuel_value; [reflexivity|].
  rewrite Nat2N.inj_succ, N2Nat.id.
  destruct n as [|p]; [reflexivity|].
  apply N.log2_spec. reflexivity.
Qed.

Lemma digits_length (n : N) :
  (0 < n)%N -> (2 ^ (len (digits n) - 1) <= Z.of_N n)%Z.
Proof.
  intros Hpos. unfold len, digits.
  pose proof (digitsFuel_length (S (N.to_nat (N.log2 n))) n []) as [_ Hup].
  change (Datatypes.length (@nil codeunit)) with 0 in Hup.
  pose proof (N.log2_spec n Hpos) as [Hlog _].
  apply N2Z.inj_le in Hlog. rewrite N2Z.inj_pow in Hlog.
  eapply Z.le_trans; [|exact Hlog].
  pose proof (N_nat_Z (N.log2 n)) as Hconv.
  unfold jsstring, codeunit in *.
  apply Z.pow_le_mono_r; lia.
Qed.

Lemma digitsValue_app (a b : jsstring) :
  digitsValue (a ++ b)
  = fold_left (fun acc c => (acc * 10 + (Z.of_N c - 48))%Z) b (digitsValue a).
Proof. unfold digitsValue. apply fold_left_app. Qed.

Lemma digitsValue_zeros (k : nat) (a : Z) :
  fold_left (fun acc c => (acc * 10 + (Z.of_N c - 48))%Z) (repeat 48%N k) a
  = (a * 10 ^ Z.of_nat k)%Z.
Proof.
  revert a. induction k as [|k IH]; intros a.
  - simpl. lia.
  - cbn [repeat fold_left]. rewrite IH.
    rewrite Nat2Z.inj_succ, Z.pow_succ_r by lia. lia.
Qed.

(** The text of a positive integer below [2^20] is its decimal digits. *)
Lemma showZ_digits (z : Z) :
  (0 < z < 2 ^ 20)%Z ->
  forallb isDigit (showZ z) = true
  /\ showZ z <> []
  /\ digitsValue (showZ z) = z.
Proof.
  intros [Hpos Hbound]. unfold showZ.
  destruct (ofZ_integer z) as [He Hv].
  destruct (JsNumber.ofZ z) as [m e]. cbn [JsNumber.mant JsNumber.expo] in *.
  assert (Hten : (0 < 10 ^ e)%Z) by (apply Z.pow_pos_nonneg; lia).
  assert (Hm : (0 < m)%Z) by nia.
  unfold JsNumber.toString. cbn [JsNumber.mant JsNumber.expo].
  replace (m =? 0)%Z with false by (symmetry; apply Z.eqb_neq; lia).
  replace (m <? 0)%Z with false by (symmetry; apply Z.ltb_ge; lia).
  rewrite Z.abs_eq by lia.
  set (ds := digits (Z.to_N m)).
  assert (Hlen : (2 ^ (len ds - 1) <= m)%Z).
  { pose proof (digits_length (Z.to_N m) ltac:(lia)) as H.
    rewrite Z2N.id in H by lia. exact H. }
  assert (Hk : (1 <= len ds)%Z).
  { unfold len. pose proof (digits_nonempty (Z.to_N m)) as Hne. fold ds in Hne.
    destruct ds; [now elim Hne | simpl; lia]. }
  assert (Hn : (len ds + e <= 21)%Z).
  { destruct (Z_le_gt_dec (len ds + e) 21) as [Hle|Hgt]; [exact Hle|].
    exfalso.
    assert (H1 : (2 ^ e <= 10 ^ e)%Z) by (apply Z.pow_le_mono_l; lia).
    assert (H2 : (2 ^ 21 <= 2 ^ (len ds - 1 + e))%Z)
      by (apply Z.pow_le_mono_r; lia).
    rewrite Z.pow_add_r in H2 by lia.
    assert (H3 : (0 < 2 ^ (len ds - 1))%Z) by (apply Z.pow_pos_nonneg; lia).
    assert (H4 : (2 ^ (len ds - 1) * 2 ^ e <= m * 10 ^ e)%Z).
    { apply Z.mul_le_mono_nonneg; lia. }
    assert (H5 : (2 ^ 20 < 2 ^ 21)%Z) by reflexivity.
    lia. }
  replace (len ds <=? len ds + e)%Z with true by (symmetry; apply Z.leb_le; lia).
  replace (len ds + e <=? 21)%Z with true by (symmetry; apply Z.leb_le; lia).
  cbn [andb app]. replace (len ds + e - len ds)%Z with e by lia.
  unfold JsNumber.zeros.
  split; [|split].
  - rewrite forallb_app. subst ds. rewrite digits_isDigit. cbn [andb].
    apply forallb_forall. intros c Hc. apply repeat_spec in Hc. now subst c.
  - intros H. apply app_eq_nil in H. destruct H as [H _].
    now apply (digits_nonempty (Z.to_N m)).
  - rewrite digitsValue_app, digitsValue_zeros. subst ds.
    rewrite digits_value, Z2N.id, Z2Nat.id by lia. exact Hv.
Qed.

Lemma isDigit_not_space (c : codeunit) : isDigit c = true -> isWhiteSpace c = false.
Proof.
  unfold isDigit, isWhiteSpace. intros H.
  apply andb_true_iff in H. destruct H as [H1 H2].
  apply N.leb_le in H1, H2.
  repeat match goal with
         | |- (_ || _) = false => apply orb_false_iff; split
         | |- (_ && _) = false => apply andb_false_iff
         end;
    try (apply N.eqb_neq; lia);
    try (left; apply N.leb_gt; lia); right; apply N.leb_gt; lia.
Qed.

Lemma trimStart_digits (s : jsstring) :
  forallb isDigit s = true -> trimStart s = s.
Proof.
  destruct s as [|c t]; [reflexivity|]. simpl. intros H.
  apply andb_true_iff in H. destruct H as [Hc _].
  now rewrite (isDigit_not_space c Hc).
Qed.

Lemma trim_digits (s : jsstring) : forallb isDigit s = true -> trim s = s.
Proof.
  intros H. unfold trim, trimEnd. rewrite (trimStart_digits s H).
  rewrite trimStart_digits; [apply rev_involutive|].
  apply forallb_forall. intros c Hc. apply in_rev in Hc.
  revert c Hc. now apply forallb_forall.
Qed.

Lemma takeWhile_all (f : codeunit -> bool) (s : jsstring) :
  forallb f s = true -> takeWhile f s = s.
Proof.
  induction s as [|c t IH]; simpl; [reflexivity|]. intros H.
  apply andb_true_iff in H. destruct H as [Hc Ht]. rewrite Hc. now rewrite IH.
Qed.

(** [parseInt] reads back the number a template literal wrote, also after a
    space. *)
Lemma parseIntTrimmed_showZ (z : Z) :
  (0 < z < 2 ^ 20)%Z ->
  parseIntTrimmed (showZ z) = Some z
  /\ parseIntTrimmed (32%N :: showZ z) = Some z.
Proof.
  intros Hz. destruct (showZ_digits z Hz) as [Hdigits [Hne Hvalue]].
  assert (Hspace : trim (32%N :: showZ z) = trim (showZ z)) by reflexivity.
  unfold parseIntTrimmed. rewrite Hspace, (trim_digits _ Hdigits).
  rewrite (takeWhile_all _ _ Hdigits).
  destruct (showZ z) as [|c t]; [now elim Hne|]. rewrite Hvalue. auto.
Qed.

Lemma split_free (sep : codeunit) (s : jsstring) :
  freeOf sep s = true -> split sep s = [s].
Proof.
  induction s as [|c t IH]; simpl; [reflexivity|]. intros H.
  apply andb_true_iff in H. destruct H as [Hc Ht].
  apply negb_true_iff in Hc. rewrite Hc, (IH Ht). reflexivity.
Qed.

Lemma split_comma_space (pieces : list jsstring) :
  Forall (fun p => freeOf 44%N p = true) pieces ->
  forall first,
    freeOf 44%N first = true ->
    split 44%N (join (str ", ") (first :: pieces))
    = first :: map (cons 32%N) pieces.
Proof.
  induction 1 as [|p rest Hp Hrest IH]; intros first Hfirst.
  - simpl. now apply split_free.
  - change (join (str ", ") (first :: p :: rest))
      with (first ++ 44%N :: 32%N :: join (str ", ") (p :: rest)).
    rewrite split_prefix by exact Hfirst.
    cbn [split]. change (32 =? 44)%N with false. cbv iota.
    rewrite (IH p Hp). reflexivity.
Qed.

Lemma digits_free_of_comma (s : jsstring) :
  forallb isDigit s = true -> freeOf 44%N s = true.
Proof.
  intros H. apply forallb_forall. intros c Hc.
  assert (Hd : isDigit c = true) by (revert c Hc; now apply forallb_forall).
  unfold isDigit in Hd. apply andb_true_iff in Hd. destruct Hd as [Hd _].
  apply N.leb_le in Hd. apply negb_true_iff, N.eqb_neq. lia.
Qed.

Lemma join_listUnits (pieces : list jsstring) :
  Forall (fun p => forallb isDigit p = true) pieces ->
  forallb isListUnit (join (str ", ") pieces) = true.
Proof.
  assert (Hunit : forall p, forallb isDigit p = true ->
                            forallb isListUnit p = true).
  { intros p Hp. apply forallb_forall. intros c Hc. unfold isListUnit.
    assert (Hd : isDigit c = true) by (revert c Hc; now apply forallb_forall).
    now rewrite Hd. }
  induction 1 as [|p rest Hp Hrest IH]; [reflexivity|].
  destruct rest as [|q rest]; [now apply Hunit|].
  change (join (str ", ") (p :: q :: rest))
    with (p ++ 44%N :: 32%N :: join (str ", ") (q :: rest)).
  rewrite forallb_app, (Hunit p Hp). cbn [andb forallb].
  exact IH.
Qed.

Lemma matchNumberList_all (s : jsstring) :
  s <> [] -> forallb isListUnit s = true -> matchNumberList s = Some s.
Proof.
  intros Hne Hall. unfold matchNumberList.
  destruct s as [|c t]; [now elim Hne|].
  pose proof Hall as Hall'. simpl in Hall'.
  apply andb_true_iff in Hall'. destruct Hall' as [Hc _].
  cbn [dropWhile]. rewrite Hc. cbn [negb].
  now rewrite (takeWhile_all _ _ Hall).
Qed.

(** X22.  The numbers of the prompt and the numbers of the reply agree.  The
    prompt of [suggestResultsToRead] lists the result at position [i],
    counted from zero, under the number [i + 1]; when the model answers with
    such numbers, separated by a comma and a space, the reply is matched
    whole, the numbers read back are those numbers, and the addresses chosen
    for reading are those of the results the model named, in the order of
    the reply. *)
Theorem suggestion_round_trip (results : list SearchResult) (picks : list nat) :
  picks <> [] ->
  Forall (fun i => (Z.of_nat i + 1 < 2 ^ 20)%Z) picks ->
  matchNumberList (numbered picks) = Some (numbered picks)
  /\ suggestedNumbers (numbered picks) = map (fun i => (Z.of_nat i + 1)%Z) picks
  /\ suggestedUrls results (suggestedNumbers (numbered picks))
     = addressesAt results picks.
Proof.
  intros Hne Hsmall.
  assert (Hpieces : Forall (fun p => forallb isDigit p = true)
                           (map (fun i => showZ (Z.of_nat i + 1)) picks)).
  { apply Forall_map. eapply Forall_impl; [|exact Hsmall].
    intros i Hi. apply showZ_digits. split; [lia | exact Hi]. }
  assert (Hnumbers : suggestedNumbers (numbered picks)
                     = map (fun i => (Z.of_nat i + 1)%Z) picks).
  { unfold suggestedNumbers, numbered.
    destruct picks as [|i rest]; [now elim Hne|].
    cbn [map]. inversion Hsmall as [|? ? Hi Hrest]; subst.
    inversion Hpieces as [|? ? Hp Hps]; subst.
    rewrite split_comma_space;
      [|eapply Forall_impl; [|exact Hps]; intros p; apply digits_free_of_comma
       |now apply digits_free_of_comma].
    cbn [flat_map].
    assert (Hi' : (0 < Z.of_nat i + 1 < 2 ^ 20)%Z) by (split; [lia | exact Hi]).
    destruct (parseIntTrimmed_showZ (Z.of_nat i + 1) Hi') as [Hparse _].
    rewrite Hparse. cbn [app]. f_equal.
    clear - Hrest. induction Hrest as [|j rest Hj Hrest IH]; [reflexivity|].
    cbn [map flat_map].
    assert (Hj' : (0 < Z.of_nat j + 1 < 2 ^ 20)%Z) by (split; [lia | exact Hj]).
    destruct (parseIntTrimmed_showZ (Z.of_nat j + 1) Hj') as [_ Hparse].
    rewrite Hparse, IH. reflexivity. }
  split; [|split; [exact Hnumbers|]].
  - apply matchNumberList_all; [|now apply join_listUnits].
    unfold numbered. destruct picks as [|i rest]; [now elim Hne|].
    inversion Hsmall as [|? ? Hi Hrest]; subst.
    assert (Hi' : (0 < Z.of_nat i + 1 < 2 ^ 20)%Z) by (split; [lia | exact Hi]).
    destruct (showZ_digits (Z.of_nat i + 1) Hi') as [_ [Hshown _]].
    cbn [map]. destruct rest as [|j rest]; [exact Hshown|].
    change (join (str ", ") (showZ (Z.of_nat i + 1)
                             :: map (fun i => showZ (Z.of_nat i + 1)) (j :: rest)))
      with (showZ (Z.of_nat i + 1) ++ 44%N :: 32%N
            :: join (str ", ") (map (fun i => showZ (Z.of_nat i + 1)) (j :: rest))).
    intros H. apply app_eq_nil in H. destruct H as [H _]. now apply Hshown.
  - rewrite Hnumbers. unfold suggestedUrls, addressesAt.
    clear. induction picks as [|i rest IH]; [reflexivity|].
    cbn [map flat_map]. rewrite IH.
    replace (1 <=? Z.of_nat i + 1)%Z with true by (symmetry; apply Z.leb_le; lia).
    replace (Z.to_nat (Z.of_nat i + 1 - 1)) with i by lia.
    reflexivity.
Qed.

Lemma suggestion_round_trip_witness :
  numbered [2; 0] = str "3, 1"
  /\ suggestedUrls exampleResults (suggestedNumbers (numbered [2; 0]))
     = [str "https://example.com/3"; str "https://example.com/1"].
Proof.
  split; [vm_compute; reflexivity|].
  destruct (suggestion_round_trip exampleResults [2; 0]) as [_ [_ H]].
  - discriminate.
  - repeat constructor.
  - rewrite H. reflexivity.
Defined.

(** ** After a tool result the model is consulted *)

Lemma parse_not_value (c : codeunit) (t : jsstring) :
  startsValue c = false -> exists e, parse (c :: t) = Throw e.
Proof.
  unfold startsValue. intros H.
  do 8 (apply orb_false_iff in H; destruct H as [H ?]).
  assert (Hzero : (c =? 48)%N = false).
  { destruct (c =? 48)%N eqn:E; [|reflexivity].
    apply N.eqb_eq in E. subst c. discriminate. }
  unfold parse, parseFuel. cbn [Datatypes.length Nat.add Nat.mul parseValue].
  unfold skipWs, parseNumber.
  repeat first [ progress cbv beta iota
               | progress cbn [takeWhile dropWhile]
               | match goal with E : _ = false |- _ => rewrite E end ].
  eexists. reflexivity.
Qed.

Lemma startsWith_head (c : codeunit) (p text : jsstring) :
  startsWith (c :: p) text = true -> exists t, text = c :: t.
Proof.
  destruct text as [|x t]; simpl; [discriminate|].
  intros H. apply andb_true_iff in H. destruct H as [H _].
  apply N.eqb_eq in H. subst x. now exists t.
Qed.

Lemma toolResultText_not_json (text : jsstring) :
  toolResultText text = true -> exists e, parse text = Throw e.
Proof.
  unfold toolResultText. intros H.
  repeat (apply orb_true_iff in H; destruct H as [H|H]);
    apply startsWith_head in H; destruct H as [t ->];
    now apply parse_not_value.
Qed.

(** X23.  What the handlers of [web_search] and [read_url] log, and the
    failure any handler logs, is never mistaken for a tool call: when such a
    text is the last entry of the log, the end of [processToolCall] does not
    show the warning about a chained call but hands the conversation to the
    model. *)
Theorem tool_result_hands_over (env : Env) (nested : ToolCall -> M unit) :
  (forall address chunk more,
      toolResultText (readTurn address chunk more) = true)
  /\ (forall query results, toolResultText (searchTurn query results) = true)
  /\ (forall st text,
         lastOf (chatHistory st) = Some (mkTurn assistant text) ->
         toolResultText text = true ->
         continueReasoning env nested st
         = if isGpt (selectedModel env (clock st))
           then handleOpenAIMessage nested env (selectedModel env (clock st))
                                    [] st
           else handleGeminiMessage nested env (selectedModel env (clock st))
                                    [] st).
Proof.
  split; [|split].
  - intros address chunk more. unfold toolResultText, readTurn.
    now rewrite startsWith_app.
  - intros query results. unfold toolResultText, searchTurn.
    rewrite startsWith_app. now rewrite orb_true_r.
  - intros st text Hlast Htext.
    destruct (toolResultText_not_json text Htext) as [e He].
    unfold continueReasoning. unfold bind at 1. unfold gets at 1.
    unfold lastIsToolCall. rewrite Hlast. cbn [content]. rewrite He.
    cbn [bindC tryCatch negb]. unfold bind, ask, gets.
    destruct (isGpt (selectedModel env (clock st))); reflexivity.
Qed.

Lemma tool_result_hands_over_witness :
  let st := set_chatHistory
              [mkTurn user (str "hello");
               mkTurn assistant (readTurn exampleUrl (str "abc") true)]
              loaded in
  continueReasoning exampleWorld (fun _ => ret tt) st
  = handleOpenAIMessage (fun _ => ret tt) exampleWorld (str "gpt-4o") [] st.
Proof.
  intros st.
  destruct (tool_result_hands_over exampleWorld (fun _ => ret tt))
    as [Hread [_ Hover]].
  rewrite (Hover st (readTurn exampleUrl (str "abc") true) eq_refl
                 (Hread exampleUrl (str "abc") true)).
  reflexivity.
Defined.

(** ** What a read logs, a deep read recovers *)

(** X24.  The turn [read_url] logs and the way [deepReadUrl] reads it back
    agree: for an address without a line feed the turn is recognised as a
    read result, and the text recovered from it is the snippet that was
    logged, followed by the ellipsis when the page goes on.  The ellipsis is
    part of what [deepReadUrl] caches and returns. *)
Theorem readTurn_round_trip (address chunk : jsstring) (more : bool) :
  freeOf 10%N address = true ->
  startsWith (str "Read content from") (readTurn address chunk more) = true
  /\ join LF (tl (split 10%N (readTurn address chunk more)))
     = chunk ++ (if more then str "..." else []).
Proof.
  intros Hfree. unfold readTurn. split.
  - apply readTurn_recognised.
  - now apply readTurn_snippet.
Qed.

Lemma readTurn_round_trip_witness :
  let chunk := str "line one" ++ LF ++ str "line two" in
  join LF (tl (split 10%N (readTurn exampleUrl chunk true)))
  = chunk ++ str "...".
Proof.
  intros chunk.
  destruct (readTurn_round_trip exampleUrl chunk true eq_refl) as [_ H].
  exact H.
Defined.

(** ** The user turn *)

Lemma extends_bind_from {A B : Type} (m : M A) (k : A -> M B) (st : State) :
  (forall a, appends (k a)) ->
  extends (chatHistory (fst (m st))) (chatHistory (fst (bind m k st))).
Proof.
  intros Hk. unfold bind. destruct (m st) as [st' [a|e|]]; cbn [fst].
  - apply Hk.
  - apply extends_refl.
  - apply extends_refl.
Qed.

Lemma try_blocks_history {A : Type} (body : M A) (handler : jsstring -> M A)
  (cleanup : M unit) (st : State) :
  (forall e s, chatHistory (fst (handler e s)) = chatHistory s) ->
  (forall s, chatHistory (fst (cleanup s)) = chatHistory s) ->
  chatHistory (fst (try_finally (try_catch body handler) cleanup st))
  = chatHistory (fst (body st)).
Proof.
  intros Hh Hc. unfold try_finally, try_catch.
  destruct (body st) as [s1 [a|e|]]; cbn [fst].
  - specialize (Hc s1). destruct (cleanup s1) as [s2 [u|e'|]]; exact Hc.
  - specialize (Hh e s1). destruct (handler e s1) as [s2 [a|e'|]];
      cbn [fst] in Hh; [| |exact Hh];
      specialize (Hc s2); destruct (cleanup s2) as [s3 [u|e''|]];
      cbn [fst] in *; congruence.
  - reflexivity.
Qed.

Lemma sendMessage_tail (fuel : nat) (env : Env) (selected enhanced : jsstring)
  (st : State) :
  exists added,
    chatHistory
      (fst (try_finally
              (try_catch
                 (if isGpt selected then
                    pushTurn user enhanced ;;
                    handleOpenAIMessage (processToolCall fuel env) env selected
                                        enhanced
                  else
                    history <- gets chatHistory ;;
                    when (negb (nonEmpty history)) (pushTurn user []) ;;
                    handleGeminiMessage (processToolCall fuel env) env selected
                                        enhanced)
                 (fun e => UI (addMessage ai (str "Error: " ++ e))))
              (tokens <- gets totalTokens ;;
               UI (updateTokenDisplay tokens) ;;
               UI clearStatus ;;
               UI (setInputsDisabled false))
              st))
    = chatHistory st
      ++ (if isGpt selected then []
          else if nonEmpty (chatHistory st) then [] else [mkTurn user []])
      ++ [mkTurn user enhanced] ++ added.
Proof.
  rewrite try_blocks_history; [|intros; reflexivity|intros; reflexivity].
  destruct (isGpt selected).
  - destruct (extends_bind_from
                (pushTurn user enhanced)
                (fun _ => handleOpenAIMessage (processToolCall fuel env) env
                                              selected enhanced) st)
      as [added [Hadded _]].
    { intros _. apply appends_handleOpenAIMessage.
      apply appends_processToolCall. }
    rewrite Hadded. exists added. cbn. now rewrite <- app_assoc.
  - unfold bind at 1. unfold gets at 1.
    assert (Hgemini : forall s,
               exists added,
                 chatHistory (fst (handleGeminiMessage (processToolCall fuel env)
                                     env selected enhanced s))
                 = chatHistory s ++ [mkTurn user enhanced] ++ added).
    { intros s. unfold handleGeminiMessage.
      match goal with
      | |- context [bind ?m ?k s] =>
          destruct (extends_bind_from m k s) as [added [Hadded _]]
      end.
      - intros _. appends_auto; try apply appends_streamedReply;
          try apply appends_completeReply; apply appends_processToolCall.
      - rewrite Hadded. exists added. cbn. now rewrite <- app_assoc. }
    destruct (chatHistory st) as [|first h] eqn:Hh; cbn [nonEmpty negb when].
    + unfold bind at 1. unfold pushTurn at 1. unfold modify at 1.
      match goal with
      | |- context [handleGeminiMessage ?p ?e ?m ?x ?s] =>
          destruct (Hgemini s) as [added Hadded]
      end.
      rewrite Hadded. exists added. cbn [chatHistory set_chatHistory].
      rewrite Hh. reflexivity.
    + unfold bind at 1. unfold ret at 1.
      destruct (Hgemini st) as [added Hadded].
      rewrite Hadded. exists added. rewrite Hh. reflexivity.
Qed.

(** X25.  [sendMessage] logs the message before anything can fail.  Whatever
    the model and the tools do afterwards, the log after the call is the log
    before it, then the user turn with the message (with the instructions
    for chain of thought when that is enabled), then what was appended
    later; for a model that is not one of OpenAI's, an empty user turn is
    put in front when the log was empty. *)
Theorem sendMessage_logs_user_turn (fuel : nat) (env : Env) (st : State) :
  getUserInput env (clock st) <> [] ->
  exists added,
    chatHistory (fst (sendMessage fuel env st))
    = chatHistory st
      ++ userTurns (settings st) (selectedModel env (clock st))
                   (getUserInput env (clock st)) (chatHistory st)
      ++ added.
Proof.
  intros Hinput. unfold sendMessage.
  unfold bind at 1. unfold ask at 1. unfold gets at 1.
  destruct (getUserInput env (clock st)) as [|c message] eqn:Hmessage;
    [now elim Hinput|].
  cbn [nonEmpty negb].
  do 6 (unfold bind at 1; unfold UI at 1; unfold modify at 1).
  unfold bind at 1. unfold gets at 1.
  unfold bind at 1. unfold ask at 1. unfold gets at 1.
  match goal with
  | |- exists added,
         chatHistory
           (fst (try_finally
                   (try_catch
                      (if isGpt ?selected then bind (pushTurn user ?enhanced) _
                       else _) _) _ ?s)) = _ =>
      destruct (sendMessage_tail fuel env selected enhanced s)
        as [added Hadded];
      exists added; etransitivity; [exact Hadded|]
  end.
  unfold userTurns. rewrite <- !app_assoc. reflexivity.
Qed.

Lemma sendMessage_logs_user_turn_witness :
  exists added,
    chatHistory (fst (sendMessage 1 (geminiWorld (pageOf 10)) loaded))
    = [mkTurn user []; mkTurn user (str "hello")] ++ added.
Proof.
  destruct (sendMessage_logs_user_turn 1 (geminiWorld (pageOf 10)) loaded)
    as [added H]; [discriminate|].
  exists added. rewrite H. reflexivity.
Defined.

(** ** Continuing with a model that is not one of OpenAI's *)

Lemma appends_nestedCall (fuel : nat) (env : Env) (call : ToolCall) :
  appends (nestedCall fuel env call).
Proof.
  destruct fuel; simpl; [apply appends_diverge | apply appends_processToolCall].
Qed.

(** X26.  After a tool has run, handing the conversation to a model whose
    name does not start with [gpt] puts an empty user turn into the log: the
    log after [processToolCall] has continued is the log before the
    continuation, then that empty turn, then the model's part. *)
Theorem continuation_logs_empty_turn (fuel : nat) (env : Env) (st : State) :
  isGpt (selectedModel env (clock st)) = false ->
  lastIsToolCall (chatHistory st) = false ->
  exists added,
    chatHistory (fst (continueReasoning env (nestedCall fuel env) st))
    = chatHistory st ++ mkTurn user [] :: added.
Proof.
  intros Hmodel Hlast. unfold continueReasoning.
  unfold bind at 1. unfold gets at 1. rewrite Hlast. cbn [negb].
  unfold bind at 1. unfold ask at 1. unfold gets at 1. rewrite Hmodel.
  unfold handleGeminiMessage.
  match goal with
  | |- context [bind ?m ?k st] =>
      destruct (extends_bind_from m k st) as [added [Hadded _]]
  end.
  - intros _. appends_auto; try apply appends_streamedReply;
      try apply appends_completeReply; apply appends_nestedCall.
  - rewrite Hadded. exists added. cbn. now rewrite <- app_assoc.
Qed.

Lemma continuation_logs_empty_turn_witness :
  let st := set_chatHistory
              [mkTurn user (str "hello");
               mkTurn assistant (readTurn exampleUrl (str "abc") true)]
              loaded in
  exists added,
    chatHistory (fst (continueReasoning (geminiWorld (pageOf 10))
                        (nestedCall 1 (geminiWorld (pageOf 10))) st))
    = chatHistory st ++ mkTurn user [] :: added.
Proof.
  intros st.
  apply (continuation_logs_empty_turn 1 (geminiWorld (pageOf 10)) st);
    reflexivity.
Defined.

(** ** The loop guard stops exactly the fourth call in a row *)

Lemma accumulates_nestedCall (fuel : nat) (env : Env) (call : ToolCall) :
  keeps accumulates (nestedCall fuel env call).
Proof.
  destruct fuel; simpl; [keeps_step | apply accumulates_processToolCall].
Qed.

Lemma sameCache_nestedCall (fuel : nat) (env : Env) (url : jsstring)
  (start size : Z) :
  keeps sameCache (nestedCall fuel env (readCall url start size)).
Proof.
  destruct fuel; simpl; [keeps_step | apply sameCache_readCall].
Qed.

Lemma executeToolCall_records (fuel : nat) (env : Env) (call : ToolCall)
  (st : State) :
  exists added,
    toolCallHistory (fst (executeToolCall fuel env (nestedCall fuel env) call st))
    = toolCallHistory st
      ++ mkRecord (tool call) (arguments call) (now env (clock st)) :: added.
Proof.
  unfold executeToolCall.
  unfold bind at 1. unfold ask at 1. unfold gets at 1.
  unfold bind at 1. unfold modify at 1.
  match goal with
  | |- context [bind ?m ?k ?s] =>
      assert (Hrest : keeps accumulates (bind m k));
      [|destruct (Hrest s) as [[added Hadded] _]]
  end.
  - keeps_auto.
    + apply accumulates_runHandler;
        [apply accumulates_nestedCall | intros; apply sameCache_nestedCall].
    + apply accumulates_continueReasoning. apply accumulates_nestedCall.
  - exists added. rewrite Hadded. cbn [toolCallHistory set_toolCallHistory].
    now rewrite <- app_assoc.
Qed.

Lemma aborts_excludes_executes (fuel : nat) (env : Env) (call : ToolCall)
  (st : State) :
  aborts fuel env call st -> executes fuel env call st -> False.
Proof.
  unfold aborts, executes. intros Habort Hexec. rewrite Hexec in Habort.
  destruct (executeToolCall_records fuel env call
              (loopGuard (callSignature call) st)) as [added Hadded].
  rewrite Habort in Hadded. cbn [fst toolCallHistory set_ui] in Hadded.
  apply (f_equal (@Datatypes.length ToolCallRecord)) in Hadded.
  rewrite length_app in Hadded. simpl in Hadded. lia.
Qed.

(** X27.  The guard stops a call if and only if the three calls that came
    before it, with nothing between them, had its signature; otherwise, and
    only then, the call is logged and its handler runs.  Calls further back,
    and how often the signature was seen in all, make no difference. *)
Theorem loop_guard_exact (fuel : nat) (env : Env) (call : ToolCall)
  (signatures : list jsstring) (st0 st : State) :
  lastToolCall st0 = None ->
  sameGuard st (guardAfter signatures st0) ->
  (aborts fuel env call st
   <-> 3 <= repeatsAtEnd (callSignature call) signatures)
  /\ (executes fuel env call st
      <-> repeatsAtEnd (callSignature call) signatures < 3).
Proof.
  intros Hnone Hsame.
  pose proof (guard_counts_repeats st0 signatures (callSignature call) Hnone)
    as Hcount.
  rewrite <- (loopGuard_sameGuard _ st _ Hsame) in Hcount.
  assert (Habove : 3 <= repeatsAtEnd (callSignature call) signatures ->
                   aborts fuel env call st)
    by (intros H; apply aborts_above; lia).
  assert (Hbelow : repeatsAtEnd (callSignature call) signatures < 3 ->
                   executes fuel env call st)
    by (intros H; apply executes_below; lia).
  split; split; try assumption; intros H.
  - destruct (le_lt_dec 3 (repeatsAtEnd (callSignature call) signatures))
      as [Hle|Hlt]; [exact Hle|].
    elim (aborts_excludes_executes fuel env call st H (Hbelow Hlt)).
  - destruct (le_lt_dec 3 (repeatsAtEnd (callSignature call) signatures))
      as [Hle|Hlt]; [|exact Hlt].
    elim (aborts_excludes_executes fuel env call st (Habove Hle) H).
Qed.

Lemma loop_guard_exact_witness :
  let signature := callSignature exampleRead in
  let other := callSignature unknownCall in
  aborts 1 exampleWorld exampleRead
         (guardAfter [other; signature; signature; signature] loaded)
  /\ executes 1 exampleWorld exampleRead
              (guardAfter [signature; signature; signature; other; signature]
                          loaded).
Proof.
  intros signature other. split.
  - apply (loop_guard_exact 1 exampleWorld exampleRead
             [other; signature; signature; signature] loaded _ eq_refl
             (conj eq_refl eq_refl)).
    vm_compute. lia.
  - apply (loop_guard_exact 1 exampleWorld exampleRead
             [signature; signature; signature; other; signature] loaded _
             eq_refl (conj eq_refl eq_refl)).
    vm_compute. lia.
Defined.

(** ** A streamed reply ends with the thinking flag down *)

(** X28.  However a streamed reply ends, with a value or with an exception,
    the flag [isThinking] is down afterwards. *)
Theorem streamedReply_clears_thinking (nested : ToolCall -> M unit) (env : Env)
  (stream : nat -> jsstring -> list Turn -> list jsstring * Completion jsstring)
  (model : jsstring) (st : State) :
  snd (streamedReply nested env stream model st) <> Diverge ->
  isThinking (fst (streamedReply nested env stream model st)) = false.
Proof.
  destruct (streamedReply nested env stream model st) as [st' r] eqn:Hrun.
  cbn [fst snd]. revert Hrun. unfold streamedReply.
  unfold bind at 1. unfold newAIMessage. unfold bind at 1. unfold gets at 1.
  unfold bind at 1. unfold UI at 1. unfold modify at 1. unfold ret at 1.
  unfold try_finally, modify.
  match goal with
  | |- context [try_catch ?b ?h ?s] => destruct (try_catch b h s) as [s1 [[]|e|]]
  end; intros Hrun Hend; inversion Hrun; subst; try reflexivity.
  now elim Hend.
Qed.

Lemma streamedReply_clears_thinking_witness :
  isThinking
    (fst (streamedReply (processToolCall 1 offlineWorld) offlineWorld
            (streamOpenAIRequest offlineWorld) (str "gpt-4o")
            (set_settings (mkSettings true true true) started))) = false.
Proof.
  apply (streamedReply_clears_thinking (processToolCall 1 offlineWorld)
           offlineWorld (streamOpenAIRequest offlineWorld) (str "gpt-4o")
           (set_settings (mkSettings true true true) started)).
  vm_compute. discriminate.
Defined.

(** ** A complete reply from OpenAI *)

(** X29.  Without streaming, a reply of the model that has no opening brace
    is logged as it came, as one assistant turn, markers of the chain of
    thought included, and the tokens the service reports are added to the
    count; an error the service reports is raised with nothing logged and
    nothing counted.  Either way one request is made and no tool is called. *)
Theorem handleOpenAIMessage_complete (nested : ToolCall -> M unit) (env : Env)
  (model message : jsstring) (st : State) (result : OpenAIResult) :
  streaming (settings st) = false ->
  sendOpenAIRequest env (clock st) model (chatHistory st) None = Normal result ->
  (forall text,
      error result = None -> reply result = Some text ->
      freeOf 123%N text = true ->
      exists st',
        handleOpenAIMessage nested env model message st = (st', Ok tt)
        /\ chatHistory st' = chatHistory st ++ [mkTurn assistant text]
        /\ totalTokens st'
           = (totalTokens st
              + match usage result with Some n => n | None => 0 end)%Z
        /\ toolCallHistory st' = toolCallHistory st
        /\ clock st' = S (clock st))
  /\ (forall e,
         error result = Some e ->
         exists st',
           handleOpenAIMessage nested env model message st = (st', Exn e)
           /\ chatHistory st' = chatHistory st
           /\ totalTokens st' = totalTokens st
           /\ toolCallHistory st' = toolCallHistory st
           /\ clock st' = S (clock st)).
Proof.
  intros Hstream Hsent.
  destruct st as [h tokens s thinking lastT lastA snippets lastCall count
                  results auto log highlighted cache shown time].
  cbn [settings clock chatHistory] in Hstream, Hsent.
  split.
  - intros text Herror Hreply Hfree.
    pose proof (extractToolCall_without_brace text Hfree) as Hnull.
    unfold handleOpenAIMessage, completeReply, replyContent.
    run. rewrite Hstream. run. rewrite Hsent. run. rewrite Herror, Hreply.
    assert (Htokens : forall n, (n =? 0)%Z = true -> (tokens + n)%Z = tokens)
      by (intros n Hn; apply Z.eqb_eq in Hn; lia).
    destruct (usage result) as [n|];
      [destruct (n =? 0)%Z eqn:Hn|]; cbn [negb]; run; rewrite Hnull;
      change (looksLikeToolCall JNull) with false; run;
      (destruct (enableCoT s);
       [unfold processCoTResponse;
        destruct (matchThinking text), (matchAnswer text);
        try destruct (startsWith Thinking text && negb (includes Answer text));
        try destruct (includes Thinking text && _)
       |]);
      run; eexists; (split; [reflexivity|]);
      cbn [chatHistory totalTokens toolCallHistory clock];
      rewrite ?(Htokens n Hn), ?Z.add_0_r; auto.
  - intros e Herror. unfold handleOpenAIMessage.
    run. rewrite Hstream. run. rewrite Hsent. run. rewrite Herror. run.
    eexists. split; [reflexivity|]. cbn. auto.
Qed.

Lemma handleOpenAIMessage_complete_witness :
  exists st',
    handleOpenAIMessage (fun _ => ret tt) exampleWorld (str "gpt-4o") (str "hi")
                        started = (st', Ok tt)
    /\ chatHistory st'
       = chatHistory started ++ [mkTurn assistant (str "The page says a.")].
Proof.
  destruct (handleOpenAIMessage_complete (fun _ => ret tt) exampleWorld
              (str "gpt-4o") (str "hi") started
              (mkOpenAI None None (Some (str "The page says a.")))
              eq_refl eq_refl) as [H _].
  destruct (H (str "The page says a.") eq_refl eq_refl eq_refl)
    as [st' [Hrun [Hlog _]]].
  exists st'. split; assumption.
Defined.

(* ================================================================== *)
(** * The loop guard over a whole session *)
(* ================================================================== *)

(** The two variables of the loop guard are written at the head of every
    pass through [processToolCall], and a call that passes is recorded in
    the audit log before its handler runs.  Nothing else writes either, so
    the variables and the log stay in step through every operation. *)

Lemma repeatsAtEnd_snoc (signature x : jsstring) (l : list jsstring) :
  repeatsAtEnd signature (l ++ [x])
  = if JsString.eqb x signature then S (repeatsAtEnd signature l) else 0.
Proof. unfold repeatsAtEnd. rewrite rev_app_distr. reflexivity. Qed.

Lemma repeatsAtEnd_other (a b : jsstring) (l : list jsstring) :
  1 <= repeatsAtEnd a l -> a <> b -> repeatsAtEnd b l = 0.
Proof.
  unfold repeatsAtEnd. destruct (rev l) as [|x earlier]; simpl; [lia|].
  destruct (JsString.eqb x a) eqn:Ea; [|lia].
  apply eqb_eq in Ea. subst x. intros _ Hneq.
  destruct (JsString.eqb a b) eqn:Eb; [|reflexivity].
  apply eqb_eq in Eb. now elim Hneq.
Qed.

Lemma repeatsAtEnd_run (signature : jsstring) (before : list jsstring) :
  3 <= repeatsAtEnd signature (before ++ repeat signature 3).
Proof.
  unfold repeatsAtEnd. rewrite rev_app_distr. simpl.
  rewrite !eqb_refl. lia.
Qed.

Lemma recordSignature_call (call : ToolCall) (stamp : jsstring) :
  recordSignature (mkRecord (tool call) (arguments call) stamp)
  = callSignature call.
Proof. reflexivity. Qed.

(** What the guard decides, read off the audit log. *)
Lemma guard_by_log (signature : jsstring) (st : State) :
  guardTracksLog st ->
  let repeats := repeatsAtEnd signature (executedSignatures st) in
  repeats <= 3
  /\ (repeats < 3 ->
      lastToolCallCount (loopGuard signature st) = (Z.of_nat repeats + 1)%Z)
  /\ (repeats = 3 -> (3 < lastToolCallCount (loopGuard signature st))%Z)
  /\ (1 <= repeats -> lastToolCall st = Some signature).
Proof.
  intros Htracks repeats.
  unfold guardTracksLog, MAX_TOOL_CALL_REPEAT in Htracks.
  destruct (lastToolCall st) as [previous|] eqn:Hlast.
  - destruct Htracks as [Hone Hmin].
    destruct (JsString.eqb previous signature) eqn:E.
    + apply eqb_eq in E. subst previous. fold repeats in Hmin.
      rewrite (loopGuard_repeat _ _ Hlast).
      cbn [lastToolCallCount set_lastToolCallCount].
      repeat split; try lia.
    + assert (Hzero : repeats = 0).
      { apply (repeatsAtEnd_other previous); [lia|].
        intros ->. now rewrite eqb_refl in E. }
      rewrite loopGuard_fresh
        by (rewrite Hlast; intros X; inversion X; subst;
            now rewrite eqb_refl in E).
      cbn [lastToolCallCount set_lastToolCallCount].
      repeat split; try lia.
  - assert (Hzero : repeats = 0).
    { unfold repeats, executedSignatures. now rewrite Htracks. }
    rewrite loopGuard_fresh by (rewrite Hlast; discriminate).
    cbn [lastToolCallCount set_lastToolCallCount].
    repeat split; try lia.
Qed.

Lemma fourInARow_snoc (signature : jsstring) (l : list jsstring) :
  ~ fourInARow l ->
  repeatsAtEnd signature l < 3 ->
  ~ fourInARow (l ++ [signature]).
Proof.
  intros Hnone Hfew [before [x [after Hsplit]]].
  induction after as [|z after' _] using rev_ind.
  - rewrite app_nil_r in Hsplit.
    change (repeat x 4) with (repeat x 3 ++ [x]) in Hsplit.
    rewrite app_assoc in Hsplit. apply app_inj_tail in Hsplit.
    destruct Hsplit as [Hl Hx]. subst l signature.
    pose proof (repeatsAtEnd_run x before). lia.
  - rewrite !app_assoc in Hsplit. apply app_inj_tail in Hsplit.
    destruct Hsplit as [Hl _]. apply Hnone.
    exists before, x, after'. now rewrite Hl, <- app_assoc.
Qed.

(** The state in which a call that passed the guard is logged. *)
Lemma guardHolds_executed (call : ToolCall) (stamp : jsstring) (st : State) :
  guardHolds st ->
  repeatsAtEnd (callSignature call) (executedSignatures st) < 3 ->
  let guarded := loopGuard (callSignature call) st in
  guardHolds (set_toolCallHistory
                (toolCallHistory guarded
                 ++ [mkRecord (tool call) (arguments call) stamp]) guarded).
Proof.
  intros [Htracks Hnone] Hfew guarded.
  destruct (guard_by_log (callSignature call) st Htracks)
    as [_ [Hcount _]].
  specialize (Hcount Hfew).
  destruct (loopGuard_frame (callSignature call) st) as [_ [Hlog _]].
  pose proof (loopGuard_records (callSignature call) st) as Hlast.
  fold guarded in Hcount, Hlog, Hlast.
  unfold guardHolds, guardTracksLog, executedSignatures, MAX_TOOL_CALL_REPEAT.
  cbn [lastToolCall lastToolCallCount toolCallHistory set_toolCallHistory].
  rewrite Hlast, Hlog, Hcount, map_app. cbn [map].
  rewrite recordSignature_call.
  fold (executedSignatures st).
  split; [split; [lia|]|].
  - rewrite repeatsAtEnd_snoc, eqb_refl. lia.
  - now apply fourInARow_snoc.
Qed.

(** The state a call that the guard stopped leaves. *)
Lemma guardHolds_aborted (signature : jsstring) (e : UIEvent) (st : State) :
  guardHolds st ->
  repeatsAtEnd signature (executedSignatures st) = 3 ->
  let guarded := loopGuard signature st in
  guardHolds (set_ui (ui guarded ++ [e]) guarded).
Proof.
  intros [Htracks Hnone] Hthree guarded.
  destruct (guard_by_log signature st Htracks) as [_ [_ [Hcount Hlast]]].
  specialize (Hcount Hthree).
  assert (Hsame : lastToolCall st = Some signature) by (apply Hlast; lia).
  unfold guarded in *. rewrite (loopGuard_repeat _ _ Hsame) in *.
  cbn [lastToolCallCount set_lastToolCallCount] in Hcount.
  unfold guardHolds, guardTracksLog, executedSignatures, MAX_TOOL_CALL_REPEAT.
  cbn [lastToolCall lastToolCallCount toolCallHistory set_ui
       set_lastToolCallCount ui].
  rewrite Hsame. fold (executedSignatures st). rewrite Hthree.
  split; [split; lia | exact Hnone].
Qed.

Lemma guardStillHolds_processCoTResponse (response : jsstring) :
  keeps guardStillHolds (processCoTResponse response).
Proof. unfold processCoTResponse. keeps_auto. Qed.

Lemma guardStillHolds_onChunk (handle : nat) (fullText : jsstring) :
  keeps guardStillHolds (onChunk handle fullText).
Proof. unfold onChunk. keeps_auto. Qed.

Lemma guardStillHolds_newAIMessage : keeps guardStillHolds newAIMessage.
Proof. unfold newAIMessage. keeps_auto. Qed.

Lemma guardStillHolds_summarizeBatches (env : Env) (model : jsstring)
  (round totalBatches : Z) (batches : list (list jsstring)) :
  forall i batchSummaries,
    keeps guardStillHolds (summarizeBatches env model round totalBatches i
                                            batches batchSummaries).
Proof.
  induction batches as [|batch rest IH]; intros i batchSummaries; simpl.
  - keeps_step.
  - keeps_auto. apply IH.
Qed.

Lemma guardStillHolds_summarizeSnippets (fuel : nat) (env : Env) :
  forall snippets round,
    keeps guardStillHolds (summarizeSnippets fuel env snippets round).
Proof.
  induction fuel as [|fuel IH]; intros snippets round; simpl.
  - keeps_step.
  - unfold summarizationFailed.
    keeps_apply @keeps_bind; [destruct snippets; keeps_auto|].
    intros l. destruct l as [|only [|second more]].
    + keeps_step.
    + keeps_auto.
    + keeps_auto; try apply guardStillHolds_summarizeBatches; apply IH.
Qed.

Lemma guardStillHolds_read_url (env : Env) (args : JSON) :
  keeps guardStillHolds (read_url env args).
Proof. unfold read_url. keeps_auto. Qed.

Lemma guardStillHolds_instant_answer (env : Env) (args : JSON) :
  keeps guardStillHolds (instant_answer env args).
Proof. unfold instant_answer. keeps_auto. Qed.

Section GuardWithNestedCalls.

Variable env : Env.
Variable nested : ToolCall -> M unit.
Hypothesis nested_guard : forall call, keeps guardStillHolds (nested call).

Lemma guardStillHolds_deepReadLoop (url : jsstring)
  (maxChunks chunkSize maxTotalLength : Z) (n : nat) :
  forall v,
    keeps guardStillHolds
          (deepReadLoop n env nested url maxChunks chunkSize maxTotalLength v).
Proof.
  induction n as [|n IH]; intros v; cbn [deepReadLoop].
  - keeps_auto.
  - keeps_auto; try apply nested_guard; apply IH.
Qed.

Lemma guardStillHolds_deepReadUrl (url : jsstring)
  (maxChunks chunkSize maxTotalLength : Z) :
  keeps guardStillHolds
        (deepReadUrl env nested url maxChunks chunkSize maxTotalLength).
Proof.
  unfold deepReadUrl, deepRead.
  keeps_apply @keeps_bind;
    [apply guardStillHolds_deepReadLoop | intros v; keeps_step].
Qed.

Lemma guardStillHolds_readSuggested (total : Z)
  (urlsToRead : list (Z * jsstring)) :
  keeps guardStillHolds (readSuggested env nested total urlsToRead).
Proof.
  induction urlsToRead as [|[i url] rest IH]; simpl; [keeps_step|].
  keeps_step; [keeps_step|].
  keeps_step; [apply guardStillHolds_deepReadUrl | exact IH].
Qed.

Lemma guardStillHolds_autoRead (fuel : nat) (aiReply : jsstring) :
  keeps guardStillHolds
        (autoReadAndSummarizeFromSuggestion fuel env nested aiReply).
Proof.
  unfold autoReadAndSummarizeFromSuggestion.
  keeps_auto;
    try apply guardStillHolds_readSuggested;
    apply guardStillHolds_summarizeSnippets.
Qed.

Lemma guardStillHolds_suggestResultsToRead (fuel : nat)
  (results : list SearchResult) (query : jsstring) :
  keeps guardStillHolds (suggestResultsToRead fuel env nested results query).
Proof.
  unfold suggestResultsToRead. keeps_auto; apply guardStillHolds_autoRead.
Qed.

Lemma guardStillHolds_web_search (fuel : nat) (args : JSON) :
  keeps guardStillHolds (web_search fuel env nested args).
Proof.
  unfold web_search. keeps_auto; apply guardStillHolds_suggestResultsToRead.
Qed.

Lemma guardStillHolds_runHandler (fuel : nat) (tool args : JSON) :
  keeps guardStillHolds (runHandler fuel env nested tool args).
Proof.
  unfold runHandler. destruct (lookupHandler tool).
  - apply guardStillHolds_web_search.
  - apply guardStillHolds_read_url.
  - apply guardStillHolds_instant_answer.
  - keeps_step.
  - keeps_step.
Qed.

Lemma guardStillHolds_completeReply (text : jsstring) :
  keeps guardStillHolds (completeReply nested text).
Proof.
  unfold completeReply. keeps_auto;
    try apply nested_guard; apply guardStillHolds_processCoTResponse.
Qed.

Lemma guardStillHolds_streamedReply
  (stream : nat -> jsstring -> list Turn -> list jsstring * Completion jsstring)
  (model : jsstring) :
  keeps guardStillHolds (streamedReply nested env stream model).
Proof.
  unfold streamedReply.
  keeps_step; [apply guardStillHolds_newAIMessage|].
  keeps_auto;
    try apply nested_guard; try apply guardStillHolds_onChunk;
    apply guardStillHolds_processCoTResponse.
Qed.

Lemma guardStillHolds_handleOpenAIMessage (model message : jsstring) :
  keeps guardStillHolds (handleOpenAIMessage nested env model message).
Proof.
  unfold handleOpenAIMessage.
  keeps_auto; try apply guardStillHolds_streamedReply;
    apply guardStillHolds_completeReply.
Qed.

Lemma guardStillHolds_handleGeminiMessage (model message : jsstring) :
  keeps guardStillHolds (handleGeminiMessage nested env model message).
Proof.
  unfold handleGeminiMessage.
  keeps_auto; try apply guardStillHolds_streamedReply;
    apply guardStillHolds_completeReply.
Qed.

Lemma guardStillHolds_continueReasoning :
  keeps guardStillHolds (continueReasoning env nested).
Proof.
  unfold continueReasoning.
  keeps_auto;
    try apply guardStillHolds_handleOpenAIMessage;
    apply guardStillHolds_handleGeminiMessage.
Qed.

(** A pass through [processToolCall]: the guard variables and the log are
    brought in step again before the handler runs. *)
Lemma guardStillHolds_processToolCallBody (fuel : nat) (call : ToolCall) :
  keeps guardStillHolds (processToolCallBody fuel env nested call).
Proof.
  intros st Hholds. pose proof Hholds as [Htracks _].
  destruct (guard_by_log (callSignature call) st Htracks)
    as [Hmost [Hbelow [Habove _]]].
  unfold processToolCallBody.
  unfold bind at 1. unfold modify at 1.
  unfold bind at 1. unfold gets at 1. unfold MAX_TOOL_CALL_REPEAT.
  destruct (le_lt_dec 3 (repeatsAtEnd (callSignature call)
                                      (executedSignatures st))) as [Hthree|Hfew].
  - assert (Heq : repeatsAtEnd (callSignature call) (executedSignatures st) = 3)
      by lia.
    specialize (Habove Heq).
    replace (_ >? 3)%Z with true by (symmetry; apply Z.gtb_lt; lia).
    apply (guardHolds_aborted _ _ _ Hholds Heq).
  - specialize (Hbelow Hfew).
    replace (_ >? 3)%Z with false
      by (symmetry; rewrite Z.gtb_ltb; apply Z.ltb_ge; lia).
    unfold executeToolCall.
    unfold bind at 1. unfold ask at 1. unfold gets at 1.
    unfold bind at 1. unfold modify at 1.
    match goal with
    | |- guardHolds (fst (bind ?m ?k ?s)) =>
        assert (Hrest : keeps guardStillHolds (bind m k))
    end.
    { keeps_auto;
        [apply guardStillHolds_runHandler
        |apply guardStillHolds_continueReasoning]. }
    apply Hrest. now apply guardHolds_executed.
Qed.

End GuardWithNestedCalls.

Lemma guardStillHolds_processToolCall (fuel : nat) (env : Env) :
  forall call, keeps guardStillHolds (processToolCall fuel env call).
Proof.
  induction fuel as [|fuel IH]; intros call; simpl;
    apply guardStillHolds_processToolCallBody.
  - intros c. keeps_step.
  - exact IH.
Qed.

Lemma guardStillHolds_sendMessage (fuel : nat) (env : Env) :
  keeps guardStillHolds (sendMessage fuel env).
Proof.
  unfold sendMessage.
  keeps_auto;
    try (apply guardStillHolds_handleOpenAIMessage;
         apply guardStillHolds_processToolCall);
    apply guardStillHolds_handleGeminiMessage;
    apply guardStillHolds_processToolCall.
Qed.

Lemma guardStillHolds_perform (fuel : nat) (env : Env) (op : Operation) :
  keeps guardStillHolds (perform fuel env op).
Proof.
  destruct op; simpl.
  - unfold init. keeps_auto.
  - unfold updateSettings. keeps_auto.
  - unfold getSettings. keeps_auto.
  - apply guardStillHolds_sendMessage.
  - unfold getChatHistory. keeps_auto.
  - unfold getTotalTokens. keeps_auto.
  - unfold clearChat. keeps_auto.
  - apply guardStillHolds_processToolCall.
  - unfold getToolCallHistory. keeps_auto.
  - apply guardStillHolds_summarizeSnippets.
Qed.

(** In every state the controller reaches the guard variables agree with the
    audit log, and no call was executed four times in a row. *)
Lemma reachable_guardHolds (st : State) : reachable st -> guardHolds st.
Proof.
  induction 1 as [|fuel env op st _ IH].
  - split; [reflexivity|].
    intros [before [x [after Hsplit]]].
    apply (f_equal (@Datatypes.length jsstring)) in Hsplit.
    rewrite !length_app in Hsplit. simpl in Hsplit. lia.
  - exact (guardStillHolds_perform fuel env op st IH).
Qed.

(** C2.  The loop guard counts every pass through [processToolCall], and
    the audit log shows what it has counted.  In every state the controller
    reaches, whatever was asked of it before and in whatever world, a call
    is stopped when the last three calls executed, the last three records of
    the audit log, have its signature: the loop error is shown, and nothing
    is logged, requested or added to the conversation.  Otherwise the call
    passes the guard and its handler runs, with the counter at one more than
    the number of records with its signature the log ends with: at 1 after
    a different call.  So no call is ever executed four times in a row.  The
    reads that a [web_search] handler makes through [processToolCall] are
    calls like any other: they are logged and counted, so that the search
    before them is not the call before the next search. *)
Theorem loop_guard_counts_every_pass (fuel : nat) (env : Env) (call : ToolCall)
  (st : State) :
  reachable st ->
  let repeats := repeatsAtEnd (callSignature call) (executedSignatures st) in
  ~ fourInARow (executedSignatures st)
  /\ repeats <= 3
  /\ (repeats < 3 ->
      executes fuel env call st
      /\ lastToolCallCount (loopGuard (callSignature call) st)
         = (Z.of_nat repeats + 1)%Z)
  /\ (repeats = 3 ->
      aborts fuel env call st
      /\ (let st' := fst (processToolCall fuel env call st) in
          In (addMessage ai loopDetected) (ui st')
          /\ toolCallHistory st' = toolCallHistory st
          /\ chatHistory st' = chatHistory st
          /\ clock st' = clock st)).
Proof.
  intros Hreach repeats.
  destruct (reachable_guardHolds st Hreach) as [Htracks Hnone].
  destruct (guard_by_log (callSignature call) st Htracks)
    as [Hmost [Hbelow [Habove _]]].
  fold repeats in Hmost, Hbelow, Habove.
  split; [exact Hnone|]. split; [exact Hmost|]. split.
  - intros Hfew. specialize (Hbelow Hfew).
    split; [apply executes_below; lia | exact Hbelow].
  - intros Hthree. specialize (Habove Hthree).
    assert (Habort : aborts fuel env call st) by (now apply aborts_above).
    split; [exact Habort|].
    unfold aborts in Habort. rewrite Habort.
    destruct (loopGuard_frame (callSignature call) st)
      as [Hhistory [Hlog [Hui Hclock]]].
    cbn [fst ui set_ui toolCallHistory chatHistory clock].
    split; [apply in_or_app; right; left; reflexivity|].
    auto.
Qed.

Lemma reachable_started : reachable started.
Proof.
  exact (reachable_step 0 exampleWorld (op_init None) loaded reachable_loaded).
Qed.

Lemma reachable_issue (env : Env) (call : ToolCall) (st : State) :
  reachable st -> reachable (issue env call st).
Proof.
  intros H. exact (reachable_step 2 env (op_processToolCall call) st H).
Qed.

Lemma loop_guard_counts_every_pass_witness :
  let world := searchWorld (pageOf 100) in
  let search := issue world exampleSearch in
  let read := issue exampleWorld exampleRead in
  (executes 2 world exampleSearch (search (search (search started)))
   /\ aborts 2 world exampleSearch (search (search (search (search started)))))
  /\ (executes 2 exampleWorld exampleRead (read (read started))
      /\ aborts 2 exampleWorld exampleRead (read (read (read started)))).
Proof.
  intros world search read.
  assert (Hsearch : forall st, reachable st -> reachable (search st))
    by (intros st; apply reachable_issue).
  assert (Hread : forall st, reachable st -> reachable (read st))
    by (intros st; apply reachable_issue).
  pose proof reachable_started as H0.
  split; split.
  - destruct (loop_guard_counts_every_pass 2 world exampleSearch
                (search (search (search started)))
                (Hsearch _ (Hsearch _ (Hsearch _ H0))))
      as [_ [_ [Hbelow _]]].
    assert (Hfew : repeatsAtEnd (callSignature exampleSearch)
                     (executedSignatures (search (search (search started)))) < 3)
      by (vm_compute; lia).
    exact (proj1 (Hbelow Hfew)).
  - destruct (loop_guard_counts_every_pass 2 world exampleSearch
                (search (search (search (search started))))
                (Hsearch _ (Hsearch _ (Hsearch _ (Hsearch _ H0)))))
      as [_ [_ [_ Hthree]]].
    assert (Heq : repeatsAtEnd (callSignature exampleSearch)
                     (executedSignatures
                        (search (search (search (search started))))) = 3)
      by (vm_compute; reflexivity).
    exact (proj1 (Hthree Heq)).
  - destruct (loop_guard_counts_every_pass 2 exampleWorld exampleRead
                (read (read started)) (Hread _ (Hread _ H0)))
      as [_ [_ [Hbelow _]]].
    assert (Hfew : repeatsAtEnd (callSignature exampleRead)
                     (executedSignatures (read (read started))) < 3)
      by (vm_compute; lia).
    exact (proj1 (Hbelow Hfew)).
  - destruct (loop_guard_counts_every_pass 2 exampleWorld exampleRead
                (read (read (read started))) (Hread _ (Hread _ (Hread _ H0))))
      as [_ [_ [_ Hthree]]].
    assert (Heq : repeatsAtEnd (callSignature exampleRead)
                     (executedSignatures (read (read (read started)))) = 3)
      by (vm_compute; reflexivity).
    exact (proj1 (Hthree Heq)).
Defined.

(** The same search issued four times, one after the other: the fourth is
    executed like the three before it; only the fifth is stopped. *)
Lemma same_search_four_times :
  let world := searchWorld (pageOf 100) in
  let search := issue world exampleSearch in
  let third := search (search (search started)) in
  executes 2 world exampleSearch third
  /\ ~ aborts 2 world exampleSearch third
  /\ map calledTool (toolCallHistory (search third))
     = map (fun name => JString (str name))
           ["web_search"; "read_url"; "web_search"; "web_search";
            "web_search"]%string
  /\ showsLoopError (search third) = false
  /\ showsLoopError (search (search third)) = true.
Proof.
  intros world search third.
  assert (Hexec : executes 2 world exampleSearch third).
  { apply executes_below. vm_compute. discriminate. }
  split; [exact Hexec|].
  split; [intros Habort; exact (aborts_excludes_executes _ _ _ _ Habort Hexec)|].
  repeat split; vm_compute; reflexivity.
Qed.
